(** * Anchor construction and delegated signing: a shallow embedding

    The development follows the Python sources of the repository:
    - [letta/anchor_state_tool.py]   (anchor_my_state),
    - [letta/wallet_tool.py]         (SelfSovereignWallet.anchor_state),
    - [scripts/lit/ouroboros_test.py] (main, compute_tx_hash, serialize_signed_tx),
    - [mcp-lit-signer/server.py]     (verify_api_key, LitSignerService,
                                      anchor_state_via_pkp, anchor_action_via_pkp).

    Conventions.  Python [int] is [Z]; a Python [bytes] value is a [list Z] of
    octets; a Python [str] is the list of its Unicode code points ([pystr]);
    a function that can raise returns [option] or an [outcome]; code that
    talks to the chain, the clock or the signing network receives those
    answers through an explicit [World] record and logs what it does in a
    trace of events. *)

From Stdlib Require Import String Ascii.
From Stdlib Require Import ZArith List Bool Lia Permutation Arith Sorted.
Import ListNotations.
Local Open Scope Z_scope.

(* ================================================================== *)
(** ** Bytes and Python strings *)

Definition bytes := list Z.
Definition pystr := list Z.

Definition is_byte (b : Z) : Prop := 0 <= b < 256.

(** A Rocq string literal read as a Python [str] of ASCII code points. *)
Definition lit (s : string) : pystr :=
  map (fun a => Z.of_N (N_of_ascii a)) (list_ascii_of_string s).

(** The same, with every apostrophe read as a double quote, to write JSON
    text. *)
Definition litq (s : string) : pystr :=
  map (fun c => if c =? 39 then 34 else c) (lit s).

(** [n] little-endian octets of [x]. *)
Fixpoint le_bytes (n : nat) (x : Z) : bytes :=
  match n with
  | O => []
  | S n' => Z.land x 255 :: le_bytes n' (Z.shiftr x 8)
  end.

Fixpoint of_le_bytes (l : bytes) : Z :=
  match l with
  | [] => 0
  | b :: l' => Z.lor b (Z.shiftl (of_le_bytes l') 8)
  end.

(** Big-endian value of an octet string: [int.from_bytes(b, 'big')]. *)
Definition of_be_bytes (l : bytes) : Z :=
  fold_left (fun acc b => acc * 256 + b) l 0.

(** [x.to_bytes(n, 'big')] without the range check. *)
Definition be_bytes (n : nat) (x : Z) : bytes := rev (le_bytes n x).

(** Split a list into consecutive chunks of [n] elements; the fuel is the
    number of elements still to be consumed. *)
Fixpoint chunks_fuel {A : Type} (fuel : nat) (n : nat) (l : list A) : list (list A) :=
  match fuel with
  | O => []
  | S f =>
      match l with
      | [] => []
      | _ => firstn n l :: chunks_fuel f n (skipn n l)
      end
  end.

Definition chunks {A : Type} (n : nat) (l : list A) : list (list A) :=
  chunks_fuel (length l) n l.

(* ================================================================== *)
(** ** Keccak-256 ([eth_utils.keccak], [Web3.keccak])

    The permutation Keccak-f[1600] on 25 lanes of 64 bits, rate 136 octets,
    original Keccak padding (0x01 .. 0x80), 32 octets of output. *)

Module Keccak.

Definition mask64 : Z := Z.ones 64.

Definition rotl64 (x : Z) (n : Z) : Z :=
  Z.lor (Z.land (Z.shiftl x n) mask64) (Z.shiftr x (64 - n)).

Definition lane (A : list Z) (x y : nat) : Z := nth (x + 5 * y) A 0.

Definition round_constants : list Z :=
  [ 0x0000000000000001; 0x0000000000008082; 0x800000000000808A;
    0x8000000080008000; 0x000000000000808B; 0x0000000080000001;
    0x8000000080008081; 0x8000000000008009; 0x000000000000008A;
    0x0000000000000088; 0x0000000080008009; 0x000000008000000A;
    0x000000008000808B; 0x800000000000008B; 0x8000000000008089;
    0x8000000000008003; 0x8000000000008002; 0x8000000000000080;
    0x000000000000800A; 0x800000008000000A; 0x8000000080008081;
    0x8000000000008080; 0x0000000080000001; 0x8000000080008008 ].

(** Rotation offsets, indexed like the lanes by [x + 5 * y]. *)
Definition rotation_offsets : list Z :=
  [  0;  1; 62; 28; 27;
    36; 44;  6; 55; 20;
     3; 10; 43; 25; 39;
    41; 45; 15; 21;  8;
    18;  2; 61; 56; 14 ].

Definition theta (A : list Z) : list Z :=
  let C := map (fun x => Z.lxor (lane A x 0) (Z.lxor (lane A x 1)
                          (Z.lxor (lane A x 2) (Z.lxor (lane A x 3) (lane A x 4)))))
               (seq 0 5) in
  let D := fun x => Z.lxor (nth ((x + 4) mod 5) C 0)
                           (rotl64 (nth ((x + 1) mod 5) C 0) 1) in
  map (fun i => Z.lxor (nth i A 0) (D (i mod 5)%nat)) (seq 0 25).

(** rho and pi together: B[y, 2x+3y] = rot (A[x, y], r[x, y]); read from the
    side of the target lane (X, Y) the source is ((X + 3Y) mod 5, X). *)
Definition rho_pi (A : list Z) : list Z :=
  map (fun i =>
         let X := (i mod 5)%nat in
         let Y := (i / 5)%nat in
         let x := ((X + 3 * Y) mod 5)%nat in
         let y := X in
         rotl64 (lane A x y) (nth (x + 5 * y) rotation_offsets 0))
      (seq 0 25).

Definition chi (B : list Z) : list Z :=
  map (fun i =>
         let x := (i mod 5)%nat in
         let y := (i / 5)%nat in
         Z.lxor (lane B x y)
                (Z.land (Z.lxor (lane B ((x + 1) mod 5) y) mask64)
                        (lane B ((x + 2) mod 5) y)))
      (seq 0 25).

Definition iota (rc : Z) (A : list Z) : list Z :=
  match A with
  | [] => []
  | a :: A' => Z.lxor a rc :: A'
  end.

Definition round (A : list Z) (rc : Z) : list Z :=
  iota rc (chi (rho_pi (theta A))).

Definition keccak_f (A : list Z) : list Z :=
  fold_left round round_constants A.

Definition rate : nat := 136.

(** pad10*1 with the Keccak domain byte 0x01. *)
Definition pad (m : bytes) : bytes :=
  let q := (rate - (length m mod rate))%nat in
  match q with
  | 1%nat => m ++ [0x81]
  | _ => m ++ [0x01] ++ repeat 0 (q - 2) ++ [0x80]
  end.

Fixpoint xor_lanes (A B : list Z) : list Z :=
  match A, B with
  | a :: A', b :: B' => Z.lxor a b :: xor_lanes A' B'
  | _, [] => A
  | [], _ => []
  end.

Definition absorb (A : list Z) (block : bytes) : list Z :=
  keccak_f (xor_lanes A (map of_le_bytes (chunks 8 block))).

Definition squeeze (A : list Z) : bytes :=
  le_bytes 8 (nth 0 A 0) ++ le_bytes 8 (nth 1 A 0) ++
  le_bytes 8 (nth 2 A 0) ++ le_bytes 8 (nth 3 A 0).

Definition keccak256 (m : bytes) : bytes :=
  squeeze (fold_left absorb (chunks rate (pad m)) (repeat 0 25)).

End Keccak.

Definition keccak256 := Keccak.keccak256.

(** Lower-case hexadecimal, as [bytes.hex()]. *)
Definition hex_digit (d : Z) : Z :=
  if d <? 10 then 48 + d else 87 + d.

Definition hex_of_bytes (b : bytes) : pystr :=
  flat_map (fun x => [hex_digit (Z.shiftr x 4); hex_digit (Z.land x 15)]) b.


(* ================================================================== *)
(** ** SHA-256 ([hashlib.sha256], used by the wallet tool only) *)

Module Sha256.

Definition mask32 : Z := Z.ones 32.
Definition add32 (x y : Z) : Z := Z.land (x + y) mask32.
Definition rotr32 (n x : Z) : Z :=
  Z.lor (Z.shiftr x n) (Z.land (Z.shiftl x (32 - n)) mask32).
Definition not32 (x : Z) : Z := Z.lxor x mask32.

Definition Ch (x y z : Z) := Z.lxor (Z.land x y) (Z.land (not32 x) z).
Definition Maj (x y z : Z) :=
  Z.lxor (Z.land x y) (Z.lxor (Z.land x z) (Z.land y z)).
Definition Sigma0 x := Z.lxor (rotr32 2 x) (Z.lxor (rotr32 13 x) (rotr32 22 x)).
Definition Sigma1 x := Z.lxor (rotr32 6 x) (Z.lxor (rotr32 11 x) (rotr32 25 x)).
Definition sigma0 x := Z.lxor (rotr32 7 x) (Z.lxor (rotr32 18 x) (Z.shiftr x 3)).
Definition sigma1 x := Z.lxor (rotr32 17 x) (Z.lxor (rotr32 19 x) (Z.shiftr x 10)).

(** The first 64 primes. *)
Definition is_prime (n : nat) : bool :=
  (2 <=? n)%nat &&
  forallb (fun d => negb (Nat.eqb (n mod d) 0)) (seq 2 (n - 2)).

Definition primes : list Z := map Z.of_nat (filter is_prime (seq 2 310)).

(** The integer cube root of a number below 2^123, bit by bit. *)
Definition cube_root (n : Z) : Z :=
  fold_left
    (fun r k => let c := r + 2 ^ Z.of_nat k in if c * c * c <=? n then c else r)
    (rev (seq 0 41)) 0.

(** The round constants: the first 32 bits of the fractional parts of the
    cube roots of the primes. *)
Definition K : list Z :=
  map (fun p => Z.land (cube_root (p * 2 ^ 96)) mask32) primes.

(** The initial hash value: the first 32 bits of the fractional parts of
    the square roots of the first eight primes. *)
Definition H0 : list Z :=
  map (fun p => Z.land (Z.sqrt (p * 2 ^ 64)) mask32) (firstn 8 primes).

Definition pad (m : bytes) : bytes :=
  let l := length m in
  let k := ((64 - ((l + 9) mod 64)) mod 64)%nat in
  m ++ [0x80] ++ repeat 0 k ++ be_bytes 8 (8 * Z.of_nat l).

(** The 64-word message schedule of one block. *)
Definition schedule (block : bytes) : list Z :=
  fold_left
    (fun W t =>
       W ++ [add32 (add32 (sigma1 (nth (t - 2) W 0)) (nth (t - 7) W 0))
                   (add32 (sigma0 (nth (t - 15) W 0)) (nth (t - 16) W 0))])
    (seq 16 48)
    (map of_be_bytes (chunks 4 block)).

Definition step (W : list Z) (v : list Z) (t : nat) : list Z :=
  match v with
  | [a; b; c; d; e; f; g; h] =>
      let T1 := add32 (add32 (add32 h (Sigma1 e)) (add32 (Ch e f g) (nth t K 0)))
                      (nth t W 0) in
      let T2 := add32 (Sigma0 a) (Maj a b c) in
      [add32 T1 T2; a; b; c; add32 d T1; e; f; g]
  | _ => v
  end.

Fixpoint add_words (A B : list Z) : list Z :=
  match A, B with
  | a :: A', b :: B' => add32 a b :: add_words A' B'
  | _, _ => []
  end.

Definition compress (H : list Z) (block : bytes) : list Z :=
  add_words H (fold_left (step (schedule block)) (seq 0 64) H).

Definition sha256 (m : bytes) : bytes :=
  flat_map (be_bytes 4) (fold_left compress (chunks 64 (pad m)) H0).

End Sha256.

Definition sha256 := Sha256.sha256.

(* ================================================================== *)
(** ** UTF-8 ([str.encode('utf-8')], [Web3.keccak(text=...)])

    Surrogates (U+D800..U+DFFF) cannot be encoded: Python raises
    UnicodeEncodeError, here [None]. *)

Definition utf8_char (c : Z) : option bytes :=
  if c <? 0 then None
  else if c <? 0x80 then Some [c]
  else if c <? 0x800 then
    Some [Z.lor 0xC0 (Z.shiftr c 6); Z.lor 0x80 (Z.land c 0x3F)]
  else if (0xD800 <=? c) && (c <=? 0xDFFF) then None
  else if c <? 0x10000 then
    Some [Z.lor 0xE0 (Z.shiftr c 12);
          Z.lor 0x80 (Z.land (Z.shiftr c 6) 0x3F);
          Z.lor 0x80 (Z.land c 0x3F)]
  else if c <? 0x110000 then
    Some [Z.lor 0xF0 (Z.shiftr c 18);
          Z.lor 0x80 (Z.land (Z.shiftr c 12) 0x3F);
          Z.lor 0x80 (Z.land (Z.shiftr c 6) 0x3F);
          Z.lor 0x80 (Z.land c 0x3F)]
  else None.

Fixpoint utf8_encode (s : pystr) : option bytes :=
  match s with
  | [] => Some []
  | c :: s' =>
      match utf8_char c, utf8_encode s' with
      | Some b, Some r => Some (b ++ r)
      | _, _ => None
      end
  end.

(** [Web3.keccak(text=s)]: Keccak-256 of the UTF-8 octets of [s]. *)
Definition keccak_text (s : pystr) : option bytes :=
  option_map keccak256 (utf8_encode s).

(* ================================================================== *)
(** ** Documents and [json.dumps]

    A document is a JSON value; a mapping keeps its items in insertion order,
    as a Python [dict] does.  Python guarantees that the keys of one [dict]
    are pairwise different ([dict_keys_unique]).  Floating-point numbers are
    outside the model. *)

#[local] Set Warnings "-register-all".

Inductive json : Type :=
| JNull
| JBool (b : bool)
| JInt (n : Z)
| JStr (s : pystr)
| JList (l : list json)
| JDict (d : list (pystr * json)).

(** Comparison of two [str] values: lexicographic on code points. *)
Fixpoint str_leb (a b : pystr) : bool :=
  match a, b with
  | [], _ => true
  | _ :: _, [] => false
  | x :: a', y :: b' =>
      if x <? y then true
      else if y <? x then false
      else str_leb a' b'
  end.

Fixpoint str_eqb (a b : pystr) : bool :=
  match a, b with
  | [], [] => true
  | x :: a', y :: b' => (x =? y) && str_eqb a' b'
  | _, _ => false
  end.

(** [sorted(dct.items())]: the items are (key, value) tuples and the keys of
    a [dict] are pairwise different, so the order is decided on the keys. *)
Fixpoint insert_item {V : Type} (kv : pystr * V) (l : list (pystr * V)) : list (pystr * V) :=
  match l with
  | [] => [kv]
  | kv' :: l' =>
      if str_leb (fst kv) (fst kv') then kv :: l
      else kv' :: insert_item kv l'
  end.

Fixpoint sort_items {V : Type} (l : list (pystr * V)) : list (pystr * V) :=
  match l with
  | [] => []
  | kv :: l' => insert_item kv (sort_items l')
  end.

(** [int.__repr__]: decimal digits, most significant first. *)
Fixpoint dec_digits (fuel : nat) (n : Z) (acc : pystr) : pystr :=
  match fuel with
  | O => acc
  | S f =>
      let acc' := (48 + n mod 10) :: acc in
      if n <? 10 then acc' else dec_digits f (n / 10) acc'
  end.

Definition repr_nonneg (n : Z) : pystr :=
  dec_digits (S (Z.to_nat (Z.log2 n))) n [].

Definition int_repr (n : Z) : pystr :=
  if n <? 0 then 45 :: repr_nonneg (- n) else repr_nonneg n.

(** Four lower-case hexadecimal digits: ['{0:04x}'.format(n)]. *)
Definition hex4 (n : Z) : pystr :=
  [hex_digit (Z.land (Z.shiftr n 12) 15); hex_digit (Z.land (Z.shiftr n 8) 15);
   hex_digit (Z.land (Z.shiftr n 4) 15); hex_digit (Z.land n 15)].

Definition backslash_u (n : Z) : pystr := [92; 117] ++ hex4 n.

(** One character of [py_encode_basestring_ascii] ([ensure_ascii=True], the
    default): everything outside [' '..'~'], the quote and the backslash are
    escaped; code points above U+FFFF become a surrogate pair. *)
Definition escape_char (c : Z) : pystr :=
  if c =? 34 then [92; 34]
  else if c =? 92 then [92; 92]
  else if (32 <=? c) && (c <=? 126) then [c]
  else if c =? 10 then [92; 110]
  else if c =? 13 then [92; 114]
  else if c =? 9 then [92; 116]
  else if c =? 12 then [92; 102]
  else if c =? 8 then [92; 98]
  else if c <? 0x10000 then backslash_u c
  else
    let v := c - 0x10000 in
    backslash_u (Z.lor 0xD800 (Z.land (Z.shiftr v 10) 0x3FF)) ++
    backslash_u (Z.lor 0xDC00 (Z.land v 0x3FF)).

Definition encode_basestring_ascii (s : pystr) : pystr :=
  [34] ++ flat_map escape_char s ++ [34].

(** [sep.join(parts)]. *)
Fixpoint join (sep : pystr) (parts : list pystr) : pystr :=
  match parts with
  | [] => []
  | [p] => p
  | p :: rest => p ++ sep ++ join sep rest
  end.

(** [json.dumps(obj, sort_keys=True, separators=(item_sep, key_sep))].
    The values of a mapping are rendered first and the rendered items are
    then put in key order; the order only looks at the keys, so this is the
    encoder's "sort the items, then render them". *)
Fixpoint dumps (item_sep key_sep : pystr) (j : json) : pystr :=
  match j with
  | JNull => lit "null"
  | JBool true => lit "true"
  | JBool false => lit "false"
  | JInt n => int_repr n
  | JStr s => encode_basestring_ascii s
  | JList l =>
      [91] ++ join item_sep (map (dumps item_sep key_sep) l) ++ [93]
  | JDict d =>
      [123] ++
      join item_sep
        (map (fun kv => encode_basestring_ascii (fst kv) ++ key_sep ++ snd kv)
             (sort_items
                (map (fun kv => (fst kv, dumps item_sep key_sep (snd kv))) d))) ++
      [125]
  end.

(** [separators=(',', ':')] *)
Definition dumps_compact : json -> pystr := dumps [44] [58].
(** the default separators [(', ', ': ')] *)
Definition dumps_default : json -> pystr := dumps [44; 32] [58; 32].

(** The keys of every mapping of the document are pairwise different. *)
Fixpoint keys_nodupb (ks : list pystr) : bool :=
  match ks with
  | [] => true
  | k :: ks' => negb (existsb (str_eqb k) ks') && keys_nodupb ks'
  end.

Fixpoint dict_keys_unique (j : json) : bool :=
  match j with
  | JList l => forallb dict_keys_unique l
  | JDict d =>
      keys_nodupb (map fst d) &&
      forallb (fun kv => dict_keys_unique (snd kv)) d
  | _ => true
  end.

(** Two documents have the same logical content: the same values under the
    same keys, whatever the order in which the keys were inserted. *)
Inductive same_content : json -> json -> Prop :=
| sc_null : same_content JNull JNull
| sc_bool b : same_content (JBool b) (JBool b)
| sc_int n : same_content (JInt n) (JInt n)
| sc_str s : same_content (JStr s) (JStr s)
| sc_list l1 l2 :
    same_content_list l1 l2 -> same_content (JList l1) (JList l2)
| sc_dict d1 d1' d2 :
    Permutation d1 d1' -> same_content_items d1' d2 ->
    same_content (JDict d1) (JDict d2)
with same_content_list : list json -> list json -> Prop :=
| scl_nil : same_content_list [] []
| scl_cons x y l1 l2 :
    same_content x y -> same_content_list l1 l2 ->
    same_content_list (x :: l1) (y :: l2)
with same_content_items : list (pystr * json) -> list (pystr * json) -> Prop :=
| sci_nil : same_content_items [] []
| sci_cons k x y d1 d2 :
    same_content x y -> same_content_items d1 d2 ->
    same_content_items ((k, x) :: d1) ((k, y) :: d2).

Scheme same_content_ind' := Induction for same_content Sort Prop
  with same_content_list_ind' := Induction for same_content_list Sort Prop
  with same_content_items_ind' := Induction for same_content_items Sort Prop.
Combined Scheme same_content_mutind
  from same_content_ind', same_content_list_ind', same_content_items_ind'.

(* ================================================================== *)
(** ** The three copies of the state-hashing logic *)

(** [letta/anchor_state_tool.py], anchor_my_state, step 2:
    [state_json = json.dumps(state, sort_keys=True, separators=(',', ':'))],
    [state_hash = w3.keccak(text=state_json)]. *)
Definition anchor_my_state_hash (state : json) : option bytes :=
  keccak_text (dumps_compact state).

(** [letta/wallet_tool.py], SelfSovereignWallet.anchor_state:
    [state_json = json.dumps(state_data, sort_keys=True)],
    [state_hash = hashlib.sha256(state_json.encode()).digest()]. *)
Definition wallet_anchor_state_hash (state_data : json) : option bytes :=
  option_map sha256 (utf8_encode (dumps_default state_data)).

(** [scripts/lit/ouroboros_test.py], main:
    [state_json = json.dumps(cognitive_state, sort_keys=True)],
    [state_hash = w3.keccak(text=state_json)]. *)
Definition ouroboros_state_hash (cognitive_state : json) : option bytes :=
  keccak_text (dumps_default cognitive_state).

(* ================================================================== *)
(** ** Hexadecimal text *)

Definition hexval (c : Z) : option Z :=
  if (48 <=? c) && (c <=? 57) then Some (c - 48)
  else if (97 <=? c) && (c <=? 102) then Some (c - 87)
  else if (65 <=? c) && (c <=? 70) then Some (c - 55)
  else None.

(** ASCII white space, as [bytes.fromhex] skips it. *)
Definition is_ascii_space (c : Z) : bool :=
  ((9 <=? c) && (c <=? 13)) || (c =? 32).

(** [bytes.fromhex(s)]: two digits per octet, white space allowed between
    octets; anything else raises ValueError. *)
Fixpoint bytes_fromhex (s : pystr) : option bytes :=
  match s with
  | [] => Some []
  | c :: s' =>
      if is_ascii_space c then bytes_fromhex s'
      else
        match hexval c, s' with
        | Some h, d :: s'' =>
            match hexval d, bytes_fromhex s'' with
            | Some l, Some r => Some (h * 16 + l :: r)
            | _, _ => None
            end
        | _, _ => None
        end
  end.

(** White space above ASCII, as [int] replaces it by a blank before it
    parses ([Py_UNICODE_ISSPACE] on a code point of 127 or more). *)
Definition unicode_space (c : Z) : bool :=
  (c =? 0x85) || (c =? 0xA0) || (c =? 0x1680) ||
  ((0x2000 <=? c) && (c <=? 0x200A)) || (c =? 0x2028) || (c =? 0x2029) ||
  (c =? 0x202F) || (c =? 0x205F) || (c =? 0x3000).

(** The digit zero of every script with decimal digits (general category
    Nd, Unicode 14.0, the character database of Python 3.11); the nine code
    points that follow each are its digits one to nine. *)
Definition decimal_zeros : list Z :=
  [
    0x660; 0x6F0; 0x7C0; 0x966; 0x9E6; 0xA66; 0xAE6; 0xB66; 0xBE6; 0xC66;
    0xCE6; 0xD66; 0xDE6; 0xE50; 0xED0; 0xF20; 0x1040; 0x1090; 0x17E0;
    0x1810; 0x1946; 0x19D0; 0x1A80; 0x1A90; 0x1B50; 0x1BB0; 0x1C40; 0x1C50;
    0xA620; 0xA8D0; 0xA900; 0xA9D0; 0xA9F0; 0xAA50; 0xABF0; 0xFF10; 0x104A0;
    0x10D30; 0x11066; 0x110F0; 0x11136; 0x111D0; 0x112F0; 0x11450; 0x114D0;
    0x11650; 0x116C0; 0x11730; 0x118E0; 0x11950; 0x11C50; 0x11D50; 0x11DA0;
    0x16A60; 0x16AC0; 0x16B50; 0x1D7CE; 0x1D7D8; 0x1D7E2; 0x1D7EC; 0x1D7F6;
    0x1E140; 0x1E2F0; 0x1E950; 0x1FBF0 ].

(** [Py_UNICODE_TODECIMAL] on a code point of 127 or more. *)
Definition unicode_decimal (c : Z) : option Z :=
  match find (fun z => (z <=? c) && (c <=? z + 9)) decimal_zeros with
  | Some z => Some (c - z)
  | None => None
  end.

(** What [int] makes of a [str] before it parses: a text that is not ASCII
    has its white space turned into blanks and its decimal digits into ASCII
    digits, and is cut after a question mark at the first other code point of
    127 or more ([_PyUnicode_TransformDecimalAndSpaceToASCII]). *)
Fixpoint transform_decimal_and_space (s : pystr) : pystr :=
  match s with
  | [] => []
  | c :: s' =>
      if c <? 127 then c :: transform_decimal_and_space s'
      else if unicode_space c then 32 :: transform_decimal_and_space s'
      else
        match unicode_decimal c with
        | Some d => 48 + d :: transform_decimal_and_space s'
        | None => [63]
        end
  end.

Definition int_text (s : pystr) : pystr :=
  if forallb (fun c => c <? 128) s then s else transform_decimal_and_space s.

(** The white space that [PyLong_FromString] skips is [Py_ISSPACE]: the
    ASCII white space only. *)
Fixpoint lstrip_space (s : pystr) : pystr :=
  match s with
  | c :: s' => if is_ascii_space c then lstrip_space s' else s
  | [] => []
  end.

(** The digits of [int(text, 16)] after the first one: a single underscore
    may separate two digits, white space may follow the last digit. *)
Fixpoint scan_hex (s : pystr) (acc : Z) : option Z :=
  match s with
  | [] => Some acc
  | c :: s' =>
      if c =? 95 then
        match s' with
        | d :: s'' =>
            match hexval d with
            | Some v => scan_hex s'' (acc * 16 + v)
            | None => None
            end
        | [] => None
        end
      else
        match hexval c with
        | Some v => scan_hex s' (acc * 16 + v)
        | None => if forallb is_ascii_space s then Some acc else None
        end
  end.

(** [PyLong_FromString(text, base=16)] on the octets of an ASCII text:
    optional white space, sign and [0x] prefix; ValueError is [None]. *)
Definition parse_int16 (s : pystr) : option Z :=
  let s1 := lstrip_space s in
  let '(neg, s2) :=
    match s1 with
    | 43 :: r => (false, r)
    | 45 :: r => (true, r)
    | _ => (false, s1)
    end in
  let s3 :=
    match s2 with
    | 48 :: x :: r =>
        if (x =? 120) || (x =? 88)
        then match r with 95 :: r' => r' | _ => r end
        else s2
    | _ => s2
    end in
  match s3 with
  | d :: r =>
      match hexval d with
      | Some v => option_map (fun n => if neg then - n else n) (scan_hex r v)
      | None => None
      end
  | [] => None
  end.

(** [int(text, 16)] on a [str]; ValueError is [None]. *)
Definition int_base16 (s : pystr) : option Z := parse_int16 (int_text s).

(** [x.to_bytes(32, 'big')]: OverflowError outside [0, 2^256). *)
Definition to_bytes32 (x : Z) : option bytes :=
  if (0 <=? x) && (x <? 2 ^ 256) then Some (be_bytes 32 x) else None.

(* ================================================================== *)
(** ** RLP ([rlp.encode]) *)

(** What the transaction code hands to [rlp.encode]: non-negative integers,
    octet strings and lists of them. *)
Inductive rlp_obj : Type :=
| RInt (n : Z)
| RBytes (b : bytes)
| RList (l : list rlp_obj).

(** [int_to_big_endian]: the shortest big-endian octet string of [n > 0]. *)
Fixpoint be_min_fuel (fuel : nat) (n : Z) (acc : bytes) : bytes :=
  match fuel with
  | O => acc
  | S f => if n <=? 0 then acc else be_min_fuel f (n / 256) (n mod 256 :: acc)
  end.

Definition int_to_big_endian (n : Z) : bytes :=
  be_min_fuel (S (Z.to_nat (Z.log2 n))) n [].

(** [length_prefix(length, offset)]; "Length greater than 256**8" is [None]. *)
Definition length_prefix (len : Z) (offset : Z) : option bytes :=
  if len <? 56 then Some [offset + len]
  else if len <? 256 ^ 8 then
    let length_string := int_to_big_endian len in
    Some ((offset + 56 - 1 + Z.of_nat (length length_string)) :: length_string)
  else None.

(** The binary sedes on an octet string. *)
Definition encode_bytes (b : bytes) : option bytes :=
  match b with
  | [x] =>
      if x <? 128 then Some [x]
      else option_map (fun p => p ++ b) (length_prefix 1 128)
  | _ => option_map (fun p => p ++ b) (length_prefix (Z.of_nat (length b)) 128)
  end.

Definition concat_options (l : list (option bytes)) : option bytes :=
  fold_right
    (fun x acc =>
       match x, acc with
       | Some a, Some b => Some (a ++ b)
       | _, _ => None
       end)
    (Some []) l.

(** [rlp.encode(obj)] with inferred sedes: a negative integer has no sedes
    and raises. *)
Fixpoint rlp_encode (o : rlp_obj) : option bytes :=
  match o with
  | RInt n =>
      if n <? 0 then None
      else if n =? 0 then encode_bytes []
      else encode_bytes (int_to_big_endian n)
  | RBytes b => encode_bytes b
  | RList l =>
      match concat_options (map rlp_encode l) with
      | Some payload =>
          option_map (fun p => p ++ payload)
                     (length_prefix (Z.of_nat (length payload)) 192)
      | None => None
      end
  end.

(* ================================================================== *)
(** ** Transactions and signatures ([mcp-lit-signer/server.py],
       [scripts/lit/ouroboros_test.py]) *)

(** The dictionary that [build_anchor_transaction] returns. *)
Record Tx : Type := mkTx {
  tx_to : pystr;
  tx_value : Z;
  tx_data : pystr;
  tx_gas : Z;
  tx_maxFeePerGas : Z;
  tx_maxPriorityFeePerGas : Z;
  tx_nonce : Z;
  tx_chainId : Z;
  tx_type : Z
}.

(** The entry of [sign_result['signatures']] for one signature name. *)
Record Signature : Type := mkSignature {
  sig_r : pystr;
  sig_s : pystr;
  sig_recid : Z
}.

(** The nine fields of the unsigned transaction, in the order of the list
    [tx_fields] of [compute_tx_hash]. *)
Definition unsigned_fields (tx : Tx) : option (list rlp_obj) :=
  match bytes_fromhex (skipn 2 (tx_to tx)), bytes_fromhex (skipn 2 (tx_data tx)) with
  | Some to_bytes, Some data_bytes =>
      Some [ RInt (tx_chainId tx);
             RInt (tx_nonce tx);
             RInt (tx_maxPriorityFeePerGas tx);
             RInt (tx_maxFeePerGas tx);
             RInt (tx_gas tx);
             RBytes to_bytes;
             RInt (tx_value tx);
             RBytes data_bytes;
             RList [] ]
  | _, _ => None
  end.

(** [b'\x02' + rlp.encode(tx_fields)]: what is hashed for signing. *)
Definition signing_preimage (tx : Tx) : option bytes :=
  match unsigned_fields tx with
  | Some fields => option_map (fun e => 2 :: e) (rlp_encode (RList fields))
  | None => None
  end.

(** LitSignerService.compute_tx_hash (and the copy in ouroboros_test.py). *)
Definition compute_tx_hash (tx : Tx) : option bytes :=
  option_map keccak256 (signing_preimage tx).

(** LitSignerService.serialize_signed_tx (and the copy in
    ouroboros_test.py). *)
Definition serialize_signed_tx (tx : Tx) (signature : Signature) : option bytes :=
  match int_base16 (sig_r signature), int_base16 (sig_s signature) with
  | Some r, Some s =>
      let v := sig_recid signature in
      match unsigned_fields tx, to_bytes32 r, to_bytes32 s with
      | Some fields, Some r32, Some s32 =>
          option_map (fun e => 2 :: e)
                     (rlp_encode (RList (fields ++ [RInt v; RBytes r32; RBytes s32])))
      | _, _, _ => None
      end
  | _, _ => None
  end.

(** The order of the secp256k1 group and the low-s condition of the chain. *)
Definition curve_order : Z :=
  0xFFFFFFFFFFFFFFFFFFFFFFFFFFFFFFFEBAAEDCE6AF48A03BBFD25E8CD0364141.

Definition is_low_s (s : Z) : Prop := 0 < s <= curve_order / 2.
Definition is_high_s (s : Z) : Prop := curve_order / 2 < s < curve_order.

(** What the specification asks of the assembler for a high-s signature:
    [s := curve_order - s], [recovery_id := 1 - recovery_id]. *)
Definition hex_of_int (n : Z) : pystr := hex_of_bytes (be_bytes 32 n).

Definition normalized_signature (r s v : Z) : Signature :=
  mkSignature (hex_of_int r) (hex_of_int (curve_order - s)) (1 - v).

(* ================================================================== *)
(** ** Calendar time ([datetime.utcfromtimestamp(t).isoformat()]) *)

(** Civil date of a day number counted from 1970-01-01 (proleptic Gregorian
    calendar, as [datetime] uses it). *)
Definition civil_from_days (z : Z) : Z * Z * Z :=
  let z := z + 719468 in
  let era := z / 146097 in
  let doe := z - era * 146097 in
  let yoe := (doe - doe / 1460 + doe / 36524 - doe / 146096) / 365 in
  let y := yoe + era * 400 in
  let doy := doe - (365 * yoe + yoe / 4 - yoe / 100) in
  let mp := (5 * doy + 2) / 153 in
  let d := doy - (153 * mp + 2) / 5 + 1 in
  let m := if mp <? 10 then mp + 3 else mp - 9 in
  (if m <=? 2 then y + 1 else y, m, d).

(** Decimal with at least [w] digits: ['%0wd']. *)
Definition zpad (w : nat) (n : Z) : pystr :=
  let d := int_repr n in
  repeat 48 (w - length d) ++ d.

Definition MIN_TIMESTAMP : Z := -62135596800.   (* 0001-01-01T00:00:00 *)
Definition MAX_TIMESTAMP : Z := 253402300799.   (* 9999-12-31T23:59:59 *)

(** [datetime.utcfromtimestamp(timestamp).isoformat()] for an integer
    timestamp; a year outside 1..9999 raises. *)
Definition utc_isoformat (timestamp : Z) : option pystr :=
  if (timestamp <? MIN_TIMESTAMP) || (MAX_TIMESTAMP <? timestamp) then None
  else
    let days := timestamp / 86400 in
    let sod := timestamp mod 86400 in
    let '(y, m, d) := civil_from_days days in
    Some (zpad 4 y ++ [45] ++ zpad 2 m ++ [45] ++ zpad 2 d ++ [84] ++
          zpad 2 (sod / 3600) ++ [58] ++ zpad 2 (sod / 60 mod 60) ++ [58] ++
          zpad 2 (sod mod 60)).

(* ================================================================== *)
(** ** The action anchor ([anchor_action_via_pkp], steps 1 to 5) *)

(** The arguments of the tool, apart from [ctx] and [api_key]. *)
Record ActionArgs : Type := mkActionArgs {
  token_id : Z;
  work_product_content : pystr;
  content_type : pystr;
  description : pystr;
  creator_agent_id : pystr;
  creator_name : pystr;
  collaborators : list pystr;
  anchor_type : pystr
}.

(** Step 3: the dictionary [action_anchor_data], keys in the order in which
    the source inserts them; [size_bytes] is
    [len(work_product_content.encode('utf-8'))]. *)
Definition action_anchor_data (a : ActionArgs) (work_product_hash : bytes)
    (size_bytes : Z) (creator_state_hash : pystr) (timestamp : Z)
    (timestamp_iso : pystr) : json :=
  JDict [
    (lit "anchor_type", JStr (lit "action"));
    (lit "action_subtype", JStr (anchor_type a));
    (lit "work_product",
       JDict [
         (lit "hash", JStr (lit "0x" ++ hex_of_bytes work_product_hash));
         (lit "content_type", JStr (content_type a));
         (lit "description", JStr (description a));
         (lit "size_bytes", JInt size_bytes) ]);
    (lit "creator",
       JDict [
         (lit "token_id", JInt (token_id a));
         (lit "agent_id", JStr (creator_agent_id a));
         (lit "name", JStr (creator_name a));
         (lit "state_hash_at_creation", JStr creator_state_hash) ]);
    (lit "collaborators", JList (map JStr (collaborators a)));
    (lit "timestamp", JInt timestamp);
    (lit "timestamp_iso", JStr (timestamp_iso ++ lit "Z")) ].

(** The sentinel of step 2: ["0x" + "0" * 64]. *)
Definition zero_state_hash : pystr := lit "0x" ++ repeat 48 64%nat.

(** What the composition yields. *)
Record ActionAnchor : Type := mkActionAnchor {
  work_product_hash : bytes;          (* content commitment *)
  creator_state_hash : pystr;         (* creator state commitment, as text *)
  anchor_timestamp : Z;
  anchor_payload : pystr;             (* canonical form of the anchor *)
  combined_anchor_hash : bytes;       (* combined commitment *)
  anchor_state_uri : pystr
}.

(** Step 4: [json.dumps(action_anchor_data, sort_keys=True,
    separators=(',', ':'))]. *)
Definition action_anchor_payload (a : ActionArgs) (content_bytes : bytes)
    (creator_state_hash : pystr) (timestamp : Z) (timestamp_iso : pystr) : pystr :=
  dumps_compact
    (action_anchor_data a (keccak256 content_bytes)
       (Z.of_nat (length content_bytes)) creator_state_hash timestamp timestamp_iso).

(** Step 5: the locator. *)
Definition action_state_uri (a : ActionArgs) (timestamp : Z) : pystr :=
  lit "letta://agent/" ++ creator_agent_id a ++ lit "/action/" ++
  anchor_type a ++ lit "/" ++ int_repr timestamp.

(** Steps 1, 3, 4 and 5 for a given creator state hash and clock reading. *)
Definition compose_action (a : ActionArgs) (creator_state_hash : pystr)
    (timestamp : Z) : option ActionAnchor :=
  match utf8_encode (work_product_content a) with
  | None => None
  | Some content_bytes =>
      match utc_isoformat timestamp with
      | None => None
      | Some iso =>
          let payload :=
            action_anchor_payload a content_bytes creator_state_hash timestamp iso in
          match keccak_text payload with
          | None => None
          | Some combined =>
              Some (mkActionAnchor (keccak256 content_bytes) creator_state_hash
                      timestamp payload combined (action_state_uri a timestamp))
          end
      end
  end.

(* ================================================================== *)
(** ** Effects: exceptions, the signer's state, the trace of requests *)

(** Exceptions, by origin. *)
Inductive exn : Type :=
| TypeError_compare_digest     (* secrets.compare_digest on non-ASCII text *)
| ValueError_fromhex           (* bytes.fromhex *)
| EncodingError                (* rlp, to_bytes, int(text, 16), UTF-8 *)
| OutOfRangeTime               (* datetime arithmetic *)
| MissingConfiguration         (* an unset environment variable is used *)
| SessionSigsFailed            (* "Failed to get session sigs: ..." *)
| External (message : pystr).  (* raised by the chain, the network, a library *)

Inductive outcome (A : Type) : Type :=
| Ok (a : A)
| Raise (e : exn).
Arguments Ok {A} a.
Arguments Raise {A} e.

Definition of_option {A : Type} (e : exn) (o : option A) : outcome A :=
  match o with
  | Some a => Ok a
  | None => Raise e
  end.

(** The fields of [LitSignerService]. *)
Record Service : Type := mkService {
  client : option unit;          (* the connected LitClient, or None *)
  session_sigs : option pystr;   (* the capability tokens, or None *)
  session_expiry : option Z      (* microseconds since the epoch, or None *)
}.

Definition initial_service : Service := mkService None None None.

Record Receipt : Type := mkReceipt {
  status : Z;
  blockNumber : Z;
  gasUsed : Z;
  receipt_text : pystr           (* str(receipt) *)
}.

(** [result] of [get_session_sigs]. *)
Record SessionSigsResult : Type := mkSessionSigsResult {
  success : bool;
  sessionSigs : option pystr
}.

(** [result] of [execute_js]: the entry ['anchorStateSig'] of
    [result['signatures']] when it is there and not empty. *)
Record SignResult : Type := mkSignResult {
  anchorStateSig : option Signature;
  sign_result_text : pystr       (* str(sign_result) *)
}.

(** Requests that leave the process, in the order they are made. *)
Inductive event : Type :=
| EvLitConnect
| EvGetSessionSigs (expiration : Z)
| EvGetTransactionCount (address : pystr)
| EvGetBlock
| EvEncodeAbi (tok : Z) (state_hash : bytes) (state_uri : pystr)
| EvBuildTransaction (tok : Z) (state_hash : bytes) (state_uri : pystr)
| EvEstimateGas (tx : Tx)
| EvGetStateAnchor (tok : Z)
| EvExecuteJs (tx_hash : bytes)          (* signing request to the network *)
| EvSignTransaction (tx : Tx)            (* signing with the executor key *)
| EvSendRawTransaction (raw : bytes)
| EvWaitForReceipt (tx_hash : bytes)
| EvLitDisconnect
| EvLettaExport (agent_id : pystr)
| EvGetAgentTBA (tok : Z).

(** The answers of the environment during one call. *)
Record World : Type := mkWorld {
  env_MCP_API_KEY : option pystr;        (* os.getenv('MCP_API_KEY') *)
  CONTRACT_ADDRESS : option pystr;
  PKP_ETH_ADDRESS : option pystr;
  DEPLOYER_PRIVATE_KEY : option pystr;
  utcnow : Z;                            (* datetime.utcnow(), microseconds *)
  time_time : Z;                         (* int(time.time()) *)
  lit_connect : outcome unit;
  get_session_sigs : Z -> outcome SessionSigsResult;
  get_transaction_count : pystr -> outcome Z;
  get_block_baseFeePerGas : outcome Z;
  encode_abi : Z -> bytes -> pystr -> outcome pystr;
  build_transaction : Z -> bytes -> pystr -> Z -> outcome Tx;
  estimate_gas : Tx -> outcome Z;
  getStateAnchor : Z -> outcome (bytes * pystr * Z);
  execute_js : bytes -> option pystr -> outcome SignResult;
  sign_transaction : Tx -> outcome bytes;
  send_raw_transaction : bytes -> outcome bytes;
  wait_for_transaction_receipt : bytes -> outcome Receipt;
  lit_disconnect : outcome unit;
  AGENT_EXECUTOR_PRIVATE_KEY : option pystr;
  account_from_key : pystr -> outcome pystr;   (* the executor's address *)
  export_state : pystr -> bool -> outcome json; (* step 1 of anchor_my_state *)
  getAgentTBA : Z -> outcome pystr
}.

Record Runtime : Type := mkRuntime {
  service : Service;
  trace : list event                     (* most recent request last *)
}.

(** A computation reads and updates the signer's state, appends to the
    trace, and returns or raises; the state written before an exception
    stays written. *)
Definition M (A : Type) : Type := Runtime -> outcome A * Runtime.

Definition ret {A : Type} (a : A) : M A := fun rt => (Ok a, rt).
Definition raise {A : Type} (e : exn) : M A := fun rt => (Raise e, rt).
Definition bind {A B : Type} (m : M A) (k : A -> M B) : M B :=
  fun rt =>
    match m rt with
    | (Ok a, rt') => k a rt'
    | (Raise e, rt') => (Raise e, rt')
    end.
Definition try_except {A : Type} (m : M A) (handler : exn -> M A) : M A :=
  fun rt =>
    match m rt with
    | (Ok a, rt') => (Ok a, rt')
    | (Raise e, rt') => handler e rt'
    end.
Definition lift {A : Type} (o : outcome A) : M A := fun rt => (o, rt).
(** One request: logged when it is made, whatever its answer. *)
Definition request {A : Type} (ev : event) (answer : outcome A) : M A :=
  fun rt => (answer, mkRuntime (service rt) (trace rt ++ [ev])).
Definition get_service : M Service := fun rt => (Ok (service rt), rt).
Definition put_service (s : Service) : M unit :=
  fun rt => (Ok tt, mkRuntime s (trace rt)).

Declare Scope monad_scope.
Delimit Scope monad_scope with monad.
Notation "x <- m ;; k" := (bind m (fun x => k))
  (at level 61, m at next level, right associativity) : monad_scope.
Notation "m ;;; k" := (bind m (fun _ => k))
  (at level 61, right associativity) : monad_scope.
Local Open Scope monad_scope.

(* ================================================================== *)
(** ** The signing server ([mcp-lit-signer/server.py]) *)

Definition CHAIN_ID : Z := 84532.

(** [x.startswith(prefix)]. *)
Fixpoint startswith (x prefix : pystr) : bool :=
  match prefix, x with
  | [], _ => true
  | p :: prefix', c :: x' => (c =? p) && startswith x' prefix'
  | _ :: _, [] => false
  end.

Definition is_ascii_str (s : pystr) : bool := forallb (fun c => c <? 128) s.

(** [secrets.compare_digest(a, b)] on two [str]: TypeError unless both are
    ASCII, otherwise equality. *)
Definition compare_digest (a b : pystr) : outcome bool :=
  if is_ascii_str a && is_ascii_str b then Ok (str_eqb a b)
  else Raise TypeError_compare_digest.

(** Truth value of an [Optional[str]]: neither None nor empty. *)
Definition truthy (k : option pystr) : bool :=
  match k with
  | Some (_ :: _) => true
  | _ => false
  end.

Inductive tool_result : Type :=
| AuthenticationFailed     (* "Authentication failed: invalid or missing API key" *)
| InvalidStateHash         (* "state_hash must be a 66-character hex string ..." *)
| SigningFailed (sign_result : pystr)            (* "PKP signing failed: ..." *)
| Success (tx_hash : bytes) (block_number gas_used : Z)
          (action_anchor : option ActionAnchor)
| TransactionReverted (receipt : pystr)  (* "Transaction reverted" + the receipt *)
| Failed (e : exn).                      (* {"error": str(e)} *)

Section Server.

Variable W : World.

(** Lines 50-57: an unset or empty variable leaves the key [None]. *)
Definition MCP_API_KEY : option pystr :=
  if truthy (env_MCP_API_KEY W) then env_MCP_API_KEY W else None.

Definition verify_api_key (provided_key : option pystr) : outcome bool :=
  match MCP_API_KEY with
  | None => Ok false
  | Some key =>
      match provided_key with
      | None => Ok false
      | Some provided => compare_digest provided key
      end
  end.

(** [api_key if api_key else MCP_API_KEY]. *)
Definition effective_key (api_key : option pystr) : option pystr :=
  if truthy api_key then api_key else MCP_API_KEY.

Definition HOUR : Z := 3600 * 1000000.
Definition MINUTE : Z := 60 * 1000000.
Definition MAX_DATETIME : Z := MAX_TIMESTAMP * 1000000 + 999999.

(** [(now + timedelta(hours=1)).strftime("%Y-%m-%dT%H:%M:%SZ")]: the
    instant is sent with its microseconds dropped; it is kept here as the
    whole second it denotes. *)
Definition requested_expiration (now : Z) : outcome Z :=
  if now + HOUR <=? MAX_DATETIME then Ok ((now + HOUR) / 1000000)
  else Raise OutOfRangeTime.

(** LitSignerService.ensure_connected. *)
Definition ensure_connected : M bool :=
  s <- get_service ;;
  match client s with
  | None =>
      put_service (mkService (Some tt) (session_sigs s) (session_expiry s)) ;;;
      request EvLitConnect (lit_connect W) ;;;
      match DEPLOYER_PRIVATE_KEY W with
      | None => raise MissingConfiguration
      | Some _ => ret tt
      end
  | Some _ => ret tt
  end ;;;
  let now := utcnow W in
  s <- get_service ;;
  if match session_sigs s with None => true | Some _ => false end
     || match session_expiry s with Some e => e <=? now | None => false end
  then
    expiration <- lift (requested_expiration now) ;;
    result <- request (EvGetSessionSigs expiration) (get_session_sigs W expiration) ;;
    if negb (success result) then raise SessionSigsFailed
    else
      put_service (mkService (client s) (sessionSigs result)
                             (Some (now + 55 * MINUTE))) ;;;
      ret true
  else ret true.

(** LitSignerService.disconnect. *)
Definition disconnect : M unit :=
  s <- get_service ;;
  match client s with
  | Some _ =>
      try_except (request EvLitDisconnect (lit_disconnect W)) (fun _ => ret tt) ;;;
      put_service (mkService None None (session_expiry s))
  | None => ret tt
  end.

(** LitSignerService.build_anchor_transaction.  With no contract address
    configured the dictionary has ['to': None] and the very next step,
    [compute_tx_hash], raises; the exception is raised here. *)
Definition build_anchor_transaction (tok : Z) (state_hash : bytes)
    (state_uri : pystr) : M Tx :=
  match PKP_ETH_ADDRESS W with
  | None => raise MissingConfiguration
  | Some pkp =>
      nonce <- request (EvGetTransactionCount pkp) (get_transaction_count W pkp) ;;
      base_fee <- request EvGetBlock (get_block_baseFeePerGas W) ;;
      let max_priority_fee := 1000000000 in
      let max_fee := base_fee * 2 + max_priority_fee in
      tx_data <- request (EvEncodeAbi tok state_hash state_uri)
                         (encode_abi W tok state_hash state_uri) ;;
      match CONTRACT_ADDRESS W with
      | None => raise MissingConfiguration
      | Some contract_address =>
          ret (mkTx contract_address 0 tx_data 200000 max_fee max_priority_fee
                    nonce CHAIN_ID 2)
      end
  end.

(** LitSignerService.sign_with_pkp. *)
Definition sign_with_pkp (tx_hash : bytes) : M SignResult :=
  ensure_connected ;;;
  s <- get_service ;;
  request (EvExecuteJs tx_hash) (execute_js W tx_hash (session_sigs s)).

(** The common tail of both tools: sign, serialize, broadcast, wait for the
    receipt, report. *)
Definition sign_and_submit (tx : Tx) (action_anchor : option ActionAnchor)
  : M tool_result :=
  tx_hash_to_sign <- lift (of_option EncodingError (compute_tx_hash tx)) ;;
  sign_result <- sign_with_pkp tx_hash_to_sign ;;
  match anchorStateSig sign_result with
  | None => ret (SigningFailed (sign_result_text sign_result))
  | Some signature =>
      signed_tx_bytes <-
        lift (of_option EncodingError (serialize_signed_tx tx signature)) ;;
      tx_hash_sent <- request (EvSendRawTransaction signed_tx_bytes)
                              (send_raw_transaction W signed_tx_bytes) ;;
      receipt <- request (EvWaitForReceipt tx_hash_sent)
                         (wait_for_transaction_receipt W tx_hash_sent) ;;
      if status receipt =? 1
      then ret (Success tx_hash_sent (blockNumber receipt) (gasUsed receipt)
                        action_anchor)
      else ret (TransactionReverted (receipt_text receipt))
  end.

(** The tool anchor_state_via_pkp.  Its notifications to the client
    ([ctx.info], [ctx.report_progress], [ctx.error]) are left out.  The first
    of them, between the authentication and the [try], formats [token_id];
    Python does that for an int of at most 4300 decimal digits
    ([formattable_int] below). *)
Definition anchor_state_via_pkp (tok : Z) (state_hash state_uri : pystr)
    (api_key : option pystr) : M tool_result :=
  authenticated <- lift (verify_api_key (effective_key api_key)) ;;
  if negb authenticated then ret AuthenticationFailed
  else
    try_except
      (if negb (startswith state_hash (lit "0x"))
          || negb (Nat.eqb (length state_hash) 66)
       then ret InvalidStateHash
       else
         state_hash_bytes <-
           lift (of_option ValueError_fromhex (bytes_fromhex (skipn 2 state_hash))) ;;
         tx <- build_anchor_transaction tok state_hash_bytes state_uri ;;
         sign_and_submit tx None)
      (fun e => ret (Failed e)).

(** Step 2 of anchor_action_via_pkp: the creator's anchored state hash, or
    the all-zero text when the lookup raises. *)
Definition lookup_creator_state_hash (tok : Z) : M pystr :=
  try_except
    (state_result <- request (EvGetStateAnchor tok) (getStateAnchor W tok) ;;
     ret (lit "0x" ++ hex_of_bytes (fst (fst state_result))))
    (fun _ => ret zero_state_hash).

(** The tool anchor_action_via_pkp; the notifications to the client are
    left out as in [anchor_state_via_pkp], the first one formatting
    [token_id] likewise. *)
Definition anchor_action_via_pkp (a : ActionArgs) (api_key : option pystr)
  : M tool_result :=
  authenticated <- lift (verify_api_key (effective_key api_key)) ;;
  if negb authenticated then ret AuthenticationFailed
  else
    try_except
      (_ <- lift (of_option EncodingError
                     (keccak_text (work_product_content a))) ;;
       creator_state <- lookup_creator_state_hash (token_id a) ;;
       anchor <- lift (of_option OutOfRangeTime
                         (compose_action a creator_state (time_time W))) ;;
       tx <- build_anchor_transaction (token_id a) (combined_anchor_hash anchor)
                                      (anchor_state_uri anchor) ;;
       sign_and_submit tx (Some anchor))
      (fun e => ret (Failed e)).

End Server.

(* ================================================================== *)
(** ** The agent-side tool ([letta/anchor_state_tool.py]) *)

Inductive tool_text : Type :=
| ErrorNotConfigured       (* "ERROR: ... environment variable not set" *)
| ErrorText (e : exn)      (* "ERROR: ..." from an except clause *)
| ErrorTransactionFailed (tx_hash : bytes)   (* "ERROR: Transaction failed. TX: ..." *)
| Anchored (state_hash : bytes) (state_uri : pystr) (tx_hash : bytes)
           (gas_used : Z).  (* "State anchored successfully! ..." *)

Section AgentTool.

Variable W : World.

(** anchor_my_state: steps 2 and 3 on the exported state. *)
Definition anchor_my_state (agent_id : pystr) (tok : Z) (include_archival : bool)
  : M tool_text :=
  match CONTRACT_ADDRESS W, AGENT_EXECUTOR_PRIVATE_KEY W with
  | Some (_ :: _), Some ((_ :: _) as executor_key) =>
      try_except
        (state <- request (EvLettaExport agent_id)
                          (export_state W agent_id include_archival) ;;
         state_hash <- lift (of_option EncodingError (anchor_my_state_hash state)) ;;
         let state_uri :=
           lit "letta://" ++ agent_id ++ lit "/state/" ++
           firstn 16 (hex_of_bytes state_hash) in
         executor <- lift (account_from_key W executor_key) ;;
         nonce <- request (EvGetTransactionCount executor)
                          (get_transaction_count W executor) ;;
         tx <- request (EvBuildTransaction tok state_hash state_uri)
                       (build_transaction W tok state_hash state_uri nonce) ;;
         gas <- request (EvEstimateGas tx) (estimate_gas W tx) ;;
         base_fee <- request EvGetBlock (get_block_baseFeePerGas W) ;;
         let priority_fee := 1000000 in
         let tx' :=
           mkTx (tx_to tx) (tx_value tx) (tx_data tx) gas
                (base_fee * 2 + priority_fee) priority_fee
                (tx_nonce tx) (tx_chainId tx) (tx_type tx) in
         signed <- request (EvSignTransaction tx') (sign_transaction W tx') ;;
         tx_hash <- request (EvSendRawTransaction signed)
                            (send_raw_transaction W signed) ;;
         receipt <- request (EvWaitForReceipt tx_hash)
                            (wait_for_transaction_receipt W tx_hash) ;;
         if negb (status receipt =? 1) then ret (ErrorTransactionFailed tx_hash)
         else
           _ <- request (EvGetAgentTBA tok) (getAgentTBA W tok) ;;
           ret (Anchored state_hash state_uri tx_hash (gasUsed receipt)))
        (fun e => ret (ErrorText e))
  | _, _ => ret ErrorNotConfigured
  end.

End AgentTool.

(* ================================================================== *)
(** ** Vocabulary of the statements *)

(** Two different octet strings with the same Keccak-256 digest. *)
Definition keccak_collision (a b : bytes) : Prop :=
  a <> b /\ keccak256 a = keccak256 b.

Definition collide (a b : option bytes) : Prop :=
  match a, b with
  | Some x, Some y => keccak_collision x y
  | _, _ => False
  end.

Definition uint256b (n : Z) : bool := (0 <=? n) && (n <? 2 ^ 256).

Definition is_some {A : Type} (o : option A) : bool :=
  match o with Some _ => true | None => false end.

(** A transaction as the builder produces it: unsigned 256-bit numbers,
    hexadecimal text after the two-character prefix of [to] and [data]. *)
Definition tx_well_formed (tx : Tx) : bool :=
  uint256b (tx_chainId tx) && uint256b (tx_nonce tx) &&
  uint256b (tx_maxPriorityFeePerGas tx) && uint256b (tx_maxFeePerGas tx) &&
  uint256b (tx_gas tx) && uint256b (tx_value tx) &&
  is_some (bytes_fromhex (skipn 2 (tx_to tx))) &&
  is_some (bytes_fromhex (skipn 2 (tx_data tx))) &&
  (Z.of_nat (length (tx_to tx)) <? 2 ^ 32) &&
  (Z.of_nat (length (tx_data tx)) <? 2 ^ 32).

(** The same transaction with another nonce. *)
Definition set_nonce (tx : Tx) (nonce : Z) : Tx :=
  mkTx (tx_to tx) (tx_value tx) (tx_data tx) (tx_gas tx) (tx_maxFeePerGas tx)
       (tx_maxPriorityFeePerGas tx) nonce (tx_chainId tx) (tx_type tx).

(** Text as the specification means it: Unicode scalar values, that is,
    code points up to U+10FFFF other than the surrogates. *)
Definition valid_char (c : Z) : bool :=
  (0 <=? c) && (c <? 0x110000) && negb ((0xD800 <=? c) && (c <=? 0xDFFF)).

Definition valid_text (s : pystr) : bool := forallb valid_char s.

Definition valid_texts (l : list pystr) : bool := forallb valid_text l.

Definition valid_action_args (a : ActionArgs) : bool :=
  valid_text (work_product_content a) && valid_text (content_type a) &&
  valid_text (description a) && valid_text (creator_agent_id a) &&
  valid_text (creator_name a) && valid_texts (collaborators a) &&
  valid_text (anchor_type a).

Definition valid_timestamp (t : Z) : bool :=
  (MIN_TIMESTAMP <=? t) && (t <=? MAX_TIMESTAMP).

(** What an action anchor is composed from: the tool's arguments, the
    creator's state commitment (as text) and the clock reading. *)
Record ActionInputs : Type := mkActionInputs {
  args : ActionArgs;
  state_commitment : pystr;
  clock : Z
}.

Definition valid_inputs (x : ActionInputs) : bool :=
  valid_action_args (args x) && valid_text (state_commitment x) &&
  valid_timestamp (clock x).

Definition compose (x : ActionInputs) : option ActionAnchor :=
  compose_action (args x) (state_commitment x) (clock x).

Definition combined_commitment (x : ActionInputs) : option bytes :=
  option_map combined_anchor_hash (compose x).



Definition payload_octets (x : ActionInputs) : option bytes :=
  match compose x with
  | Some anchor => utf8_encode (anchor_payload anchor)
  | None => None
  end.

Definition with_content (a : ActionArgs) (c : pystr) : ActionArgs :=
  mkActionArgs (token_id a) c (content_type a) (description a)
               (creator_agent_id a) (creator_name a) (collaborators a)
               (anchor_type a).

Definition with_description (a : ActionArgs) (d : pystr) : ActionArgs :=
  mkActionArgs (token_id a) (work_product_content a) (content_type a) d
               (creator_agent_id a) (creator_name a) (collaborators a)
               (anchor_type a).

Definition with_collaborators (a : ActionArgs) (l : list pystr) : ActionArgs :=
  mkActionArgs (token_id a) (work_product_content a) (content_type a)
               (description a) (creator_agent_id a) (creator_name a) l
               (anchor_type a).

(** Exactly one of content, creator state commitment, timestamp, description
    and collaborators is changed; everything else is held fixed. *)
Inductive one_change : ActionInputs -> ActionInputs -> Prop :=
| change_content a c s t :
    c <> work_product_content a ->
    one_change (mkActionInputs a s t) (mkActionInputs (with_content a c) s t)
| change_state_commitment a s s' t :
    s' <> s ->
    one_change (mkActionInputs a s t) (mkActionInputs a s' t)
| change_timestamp a s t t' :
    t' <> t ->
    one_change (mkActionInputs a s t) (mkActionInputs a s t')
| change_description a d s t :
    d <> description a ->
    one_change (mkActionInputs a s t) (mkActionInputs (with_description a d) s t)
| change_collaborators a l s t :
    l <> collaborators a ->
    one_change (mkActionInputs a s t) (mkActionInputs (with_collaborators a l) s t).

(** Where a call starts: nothing connected, nothing requested yet. *)
Definition initial_runtime : Runtime := mkRuntime initial_service [].

(** An environment for examples: the chain answers every request, the
    creator of token 2 has no anchored state, every gas simulation reverts
    and the broadcast transaction is mined with status 0. *)
Definition sample_world : World :=
  mkWorld
    (Some (lit "kU3x-secret-key"))
    (Some (lit "0x5FbDB2315678afecb367f032d93F642f64180aa3"))
    (Some (lit "0x70997970C51812dc3A010C7d01b50e0d17dc79C8"))
    (Some (lit "0xac0974bec39a17e36ba4a6b4d238ff944bacb478cbed5efcae784d7bf4f2ff80"))
    1700000000123456
    1700000000
    (Ok tt)
    (fun _ => Ok (mkSessionSigsResult true (Some (lit "session-sigs"))))
    (fun _ => Ok 7)
    (Ok 1000000000)
    (fun _ _ _ =>
       Ok (lit "0xa9059cbb0000000000000000000000000000000000000000000000000000000000000002"))
    (fun _ _ _ nonce =>
       Ok (mkTx (lit "0x5FbDB2315678afecb367f032d93F642f64180aa3") 0
                (lit "0xa9059cbb") 0 0 0 nonce CHAIN_ID 2))
    (fun _ => Raise (External (lit "execution reverted")))
    (fun _ => Raise (External (lit "execution reverted")))
    (fun _ _ =>
       Ok (mkSignResult
             (Some (mkSignature
                      (lit "79be667ef9dcbbac55a06295ce870b07029bfcdb2dce28d959f2815b16f81798")
                      (lit "fffffffffffffffffffffffffffffffebaaedce6af48a03bbfd25e8cd0364140")
                      0))
             (lit "{...}")))
    (fun _ => Ok [1; 2; 3])
    (fun _ => Ok (repeat 171 32%nat))
    (fun _ => Ok (mkReceipt 0 1234567 21000 (lit "AttributeDict({...})")))
    (Ok tt)
    (Some (lit "0x59c6995e998f97a5a0044966f0945389dc9e86dae88c7a8412f4603b6b78690d"))
    (fun _ => Ok (lit "0x3C44CdDdB6a900fa2b585dd299e03d12FA4293BC"))
    (fun _ _ => Ok (JDict [(lit "schema_version", JStr (lit "1.0.0"))]))
    (fun _ => Ok (lit "0x90F79bf6EB2c4f870365E785982E1f101E93b906")).

(** The same environment with a server key that is not ASCII. *)
Definition non_ascii_key_world : World :=
  mkWorld
    (Some [99; 108; 233])
    (CONTRACT_ADDRESS sample_world) (PKP_ETH_ADDRESS sample_world)
    (DEPLOYER_PRIVATE_KEY sample_world) (utcnow sample_world)
    (time_time sample_world) (lit_connect sample_world)
    (get_session_sigs sample_world) (get_transaction_count sample_world)
    (get_block_baseFeePerGas sample_world) (encode_abi sample_world)
    (build_transaction sample_world) (estimate_gas sample_world)
    (getStateAnchor sample_world) (execute_js sample_world)
    (sign_transaction sample_world) (send_raw_transaction sample_world)
    (wait_for_transaction_receipt sample_world) (lit_disconnect sample_world)
    (AGENT_EXECUTOR_PRIVATE_KEY sample_world) (account_from_key sample_world)
    (export_state sample_world) (getAgentTBA sample_world).

(** What a trace holds of each kind of request. *)
Definition signing_requests (tr : list event) : list bytes :=
  flat_map (fun ev => match ev with EvExecuteJs h => [h] | _ => [] end) tr.

Definition local_signings (tr : list event) : list Tx :=
  flat_map (fun ev => match ev with EvSignTransaction tx => [tx] | _ => [] end) tr.

Definition broadcasts (tr : list event) : list bytes :=
  flat_map (fun ev => match ev with EvSendRawTransaction raw => [raw] | _ => [] end) tr.

Definition simulations (tr : list event) : list Tx :=
  flat_map (fun ev => match ev with EvEstimateGas tx => [tx] | _ => [] end) tr.

(** What a trace holds of the connections to the signing network. *)
Definition connections (tr : list event) : list unit :=
  flat_map (fun ev => match ev with EvLitConnect => [tt] | _ => [] end) tr.

(** A computation that makes no request of the kind that [f] selects. *)
Definition quiet {A X : Type} (f : event -> list X) (m : M A) : Prop :=
  forall rt, flat_map f (trace (snd (m rt))) = flat_map f (trace rt).

(** The environment [W] with another answer to the authorization request. *)
Definition with_get_session_sigs (W : World)
    (answer : Z -> outcome SessionSigsResult) : World :=
  mkWorld (env_MCP_API_KEY W)
    (CONTRACT_ADDRESS W) (PKP_ETH_ADDRESS W) (DEPLOYER_PRIVATE_KEY W) (utcnow W)
    (time_time W) (lit_connect W) answer (get_transaction_count W)
    (get_block_baseFeePerGas W) (encode_abi W) (build_transaction W)
    (estimate_gas W) (getStateAnchor W) (execute_js W) (sign_transaction W)
    (send_raw_transaction W) (wait_for_transaction_receipt W) (lit_disconnect W)
    (AGENT_EXECUTOR_PRIVATE_KEY W) (account_from_key W) (export_state W)
    (getAgentTBA W).

(** The environment [W] with another answer to the connection request. *)
Definition with_lit_connect (W : World) (answer : outcome unit) : World :=
  mkWorld (env_MCP_API_KEY W)
    (CONTRACT_ADDRESS W) (PKP_ETH_ADDRESS W) (DEPLOYER_PRIVATE_KEY W) (utcnow W)
    (time_time W) answer (get_session_sigs W) (get_transaction_count W)
    (get_block_baseFeePerGas W) (encode_abi W) (build_transaction W)
    (estimate_gas W) (getStateAnchor W) (execute_js W) (sign_transaction W)
    (send_raw_transaction W) (wait_for_transaction_receipt W) (lit_disconnect W)
    (AGENT_EXECUTOR_PRIVATE_KEY W) (account_from_key W) (export_state W)
    (getAgentTBA W).

(** The environment [W] without the key that authorizes the client. *)
Definition without_deployer_key (W : World) : World :=
  mkWorld (env_MCP_API_KEY W)
    (CONTRACT_ADDRESS W) (PKP_ETH_ADDRESS W) None (utcnow W)
    (time_time W) (lit_connect W) (get_session_sigs W) (get_transaction_count W)
    (get_block_baseFeePerGas W) (encode_abi W) (build_transaction W)
    (estimate_gas W) (getStateAnchor W) (execute_js W) (sign_transaction W)
    (send_raw_transaction W) (wait_for_transaction_receipt W) (lit_disconnect W)
    (AGENT_EXECUTOR_PRIVATE_KEY W) (account_from_key W) (export_state W)
    (getAgentTBA W).

(** The environment [W] with another answer to the disconnection request. *)
Definition with_lit_disconnect (W : World) (answer : outcome unit) : World :=
  mkWorld (env_MCP_API_KEY W)
    (CONTRACT_ADDRESS W) (PKP_ETH_ADDRESS W) (DEPLOYER_PRIVATE_KEY W) (utcnow W)
    (time_time W) (lit_connect W) (get_session_sigs W) (get_transaction_count W)
    (get_block_baseFeePerGas W) (encode_abi W) (build_transaction W)
    (estimate_gas W) (getStateAnchor W) (execute_js W) (sign_transaction W)
    (send_raw_transaction W) (wait_for_transaction_receipt W) answer
    (AGENT_EXECUTOR_PRIVATE_KEY W) (account_from_key W) (export_state W)
    (getAgentTBA W).

(** The environment [W] with another answer of the contract's getStateAnchor. *)
Definition with_getStateAnchor (W : World)
    (answer : Z -> outcome (bytes * pystr * Z)) : World :=
  mkWorld (env_MCP_API_KEY W)
    (CONTRACT_ADDRESS W) (PKP_ETH_ADDRESS W) (DEPLOYER_PRIVATE_KEY W) (utcnow W)
    (time_time W) (lit_connect W) (get_session_sigs W) (get_transaction_count W)
    (get_block_baseFeePerGas W) (encode_abi W) (build_transaction W)
    (estimate_gas W) answer (execute_js W) (sign_transaction W)
    (send_raw_transaction W) (wait_for_transaction_receipt W) (lit_disconnect W)
    (AGENT_EXECUTOR_PRIVATE_KEY W) (account_from_key W) (export_state W)
    (getAgentTBA W).

(** The white space of a text, as [bytes.fromhex] sees it. *)
Definition white_space (s : pystr) : pystr := filter is_ascii_space s.

(** What one call of a signing tool may add to the trace, from [rt] to
    [rt']: nothing that signs or broadcasts; or one signing request, for the
    digest of a transaction; or that request followed by one broadcast, of
    that same transaction serialized with the signature that the request
    returned. *)
Definition signature_precedes_broadcast (W : World) (rt rt' : Runtime) : Prop :=
  (signing_requests (trace rt') = signing_requests (trace rt) /\
   broadcasts (trace rt') = broadcasts (trace rt)) \/
  exists tx h,
    compute_tx_hash tx = Some h /\
    signing_requests (trace rt') = signing_requests (trace rt) ++ [h] /\
    (broadcasts (trace rt') = broadcasts (trace rt) \/
     exists sg sr sig raw,
       execute_js W h sg = Ok sr /\ anchorStateSig sr = Some sig /\
       serialize_signed_tx tx sig = Some raw /\
       broadcasts (trace rt') = broadcasts (trace rt) ++ [raw]).

(** The two hexadecimal digits of every octet, most significant first. *)
Definition nibbles (b : bytes) : list Z :=
  flat_map (fun x => [Z.shiftr x 4; Z.land x 15]) b.

Definition is_nibble (d : Z) : Prop := 0 <= d < 16.

(* ================================================================== *)
(** ** The read-only tool ([verify_state_anchor]) *)

Inductive anchor_report : Type :=
| AnchorReport (token_id : Z) (state_hash state_uri : pystr) (timestamp : Z)
               (timestamp_human : option pystr)
| AnchorError (e : exn).     (* {"error": str(e)} *)

(** The tool verify_state_anchor. *)
Definition verify_state_anchor (W : World) (tok : Z) : M anchor_report :=
  try_except
    (result <- request (EvGetStateAnchor tok) (getStateAnchor W tok) ;;
     let state_hash := lit "0x" ++ hex_of_bytes (fst (fst result)) in
     let timestamp := snd result in
     timestamp_human <-
       (if 0 <? timestamp
        then iso <- lift (of_option OutOfRangeTime (utc_isoformat timestamp)) ;;
             ret (Some (iso ++ lit "Z"))
        else ret None) ;;
     ret (AnchorReport tok state_hash (snd (fst result)) timestamp timestamp_human))
    (fun e => ret (AnchorError e)).

(** The environment [W] with another answer of the contract's getAgentTBA
    and another receipt. *)
Definition with_receipt_and_tba (W : World) (receipt : bytes -> outcome Receipt)
    (tba : Z -> outcome pystr) : World :=
  mkWorld (env_MCP_API_KEY W)
    (CONTRACT_ADDRESS W) (PKP_ETH_ADDRESS W) (DEPLOYER_PRIVATE_KEY W) (utcnow W)
    (time_time W) (lit_connect W) (get_session_sigs W) (get_transaction_count W)
    (get_block_baseFeePerGas W) (encode_abi W) (build_transaction W)
    (fun _ => Ok 90000) (getStateAnchor W) (execute_js W) (sign_transaction W)
    (send_raw_transaction W) receipt (lit_disconnect W)
    (AGENT_EXECUTOR_PRIVATE_KEY W) (account_from_key W) (export_state W)
    tba.

(** The environment [W] without the agent's contract address. *)
Definition without_contract_address (W : World) : World :=
  mkWorld (env_MCP_API_KEY W)
    None (PKP_ETH_ADDRESS W) (DEPLOYER_PRIVATE_KEY W) (utcnow W)
    (time_time W) (lit_connect W) (get_session_sigs W) (get_transaction_count W)
    (get_block_baseFeePerGas W) (encode_abi W) (build_transaction W)
    (estimate_gas W) (getStateAnchor W) (execute_js W) (sign_transaction W)
    (send_raw_transaction W) (wait_for_transaction_receipt W) (lit_disconnect W)
    (AGENT_EXECUTOR_PRIVATE_KEY W) (account_from_key W) (export_state W)
    (getAgentTBA W).

(** An environment variable that is unset or empty ([not os.getenv(...)]). *)
Definition unset (v : option pystr) : Prop := v = None \/ v = Some [].

(** What one call of the agent-side tool may add to the trace, from [rt] to
    [rt']: no broadcast; or one transaction signed with the local key, with
    the priority fee of the tool, and the broadcast of what the signer
    returned for it. *)
Definition signs_locally_then_broadcasts (W : World) (rt rt' : Runtime) : Prop :=
  broadcasts (trace rt') = broadcasts (trace rt) \/
  exists tx signed,
    sign_transaction W tx = Ok signed /\
    tx_maxPriorityFeePerGas tx = 1000000 /\
    local_signings (trace rt') = local_signings (trace rt) ++ [tx] /\
    broadcasts (trace rt') = broadcasts (trace rt) ++ [signed].

(* ================================================================== *)
(** ** The agent's wallet ([letta/wallet_tool.py]) *)

Module Wallet.

(** What [w3.eth.estimate_gas] is given. *)
Record CallRequest : Type := mkCallRequest {
  call_to : option pystr;
  call_from : pystr;
  call_value : Z;
  call_data : bytes
}.

(** The dictionary [tx] of [sign_transaction]. *)
Record LegacyTx : Type := mkLegacyTx {
  nonce : Z;
  to : option pystr;
  value : Z;
  gas : Z;
  gasPrice : Z;
  chainId : Z;
  data : bytes
}.

Record TxReceipt : Type := mkTxReceipt {
  transactionHash : bytes;
  receipt_blockNumber : Z;
  receipt_gasUsed : Z;
  receipt_status : Z
}.

(** What [contract.encodeABI] returns: text in some versions of the
    library, octets in others; the wallet handles both. *)
Inductive abi_data : Type :=
| AbiText (s : pystr)
| AbiBytes (b : bytes).

(** The requests that the wallet makes. *)
Inductive event : Type :=
| GetTransactionCount (address : pystr)
| EstimateGas (call : CallRequest)
| GasPrice
| SignTransaction (tx : LegacyTx)
| SendRawTransaction (raw : bytes)
| WaitForReceipt (tx_hash : bytes)
| EncodeAnchorState (contract : option pystr) (tok : option Z)
                    (state_hash : bytes) (state_uri : pystr)
| EncodeLivenessProof (contract : option pystr) (tok : option Z)
                      (attestation : bytes)
| GetAgentTBA (contract : pystr) (tok : Z)
| IsSelfOwning (contract : pystr) (tok : Z)
| BlockNumber
| SignMessage (account : pystr) (message : pystr).

(** The answers of the chain, of the contract and of the account. *)
Record Chain : Type := mkChain {
  account_from_key : pystr -> outcome pystr;
  eth_get_transaction_count : pystr -> outcome Z;
  eth_estimate_gas : CallRequest -> outcome Z;
  eth_gas_price : outcome Z;
  account_sign_transaction : pystr -> LegacyTx -> outcome bytes;
  eth_send_raw_transaction : bytes -> outcome bytes;
  eth_wait_for_transaction_receipt : bytes -> outcome TxReceipt;
  encodeABI_anchorState :
    option pystr -> option Z -> bytes -> pystr -> outcome abi_data;
  encodeABI_submitLivenessProof :
    option pystr -> option Z -> bytes -> outcome abi_data;
  getAgentTBA : pystr -> Z -> outcome pystr;
  isSelfOwning : pystr -> Z -> outcome bool;
  eth_block_number : outcome Z;
  account_sign_message : pystr -> pystr -> outcome bytes
}.

(** The fields of [SelfSovereignWallet]; the account stands for its
    address, which is also [executor_address]. *)
Record SelfSovereignWallet : Type := mkWallet {
  account : option pystr;
  chain_id : Z;
  contract_address : option pystr;
  token_id : option Z
}.

(** Computations of the wallet: exceptions and the trace of requests. *)
Definition WM (A : Type) : Type := list event -> outcome A * list event.

Definition ret {A : Type} (a : A) : WM A := fun tr => (Ok a, tr).
Definition raise {A : Type} (e : exn) : WM A := fun tr => (Raise e, tr).
Definition bind {A B : Type} (m : WM A) (k : A -> WM B) : WM B :=
  fun tr =>
    match m tr with
    | (Ok a, tr') => k a tr'
    | (Raise e, tr') => (Raise e, tr')
    end.
Definition try_except {A : Type} (m : WM A) (handler : exn -> WM A) : WM A :=
  fun tr =>
    match m tr with
    | (Ok a, tr') => (Ok a, tr')
    | (Raise e, tr') => handler e tr'
    end.
Definition lift {A : Type} (o : outcome A) : WM A := fun tr => (o, tr).
Definition request {A : Type} (ev : event) (answer : outcome A) : WM A :=
  fun tr => (answer, tr ++ [ev]).

Declare Scope wallet_scope.
Delimit Scope wallet_scope with wallet.
Notation "x <- m ;; k" := (bind m (fun x => k))
  (at level 61, m at next level, right associativity) : wallet_scope.
Local Open Scope wallet_scope.

(** ValueError("No private key available") *)
Definition NoPrivateKey : exn := External (lit "No private key available").
(** ValueError("Contract address and token ID must be set") *)
Definition NotConfigured : exn :=
  External (lit "Contract address and token ID must be set").
(** AttributeError: [self.account] is None. *)
Definition NoAccount : exn :=
  External (lit "'NoneType' object has no attribute 'sign_message'").

Section Methods.

Variable C : Chain.

(** SelfSovereignWallet.__init__: the key given, or AGENT_PRIVATE_KEY of
    the environment; an empty key is no key. *)
Definition new_wallet (env_AGENT_PRIVATE_KEY private_key : option pystr)
    (chain : Z) (contract : option pystr) (tok : option Z)
  : outcome SelfSovereignWallet :=
  let private_key :=
    match private_key with
    | None => env_AGENT_PRIVATE_KEY
    | Some k => Some k
    end in
  match private_key with
  | Some ((_ :: _) as k) =>
      match account_from_key C k with
      | Ok a => Ok (mkWallet (Some a) chain contract tok)
      | Raise e => Raise e
      end
  | _ => Ok (mkWallet None chain contract tok)
  end.

Variable w : SelfSovereignWallet.

(** SelfSovereignWallet._get_tba_address *)
Definition _get_tba_address : WM pystr :=
  match contract_address w, token_id w with
  | Some contract, Some tok =>
      request (GetAgentTBA contract tok) (getAgentTBA C contract tok)
  | _, _ => raise NotConfigured
  end.

(** SelfSovereignWallet.is_self_owning *)
Definition is_self_owning : WM bool :=
  match contract_address w, token_id w with
  | Some contract, Some tok =>
      request (IsSelfOwning contract tok) (isSelfOwning C contract tok)
  | _, _ => raise NotConfigured
  end.

Inductive tx_status : Type := success | failed.

(** The dictionary that [sign_transaction] returns. *)
Record TxResult : Type := mkTxResult {
  tx_hash : bytes;
  block_number : Z;
  gas_used : Z;
  status : tx_status
}.

(** SelfSovereignWallet.sign_transaction *)
Definition sign_transaction (to : option pystr) (value : Z) (data : bytes)
    (gas_limit : option Z) : WM TxResult :=
  match account w with
  | None => raise NoPrivateKey
  | Some executor_address =>
      nonce <- request (GetTransactionCount executor_address)
                       (eth_get_transaction_count C executor_address) ;;
      gas_limit <-
        match gas_limit with
        | None =>
            let call := mkCallRequest to executor_address value data in
            request (EstimateGas call) (eth_estimate_gas C call)
        | Some g => ret g
        end ;;
      gas_price <- request GasPrice (eth_gas_price C) ;;
      let tx := mkLegacyTx nonce to value gas_limit gas_price (chain_id w) data in
      signed_tx <- request (SignTransaction tx)
                           (account_sign_transaction C executor_address tx) ;;
      sent <- request (SendRawTransaction signed_tx)
                      (eth_send_raw_transaction C signed_tx) ;;
      receipt <- request (WaitForReceipt sent)
                         (eth_wait_for_transaction_receipt C sent) ;;
      ret (mkTxResult (transactionHash receipt) (receipt_blockNumber receipt)
                      (receipt_gasUsed receipt)
                      (if receipt_status receipt =? 1 then success else failed))
  end.

(** [data.encode() if isinstance(data, str) else data] *)
Definition call_data_octets (d : abi_data) : outcome bytes :=
  match d with
  | AbiText s => of_option EncodingError (utf8_encode s)
  | AbiBytes b => Ok b
  end.

(** SelfSovereignWallet.anchor_state *)
Definition anchor_state (state_data : json) (state_uri : pystr) : WM TxResult :=
  state_hash <- lift (of_option EncodingError (wallet_anchor_state_hash state_data)) ;;
  d <- request (EncodeAnchorState (contract_address w) (token_id w) state_hash state_uri)
               (encodeABI_anchorState C (contract_address w) (token_id w)
                                      state_hash state_uri) ;;
  octets <- lift (call_data_octets d) ;;
  sign_transaction (contract_address w) 0 octets None.

(** [str(self.token_id)] inside the f-string. *)
Definition token_text (tok : option Z) : pystr :=
  match tok with
  | None => lit "None"
  | Some n => int_repr n
  end.

(** SelfSovereignWallet.submit_liveness_proof *)
Definition submit_liveness_proof (attestation : option bytes) : WM TxResult :=
  attestation <-
    match attestation with
    | Some a => ret a
    | None =>
        block <- request BlockNumber (eth_block_number C) ;;
        let message :=
          lit "liveness:" ++ token_text (token_id w) ++ lit ":" ++ int_repr block in
        match account w with
        | None => raise NoAccount
        | Some a =>
            signature <- request (SignMessage a message)
                                 (account_sign_message C a message) ;;
            ret (firstn 32 signature)
        end
    end ;;
  d <- request (EncodeLivenessProof (contract_address w) (token_id w) attestation)
               (encodeABI_submitLivenessProof C (contract_address w) (token_id w)
                                              attestation) ;;
  octets <- lift (call_data_octets d) ;;
  sign_transaction (contract_address w) 0 octets None.

(** The texts of the tool functions. *)
Inductive ownership_text : Type :=
| SelfSovereign            (* "I am self-sovereign. ..." *)
| NotYetSelfSovereign      (* "I am not yet self-sovereign. ..." *)
| OwnershipError (e : exn).  (* "Error checking ownership: ..." *)

Inductive heartbeat_text : Type :=
| LivenessProofSubmitted (tx_hash : bytes)  (* "Liveness proof submitted. Hash: ..." *)
| LivenessProofFailed (e : exn).  (* "Failed to submit liveness proof: ..." *)

(** The tool check_self_ownership. *)
Definition check_self_ownership : WM ownership_text :=
  try_except
    (is_sovereign <- is_self_owning ;;
     if is_sovereign : bool then ret SelfSovereign else ret NotYetSelfSovereign)
    (fun e => ret (OwnershipError e)).

(** The tool heartbeat. *)
Definition heartbeat : WM heartbeat_text :=
  try_except
    (result <- submit_liveness_proof None ;;
     ret (LivenessProofSubmitted (tx_hash result)))
    (fun e => ret (LivenessProofFailed e)).

End Methods.

(** What a trace holds of each kind of request. *)
Definition signings (tr : list event) : list LegacyTx :=
  flat_map (fun ev => match ev with SignTransaction tx => [tx] | _ => [] end) tr.

Definition broadcasts (tr : list event) : list bytes :=
  flat_map (fun ev => match ev with SendRawTransaction raw => [raw] | _ => [] end) tr.

Definition simulations (tr : list event) : list CallRequest :=
  flat_map (fun ev => match ev with EstimateGas c => [c] | _ => [] end) tr.

(** A chain on which every transaction is mined and reverted. *)
Definition sample_chain : Chain :=
  mkChain
    (fun _ => Ok (lit "0x3C44CdDdB6a900fa2b585dd299e03d12FA4293BC"))
    (fun _ => Ok 5)
    (fun _ => Ok 60000)
    (Ok 1000000000)
    (fun _ _ => Ok [248; 1; 2])
    (fun _ => Ok (repeat 171 32%nat))
    (fun h => Ok (mkTxReceipt h 1234567 60000 0))
    (fun _ _ _ _ => Ok (AbiText (lit "0x2f2ff15d00ab")))
    (fun _ _ _ => Ok (AbiBytes [47; 47; 241; 93]))
    (fun _ _ => Ok (lit "0x90F79bf6EB2c4f870365E785982E1f101E93b906"))
    (fun _ _ => Ok false)
    (Ok 1234567)
    (fun _ _ => Ok (repeat 7 65%nat)).

Definition sample_wallet : SelfSovereignWallet :=
  mkWallet (Some (lit "0x3C44CdDdB6a900fa2b585dd299e03d12FA4293BC")) 84532
           (Some (lit "0x5FbDB2315678afecb367f032d93F642f64180aa3")) (Some 0).


End Wallet.

(** The environment [W] with another server key, or none. *)
Definition with_server_key (W : World) (key : option pystr) : World :=
  mkWorld key
    (CONTRACT_ADDRESS W) (PKP_ETH_ADDRESS W) (DEPLOYER_PRIVATE_KEY W) (utcnow W)
    (time_time W) (lit_connect W) (get_session_sigs W) (get_transaction_count W)
    (get_block_baseFeePerGas W) (encode_abi W) (build_transaction W)
    (estimate_gas W) (getStateAnchor W) (execute_js W) (sign_transaction W)
    (send_raw_transaction W) (wait_for_transaction_receipt W) (lit_disconnect W)
    (AGENT_EXECUTOR_PRIVATE_KEY W) (account_from_key W) (export_state W)
    (getAgentTBA W).

(* ================================================================== *)
(** ** The end-to-end script ([scripts/lit/ouroboros_test.py], [main]) *)

Module Ouroboros.

(** The requests of the script: the balance read, and those that the server
    makes too. *)
Inductive step : Type :=
| GetBalance (address : pystr)
| Logged (ev : event).

Definition OM (A : Type) : Type := list step -> outcome A * list step.

Definition ret {A : Type} (a : A) : OM A := fun tr => (Ok a, tr).
Definition raise {A : Type} (e : exn) : OM A := fun tr => (Raise e, tr).
Definition bind {A B : Type} (m : OM A) (k : A -> OM B) : OM B :=
  fun tr =>
    match m tr with
    | (Ok a, tr') => k a tr'
    | (Raise e, tr') => (Raise e, tr')
    end.
Definition try_except {A : Type} (m : OM A) (handler : exn -> OM A) : OM A :=
  fun tr =>
    match m tr with
    | (Ok a, tr') => (Ok a, tr')
    | (Raise e, tr') => handler e tr'
    end.
(** [try: ... finally: final]: [final] runs on every path, and its own
    exception replaces the outcome. *)
Definition try_finally {A : Type} (m : OM A) (final : OM unit) : OM A :=
  fun tr =>
    let '(r, tr') := m tr in
    match final tr' with
    | (Ok _, tr'') => (r, tr'')
    | (Raise e, tr'') => (Raise e, tr'')
    end.
Definition lift {A : Type} (o : outcome A) : OM A := fun tr => (o, tr).
Definition request {A : Type} (ev : event) (answer : outcome A) : OM A :=
  fun tr => (answer, tr ++ [Logged ev]).

Declare Scope ouroboros_scope.
Delimit Scope ouroboros_scope with ouroboros.
Notation "x <- m ;; k" := (bind m (fun x => k))
  (at level 61, m at next level, right associativity) : ouroboros_scope.
Notation "m ;;; k" := (bind m (fun _ => k))
  (at level 61, right associativity) : ouroboros_scope.
Local Open Scope ouroboros_scope.

Definition TOKEN_ID : Z := 2.

(** The test document of [main]. *)
Definition cognitive_state (timestamp : Z) : json :=
  JDict [
    (lit "agent_id", JStr (lit "kieran"));
    (lit "timestamp", JInt timestamp);
    (lit "memory_blocks",
       JList [JStr (lit "persona"); JStr (lit "human"); JStr (lit "project")]);
    (lit "archival_count", JInt 18);
    (lit "test", JStr (lit "Ouroboros PKP signing test")) ].

(** What [main] prints last. *)
Inductive report : Type :=
| SessionSigsRefused      (* "Failed to get session sigs" *)
| SigningRefused          (* "Signing failed" *)
| OuroborosComplete       (* "OUROBOROS COMPLETE!" *)
| HashMismatch            (* "Hash mismatch - something went wrong" *)
| TransactionFailed       (* "Transaction failed!" *)
| BroadcastFailed (e : exn).  (* "Broadcast failed: ..." *)

Section Main.

Variable W : World.
Variable get_balance : pystr -> outcome Z.

(** The script's copy of build_anchor_transaction. *)
Definition build_anchor_transaction (tok : Z) (state_hash : bytes)
    (state_uri : pystr) : OM Tx :=
  match PKP_ETH_ADDRESS W with
  | None => raise MissingConfiguration
  | Some pkp =>
      nonce <- request (EvGetTransactionCount pkp) (get_transaction_count W pkp) ;;
      base_fee <- request EvGetBlock (get_block_baseFeePerGas W) ;;
      let max_priority_fee := 1000000000 in
      let max_fee := base_fee * 2 + max_priority_fee in
      tx_data <- request (EvEncodeAbi tok state_hash state_uri)
                         (encode_abi W tok state_hash state_uri) ;;
      match CONTRACT_ADDRESS W with
      | None => raise MissingConfiguration
      | Some contract_address =>
          ret (mkTx contract_address 0 tx_data 200000 max_fee max_priority_fee
                    nonce CHAIN_ID 2)
      end
  end.

Definition main : OM report :=
  match PKP_ETH_ADDRESS W with
  | None => raise MissingConfiguration
  | Some pkp =>
      _ <- (fun tr => (get_balance pkp, tr ++ [GetBalance pkp])) ;;
      let timestamp := time_time W in
      state_hash <-
        lift (of_option EncodingError
                (ouroboros_state_hash (cognitive_state timestamp))) ;;
      let state_uri := lit "ipfs://ouroboros-test-" ++ int_repr timestamp in
      tx <- build_anchor_transaction TOKEN_ID state_hash state_uri ;;
      tx_hash <- lift (of_option EncodingError (compute_tx_hash tx)) ;;
      request EvLitConnect (lit_connect W) ;;;
      match DEPLOYER_PRIVATE_KEY W with
      | None => raise MissingConfiguration
      | Some _ => ret tt
      end ;;;
      expiration <- lift (requested_expiration (utcnow W)) ;;
      result <- request (EvGetSessionSigs expiration)
                        (get_session_sigs W expiration) ;;
      if negb (success result) then ret SessionSigsRefused
      else
        sign_result <- request (EvExecuteJs tx_hash)
                               (execute_js W tx_hash (sessionSigs result)) ;;
        match anchorStateSig sign_result with
        | None =>
            request EvLitDisconnect (lit_disconnect W) ;;;
            ret SigningRefused
        | Some signature =>
            signed_tx_bytes <-
              lift (of_option EncodingError (serialize_signed_tx tx signature)) ;;
            try_finally
              (try_except
                 (tx_hash_sent <- request (EvSendRawTransaction signed_tx_bytes)
                                          (send_raw_transaction W signed_tx_bytes) ;;
                  receipt <- request (EvWaitForReceipt tx_hash_sent)
                                     (wait_for_transaction_receipt W tx_hash_sent) ;;
                  if status receipt =? 1 then
                    anchor <- request (EvGetStateAnchor TOKEN_ID)
                                      (getStateAnchor W TOKEN_ID) ;;
                    if str_eqb (hex_of_bytes (fst (fst anchor)))
                               (hex_of_bytes state_hash)
                    then ret OuroborosComplete
                    else ret HashMismatch
                  else ret TransactionFailed)
                 (fun e => ret (BroadcastFailed e)))
              (request EvLitDisconnect (lit_disconnect W))
        end
  end.

End Main.

(** What a trace holds of each kind of request. *)
Definition connections (tr : list step) : list unit :=
  flat_map (fun s => match s with Logged EvLitConnect => [tt] | _ => [] end) tr.

Definition disconnections (tr : list step) : list unit :=
  flat_map (fun s => match s with Logged EvLitDisconnect => [tt] | _ => [] end) tr.

Definition signing_requests (tr : list step) : list bytes :=
  flat_map (fun s => match s with Logged (EvExecuteJs h) => [h] | _ => [] end) tr.

Definition broadcasts (tr : list step) : list bytes :=
  flat_map (fun s => match s with Logged (EvSendRawTransaction raw) => [raw] | _ => [] end)
           tr.

End Ouroboros.

(** An int that [str] and the f-strings format: Python refuses to convert
    an int of more than 4300 decimal digits
    ([sys.get_int_max_str_digits()]).  The tools format [token_id] for their
    first log line, after authentication and before their [try]. *)
Definition formattable_int (n : Z) : Prop := Z.abs n < 10 ^ 4300.

(* ------------------------------------------------------------------ *)
(* Properties                                                          *)
(* ------------------------------------------------------------------ *)

Example keccak256_empty :
  hex_of_bytes (keccak256 []) =
  lit "c5d2460186f7233c927e7db2dcc703c0e500b653ca82273b7bfad8045d85a470".
Proof. vm_compute. reflexivity. Qed.

Example keccak256_abc :
  hex_of_bytes (keccak256 (lit "abc")) =
  lit "4e03657aea45a94fc7d47ba826c8d667c0d1e6e33a64a036ec44f58fa12d6c45".
Proof. vm_compute. reflexivity. Qed.

Example sha256_abc :
  hex_of_bytes (sha256 (lit "abc")) =
  lit "ba7816bf8f01cfea414140de5dae2223b00361a396177a9cb410ff61f20015ad".
Proof. vm_compute. reflexivity. Qed.

Example sha256_empty :
  hex_of_bytes (sha256 []) =
  lit "e3b0c44298fc1c149afbf4c8996fb92427ae41e4649b934ca495991b7852b855".
Proof. vm_compute. reflexivity. Qed.

Example dumps_compact_example :
  dumps_compact (JDict [(lit "b", JList [JInt 1; JInt 2]); (lit "a", JInt 1)]) =
  litq "{'a':1,'b':[1,2]}".
Proof. vm_compute. reflexivity. Qed.
(* ================================================================== *)
(** ** The order on keys *)

Lemma str_leb_refl a : str_leb a a = true.
Proof.
  induction a as [|x a IH]; simpl; auto.
  rewrite Z.ltb_irrefl. exact IH.
Qed.

Lemma str_leb_total a b : str_leb a b = false -> str_leb b a = true.
Proof.
  revert b; induction a as [|x a IH]; intros [|y b]; simpl; try discriminate; auto.
  destruct (x <? y) eqn:E1; [discriminate|].
  destruct (y <? x) eqn:E2; auto.
Qed.

Lemma str_leb_antisym a b : str_leb a b = true -> str_leb b a = true -> a = b.
Proof.
  revert b; induction a as [|x a IH]; intros [|y b]; simpl; try discriminate; auto.
  destruct (x <? y) eqn:E1; destruct (y <? x) eqn:E2; try discriminate;
    try (apply Z.ltb_lt in E1); try (apply Z.ltb_lt in E2); try lia.
  intros H1 H2. apply Z.ltb_ge in E1, E2.
  assert (x = y) by lia. subst. f_equal. auto.
Qed.

Lemma str_leb_trans a b c :
  str_leb a b = true -> str_leb b c = true -> str_leb a c = true.
Proof.
  revert b c; induction a as [|x a IH]; intros [|y b] [|z c]; simpl;
    try discriminate; auto.
  destruct (x <? y) eqn:E1; destruct (y <? x) eqn:E2;
  destruct (y <? z) eqn:E3; destruct (z <? y) eqn:E4;
  destruct (x <? z) eqn:E5; destruct (z <? x) eqn:E6;
    try discriminate; auto;
    repeat match goal with
           | H : (_ <? _) = true |- _ => apply Z.ltb_lt in H
           | H : (_ <? _) = false |- _ => apply Z.ltb_ge in H
           end; try lia.
  apply IH.
Qed.

Lemma str_eqb_eq a b : str_eqb a b = true <-> a = b.
Proof.
  revert b; induction a as [|x a IH]; intros [|y b]; simpl; split;
    try discriminate; auto.
  - intros H. apply andb_true_iff in H as [H1 H2].
    apply Z.eqb_eq in H1. apply IH in H2. congruence.
  - intros H. injection H as -> ->. rewrite Z.eqb_refl. apply IH. reflexivity.
Qed.

Lemma keys_nodupb_NoDup ks : keys_nodupb ks = true -> NoDup ks.
Proof.
  induction ks as [|k ks IH]; simpl; intros H; constructor.
  - apply andb_true_iff in H as [H _]. apply negb_true_iff in H.
    intros Hin. assert (existsb (str_eqb k) ks = true); [|congruence].
    apply existsb_exists. exists k. split; auto. apply str_eqb_eq. reflexivity.
  - apply andb_true_iff in H as [_ H]. auto.
Qed.

(* ================================================================== *)
(** ** Sorting the items of a mapping *)

Section SortItems.

Context {V : Type}.
Implicit Types (kv : pystr * V) (l : list (pystr * V)).

Lemma insert_item_comm kv1 kv2 l :
  fst kv1 <> fst kv2 ->
  insert_item kv1 (insert_item kv2 l) = insert_item kv2 (insert_item kv1 l).
Proof.
  intros Hne.
  assert (Hx : str_leb (fst kv1) (fst kv2) = true ->
               str_leb (fst kv2) (fst kv1) = true -> False).
  { intros H1 H2. apply Hne. apply str_leb_antisym; assumption. }
  induction l as [|kv l IH]; simpl.
  - destruct (str_leb (fst kv1) (fst kv2)) eqn:E1;
    destruct (str_leb (fst kv2) (fst kv1)) eqn:E2; auto;
      try (exfalso; auto; fail).
    apply str_leb_total in E1. congruence.
  - destruct (str_leb (fst kv2) (fst kv)) eqn:E2;
    destruct (str_leb (fst kv1) (fst kv)) eqn:E1; simpl;
      rewrite ?E1, ?E2;
      destruct (str_leb (fst kv1) (fst kv2)) eqn:E12;
      destruct (str_leb (fst kv2) (fst kv1)) eqn:E21;
      try reflexivity; try (exfalso; auto; fail);
      try (apply str_leb_total in E12; congruence);
      try (rewrite (str_leb_trans _ _ _ E12 E2) in E1; discriminate);
      try (rewrite (str_leb_trans _ _ _ E21 E1) in E2; discriminate).
    f_equal. apply IH.
Qed.

Lemma sort_items_perm l l' :
  Permutation l l' -> NoDup (map fst l) -> sort_items l = sort_items l'.
Proof.
  induction 1 as [|x l l' HP IH|x y l|l l' l'' HP1 IH1 HP2 IH2]; intros Hnd; simpl.
  - reflexivity.
  - inversion Hnd; subst. rewrite IH; auto.
  - apply insert_item_comm. simpl in Hnd.
    inversion Hnd as [|? ? Hy _]; subst. intros E. apply Hy. left. auto.
  - rewrite IH1 by assumption. apply IH2.
    eapply Permutation_NoDup; [|exact Hnd]. apply Permutation_map. assumption.
Qed.

Lemma insert_item_Forall (Q : pystr * V -> Prop) kv l :
  Q kv -> Forall Q l -> Forall Q (insert_item kv l).
Proof.
  intros Hq; induction 1 as [|x l Hx Hl IH]; simpl.
  - constructor; auto.
  - destruct (str_leb (fst kv) (fst x)); repeat constructor; auto.
Qed.

Lemma sort_items_Forall (Q : pystr * V -> Prop) l :
  Forall Q l -> Forall Q (sort_items l).
Proof.
  induction 1; simpl; [constructor|]. apply insert_item_Forall; auto.
Qed.

End SortItems.

(* ================================================================== *)
(** ** The serialization is plain ASCII *)

Definition ascii_text (s : pystr) : Prop := Forall (fun c => 0 <= c < 128) s.

Lemma ascii_text_app s t : ascii_text s -> ascii_text t -> ascii_text (s ++ t).
Proof. unfold ascii_text. intros. apply Forall_app. split; assumption. Qed.

Lemma utf8_encode_ascii s : ascii_text s -> utf8_encode s = Some s.
Proof.
  induction 1 as [|c s Hc Hs IH]; simpl; [reflexivity|].
  rewrite IH. unfold utf8_char.
  destruct (c <? 0) eqn:E0; [apply Z.ltb_lt in E0; lia|].
  destruct (c <? 128) eqn:E1; [reflexivity|apply Z.ltb_ge in E1; lia].
Qed.

Lemma land_15 x : Z.land x 15 = x mod 16.
Proof. change 15 with (Z.ones 4). rewrite Z.land_ones by lia. reflexivity. Qed.

Lemma hex_digit_range d : 0 <= d < 16 -> 48 <= hex_digit d <= 102.
Proof. intros H. unfold hex_digit. destruct (d <? 10) eqn:E; lia. Qed.

Lemma hex_digit_land_ascii x : 0 <= hex_digit (Z.land x 15) < 128.
Proof.
  rewrite land_15.
  pose proof (Z.mod_pos_bound x 16 ltac:(lia)).
  pose proof (hex_digit_range (x mod 16) ltac:(lia)). lia.
Qed.

Lemma backslash_u_ascii n : ascii_text (backslash_u n).
Proof.
  unfold backslash_u, hex4, ascii_text. simpl.
  repeat constructor; try lia; apply hex_digit_land_ascii.
Qed.

Lemma escape_char_ascii c : ascii_text (escape_char c).
Proof.
  unfold escape_char.
  repeat match goal with
         | |- context [if ?b then _ else _] => destruct b eqn:?
         end;
    try (repeat constructor; lia);
    try apply backslash_u_ascii;
    try (apply ascii_text_app; apply backslash_u_ascii).
Qed.

Lemma encode_basestring_ascii_ascii s : ascii_text (encode_basestring_ascii s).
Proof.
  unfold encode_basestring_ascii.
  apply ascii_text_app; [repeat constructor; lia|].
  apply ascii_text_app; [|repeat constructor; lia].
  induction s as [|c s IH]; simpl; [constructor|].
  apply ascii_text_app; [apply escape_char_ascii|exact IH].
Qed.

Lemma dec_digits_ascii fuel n acc :
  ascii_text acc -> ascii_text (dec_digits fuel n acc).
Proof.
  revert n acc; induction fuel as [|f IH]; intros n acc Hacc; simpl; auto.
  assert (ascii_text (48 + n mod 10 :: acc)).
  { constructor; auto. pose proof (Z.mod_pos_bound n 10 ltac:(lia)). lia. }
  destruct (n <? 10); auto.
Qed.

Lemma int_repr_ascii n : ascii_text (int_repr n).
Proof.
  unfold int_repr, repr_nonneg.
  destruct (n <? 0); [constructor; [lia|]|]; apply dec_digits_ascii; constructor.
Qed.

Lemma join_ascii sep parts :
  ascii_text sep -> Forall ascii_text parts -> ascii_text (join sep parts).
Proof.
  intros Hsep; induction 1 as [|p parts Hp Hparts IH]; simpl; [constructor|].
  destruct parts as [|q parts]; auto.
  apply ascii_text_app; auto. apply ascii_text_app; auto.
Qed.

(** Induction on documents, through the lists and mappings they nest. *)
Section JsonInduction.

Variable P : json -> Prop.
Hypothesis Hnull : P JNull.
Hypothesis Hbool : forall b, P (JBool b).
Hypothesis Hint : forall n, P (JInt n).
Hypothesis Hstr : forall s, P (JStr s).
Hypothesis Hlist : forall l, Forall P l -> P (JList l).
Hypothesis Hdict : forall d, Forall (fun kv => P (snd kv)) d -> P (JDict d).

Fixpoint json_nested_ind (j : json) : P j :=
  match j with
  | JNull => Hnull
  | JBool b => Hbool b
  | JInt n => Hint n
  | JStr s => Hstr s
  | JList l =>
      Hlist l
        ((fix go (l : list json) : Forall P l :=
            match l with
            | [] => Forall_nil _
            | x :: l' => Forall_cons x (json_nested_ind x) (go l')
            end) l)
  | JDict d =>
      Hdict d
        ((fix go (d : list (pystr * json)) : Forall (fun kv => P (snd kv)) d :=
            match d with
            | [] => Forall_nil _
            | kv :: d' =>
                Forall_cons (P := fun kv => P (snd kv)) kv
                            (json_nested_ind (snd kv)) (go d')
            end) d)
  end.

End JsonInduction.

Lemma dumps_list_eq isep ksep l :
  dumps isep ksep (JList l) =
  [91] ++ join isep (map (dumps isep ksep) l) ++ [93].
Proof. reflexivity. Qed.

Lemma dumps_dict_eq isep ksep d :
  dumps isep ksep (JDict d) =
  [123] ++
  join isep
    (map (fun kv => encode_basestring_ascii (fst kv) ++ ksep ++ snd kv)
         (sort_items (map (fun kv => (fst kv, dumps isep ksep (snd kv))) d))) ++
  [125].
Proof. reflexivity. Qed.

Lemma dumps_ascii isep ksep j :
  ascii_text isep -> ascii_text ksep -> ascii_text (dumps isep ksep j).
Proof.
  intros Hi Hk. induction j as [| [] | n | s | l IH | d IH] using json_nested_ind.
  - vm_compute. repeat constructor; discriminate.
  - vm_compute. repeat constructor; discriminate.
  - vm_compute. repeat constructor; discriminate.
  - apply int_repr_ascii.
  - apply encode_basestring_ascii_ascii.
  - rewrite dumps_list_eq.
    apply ascii_text_app; [repeat constructor; lia|].
    apply ascii_text_app; [|repeat constructor; lia].
    apply join_ascii; auto. apply Forall_map. exact IH.
  - rewrite dumps_dict_eq.
    apply ascii_text_app; [repeat constructor; lia|].
    apply ascii_text_app; [|repeat constructor; lia].
    apply join_ascii; auto. apply Forall_map.
    apply sort_items_Forall. apply Forall_map.
    eapply Forall_impl; [|exact IH]. intros kv Hkv. cbn [fst snd] in *.
    apply ascii_text_app; [apply encode_basestring_ascii_ascii|].
    apply ascii_text_app; assumption.
Qed.

Lemma dumps_compact_ascii j : ascii_text (dumps_compact j).
Proof. apply dumps_ascii; repeat constructor; lia. Qed.

Lemma dumps_default_ascii j : ascii_text (dumps_default j).
Proof. apply dumps_ascii; repeat constructor; lia. Qed.

Lemma keccak_text_ascii s : ascii_text s -> keccak_text s = Some (keccak256 s).
Proof. intros H. unfold keccak_text. rewrite utf8_encode_ascii by assumption. reflexivity. Qed.

(** The state hash is always produced, and it is the Keccak-256 digest of
    the canonical text. *)
Lemma anchor_my_state_hash_eq state :
  anchor_my_state_hash state = Some (keccak256 (dumps_compact state)).
Proof. apply keccak_text_ascii, dumps_compact_ascii. Qed.

(* ================================================================== *)
(** ** Insertion order does not reach the serialization *)

Lemma same_content_items_keys d1 d2 :
  same_content_items d1 d2 -> map fst d1 = map fst d2.
Proof. induction 1; simpl; congruence. Qed.

Lemma dumps_same_content isep ksep :
  (forall j1 j2, same_content j1 j2 ->
     dict_keys_unique j1 = true -> dumps isep ksep j1 = dumps isep ksep j2) /\
  (forall l1 l2, same_content_list l1 l2 ->
     forallb dict_keys_unique l1 = true ->
     map (dumps isep ksep) l1 = map (dumps isep ksep) l2) /\
  (forall d1 d2, same_content_items d1 d2 ->
     forallb (fun kv => dict_keys_unique (snd kv)) d1 = true ->
     map (fun kv => (fst kv, dumps isep ksep (snd kv))) d1 =
     map (fun kv => (fst kv, dumps isep ksep (snd kv))) d2).
Proof.
  apply same_content_mutind; intros; try reflexivity.
  - (* lists *)
    rewrite !dumps_list_eq. cbn [dict_keys_unique] in *.
    rewrite H by assumption. reflexivity.
  - (* mappings *)
    rewrite !dumps_dict_eq. cbn [dict_keys_unique] in *.
    apply andb_true_iff in H0 as [Hk Hv].
    assert (Hv' : forallb (fun kv => dict_keys_unique (snd kv)) d1' = true).
    { apply forallb_forall. intros kv Hin.
      rewrite forallb_forall in Hv. apply Hv.
      eapply Permutation_in; [apply Permutation_sym; eassumption|assumption]. }
    rewrite <- (H Hv').
    rewrite (sort_items_perm
               (map (fun kv => (fst kv, dumps isep ksep (snd kv))) d1)
               (map (fun kv => (fst kv, dumps isep ksep (snd kv))) d1')).
    + reflexivity.
    + apply Permutation_map. assumption.
    + rewrite map_map. cbn [fst]. apply keys_nodupb_NoDup. assumption.
  - cbn [forallb map] in *. apply andb_true_iff in H1 as [Hx Hl].
    rewrite H by assumption. rewrite H0 by assumption. reflexivity.
  - cbn [forallb map fst snd] in *. apply andb_true_iff in H1 as [Hx Hl].
    rewrite H by assumption. rewrite H0 by assumption. reflexivity.
Qed.

Lemma same_content_refl :
  forall j, same_content j j.
Proof.
  induction j as [| b | n | s | l IH | d IH] using json_nested_ind;
    try constructor.
  - induction IH; constructor; auto.
  - apply sc_dict with (d1' := d); [apply Permutation_refl|].
    induction IH as [|[k v] d Hv Hd IHd]; constructor; auto.
Qed.

(** C1.  Two documents with the same logical content (the same values under
    the same keys, the keys inserted in any order) have byte-identical
    canonical serializations and therefore one and the same commitment; the
    commitment is always produced and is a function of the document alone
    (the Keccak-256 digest of its canonical text), so calling the hash again
    on the same document returns it again. *)
Theorem canonical_hash_order_independent (d1 d2 : json) :
  dict_keys_unique d1 = true ->
  same_content d1 d2 ->
  dumps_compact d1 = dumps_compact d2 /\
  exists commitment,
    anchor_my_state_hash d1 = Some commitment /\
    anchor_my_state_hash d2 = Some commitment /\
    commitment = keccak256 (dumps_compact d1).
Proof.
  intros Hk Hs.
  assert (E : dumps_compact d1 = dumps_compact d2).
  { apply (proj1 (dumps_same_content [44] [58])); assumption. }
  split; [exact E|].
  exists (keccak256 (dumps_compact d1)).
  rewrite !anchor_my_state_hash_eq, E. auto.
Qed.

Lemma canonical_hash_order_independent_witness :
  let d1 := JDict [(lit "b", JList [JInt 1; JInt 2]); (lit "a", JInt 1)] in
  let d2 := JDict [(lit "a", JInt 1); (lit "b", JList [JInt 1; JInt 2])] in
  dumps_compact d1 = dumps_compact d2 /\
  exists commitment,
    anchor_my_state_hash d1 = Some commitment /\
    anchor_my_state_hash d2 = Some commitment /\
    commitment = keccak256 (dumps_compact d1).
Proof.
  intros d1 d2.
  apply (canonical_hash_order_independent d1 d2).
  - reflexivity.
  - eapply sc_dict.
    + apply perm_swap.
    + repeat constructor.
Defined.

(* ================================================================== *)
(** ** Key order and white space of the serialization *)

Definition key_le {V : Type} (a b : pystr * V) : Prop :=
  str_leb (fst a) (fst b) = true.

Lemma insert_item_sorted {V : Type} (kv : pystr * V) l :
  Sorted key_le l -> Sorted key_le (insert_item kv l).
Proof.
  induction 1 as [|x l Hl IH Hhd]; simpl.
  - repeat constructor.
  - destruct (str_leb (fst kv) (fst x)) eqn:E.
    + constructor; [constructor; assumption|]. constructor. exact E.
    + constructor; [exact IH|].
      destruct l as [|y l]; simpl.
      * constructor. apply str_leb_total. exact E.
      * destruct (str_leb (fst kv) (fst y)).
        -- constructor. apply str_leb_total. exact E.
        -- constructor. inversion Hhd; assumption.
Qed.

Lemma sort_items_sorted {V : Type} (l : list (pystr * V)) :
  Sorted key_le (sort_items l).
Proof.
  induction l; simpl; [constructor|]. apply insert_item_sorted. assumption.
Qed.

Lemma insert_item_permutation {V : Type} (kv : pystr * V) l :
  Permutation (kv :: l) (insert_item kv l).
Proof.
  induction l as [|x l IH]; simpl; [apply Permutation_refl|].
  destruct (str_leb (fst kv) (fst x)); [apply Permutation_refl|].
  eapply perm_trans; [apply perm_swap|]. apply perm_skip. exact IH.
Qed.

Lemma sort_items_permutation {V : Type} (l : list (pystr * V)) :
  Permutation l (sort_items l).
Proof.
  induction l as [|x l IH]; simpl; [constructor|].
  eapply perm_trans; [apply perm_skip; exact IH|]. apply insert_item_permutation.
Qed.

(** No string of the document (key or value) contains a space. *)
Definition has_no_space (s : pystr) : bool := forallb (fun c => negb (c =? 32)) s.

Fixpoint strings_without_space (j : json) : bool :=
  match j with
  | JStr s => has_no_space s
  | JList l => forallb strings_without_space l
  | JDict d =>
      forallb (fun kv => has_no_space (fst kv) && strings_without_space (snd kv)) d
  | _ => true
  end.

(** Printable and not blank: none of the JSON white-space characters. *)
Definition solid_text (s : pystr) : Prop := Forall (fun c => 33 <= c <= 126) s.

Lemma solid_text_app s t : solid_text s -> solid_text t -> solid_text (s ++ t).
Proof. unfold solid_text. intros. apply Forall_app. split; assumption. Qed.

Lemma hex_digit_land_solid x : 33 <= hex_digit (Z.land x 15) <= 126.
Proof.
  rewrite land_15.
  pose proof (Z.mod_pos_bound x 16 ltac:(lia)).
  pose proof (hex_digit_range (x mod 16) ltac:(lia)). lia.
Qed.

Lemma backslash_u_solid n : solid_text (backslash_u n).
Proof.
  unfold backslash_u, hex4, solid_text. simpl.
  repeat constructor; try lia; apply hex_digit_land_solid.
Qed.

Lemma escape_char_solid c : c <> 32 -> solid_text (escape_char c).
Proof.
  intros Hc. unfold escape_char.
  repeat match goal with
         | |- context [if ?b then _ else _] => destruct b eqn:?
         end;
    try (repeat constructor; lia);
    try apply backslash_u_solid;
    try (apply solid_text_app; apply backslash_u_solid).
Qed.

Lemma encode_basestring_ascii_solid s :
  has_no_space s = true -> solid_text (encode_basestring_ascii s).
Proof.
  intros H. unfold encode_basestring_ascii.
  apply solid_text_app; [repeat constructor; lia|].
  apply solid_text_app; [|repeat constructor; lia].
  induction s as [|c s IH]; simpl in *; [constructor|].
  apply andb_true_iff in H as [Hc Hs].
  apply solid_text_app; [apply escape_char_solid; lia|auto].
Qed.

Lemma dec_digits_solid fuel n acc :
  solid_text acc -> solid_text (dec_digits fuel n acc).
Proof.
  revert n acc; induction fuel as [|f IH]; intros n acc Hacc; simpl; auto.
  assert (solid_text (48 + n mod 10 :: acc)).
  { constructor; auto. pose proof (Z.mod_pos_bound n 10 ltac:(lia)). lia. }
  destruct (n <? 10); auto.
Qed.

Lemma int_repr_solid n : solid_text (int_repr n).
Proof.
  unfold int_repr, repr_nonneg.
  destruct (n <? 0); [constructor; [lia|]|]; apply dec_digits_solid; constructor.
Qed.

Lemma join_solid sep parts :
  solid_text sep -> Forall solid_text parts -> solid_text (join sep parts).
Proof.
  intros Hsep; induction 1 as [|p parts Hp Hparts IH]; simpl; [constructor|].
  destruct parts as [|q parts]; auto.
  apply solid_text_app; auto. apply solid_text_app; auto.
Qed.

Lemma dumps_compact_solid j :
  strings_without_space j = true -> solid_text (dumps_compact j).
Proof.
  unfold dumps_compact.
  induction j as [| [] | n | s | l IH | d IH] using json_nested_ind; intros Hs.
  - vm_compute. repeat constructor; discriminate.
  - vm_compute. repeat constructor; discriminate.
  - vm_compute. repeat constructor; discriminate.
  - apply int_repr_solid.
  - apply encode_basestring_ascii_solid. exact Hs.
  - rewrite dumps_list_eq. cbn [strings_without_space] in Hs.
    apply solid_text_app; [repeat constructor; lia|].
    apply solid_text_app; [|repeat constructor; lia].
    apply join_solid; [repeat constructor; lia|]. apply Forall_map.
    rewrite forallb_forall in Hs. rewrite Forall_forall in *. auto.
  - rewrite dumps_dict_eq. cbn [strings_without_space] in Hs.
    apply solid_text_app; [repeat constructor; lia|].
    apply solid_text_app; [|repeat constructor; lia].
    apply join_solid; [repeat constructor; lia|]. apply Forall_map.
    apply sort_items_Forall. apply Forall_map.
    rewrite forallb_forall in Hs. rewrite Forall_forall in *.
    intros kv Hin. cbn [fst snd].
    specialize (Hs kv Hin). apply andb_true_iff in Hs as [Hk Hv].
    apply solid_text_app; [apply encode_basestring_ascii_solid; exact Hk|].
    apply solid_text_app; [repeat constructor; lia|auto].
Qed.

Definition sample_document : json :=
  JDict [(lit "a", JInt 1); (lit "b", JList [JInt 1; JInt 2])].

(** The three copies disagree on one small document: the wallet tool and
    the ouroboros script put a space after every comma and colon, and the
    wallet tool hashes with SHA-256. *)
Lemma hashing_copies_differ :
  dumps_compact sample_document = litq "{'a':1,'b':[1,2]}" /\
  dumps_default sample_document = litq "{'a': 1, 'b': [1, 2]}" /\
  In 32 (dumps_default sample_document) /\
  ouroboros_state_hash sample_document <> anchor_my_state_hash sample_document /\
  wallet_anchor_state_hash sample_document <> anchor_my_state_hash sample_document /\
  wallet_anchor_state_hash sample_document <>
    Some (keccak256 (dumps_default sample_document)).
Proof.
  split; [vm_compute; reflexivity|].
  split; [vm_compute; reflexivity|].
  split; [vm_compute; tauto|].
  repeat split; intros H; vm_compute in H; discriminate H.
Qed.

(** C2, as the code has it.  anchor_my_state computes Keccak-256 over the
    UTF-8 octets of the serialization with sorted keys and the separators
    "," and ":" and nothing else between tokens: a mapping is rendered from
    its items in lexicographic key order, and the text has no white space
    unless a string of the document has a space.  The ouroboros script hashes
    the serialization with the default separators ", " and ": " with
    Keccak-256, and the wallet tool hashes that same default serialization
    with SHA-256. *)
Theorem state_hash_schemes (state : json) :
  (anchor_my_state_hash state = Some (keccak256 (dumps_compact state)) /\
   utf8_encode (dumps_compact state) = Some (dumps_compact state)) /\
  (strings_without_space state = true -> solid_text (dumps_compact state)) /\
  (forall d, exists items,
      dumps_compact (JDict d) =
        [123] ++
        join [44]
          (map (fun kv => encode_basestring_ascii (fst kv) ++ [58] ++ snd kv) items) ++
        [125] /\
      Permutation (map (fun kv => (fst kv, dumps_compact (snd kv))) d) items /\
      Sorted key_le items) /\
  ouroboros_state_hash state = Some (keccak256 (dumps_default state)) /\
  wallet_anchor_state_hash state = Some (sha256 (dumps_default state)).
Proof.
  split; [split|split; [|split; [|split]]].
  - apply anchor_my_state_hash_eq.
  - apply utf8_encode_ascii, dumps_compact_ascii.
  - apply dumps_compact_solid.
  - intros d.
    exists (sort_items (map (fun kv => (fst kv, dumps_compact (snd kv))) d)).
    split; [reflexivity|]. split.
    + apply sort_items_permutation.
    + apply sort_items_sorted.
  - apply keccak_text_ascii, dumps_default_ascii.
  - unfold wallet_anchor_state_hash.
    rewrite utf8_encode_ascii by apply dumps_default_ascii. reflexivity.
Qed.

(* ================================================================== *)
(** ** Octet strings of integers *)

Lemma of_be_bytes_acc l a :
  fold_left (fun acc b => acc * 256 + b) l a =
  a * 256 ^ Z.of_nat (length l) + of_be_bytes l.
Proof.
  unfold of_be_bytes. revert a.
  induction l as [|x l IH]; intros a.
  - simpl. lia.
  - cbn [fold_left length]. rewrite IH. rewrite (IH (0 * 256 + x)).
    rewrite Nat2Z.inj_succ, Z.pow_succ_r by lia. ring.
Qed.

Lemma of_be_bytes_cons x l :
  of_be_bytes (x :: l) = x * 256 ^ Z.of_nat (length l) + of_be_bytes l.
Proof.
  unfold of_be_bytes at 1. cbn [fold_left]. rewrite of_be_bytes_acc. ring.
Qed.

Lemma of_be_bytes_snoc l x : of_be_bytes (l ++ [x]) = of_be_bytes l * 256 + x.
Proof. unfold of_be_bytes. rewrite fold_left_app. reflexivity. Qed.

Lemma be_min_fuel_value fuel n acc :
  0 <= n < 2 ^ Z.of_nat fuel ->
  of_be_bytes (be_min_fuel fuel n acc) =
  n * 256 ^ Z.of_nat (length acc) + of_be_bytes acc.
Proof.
  revert n acc; induction fuel as [|f IH]; intros n acc Hn.
  - simpl in *. assert (n = 0) by lia. subst. lia.
  - cbn [be_min_fuel]. destruct (n <=? 0) eqn:E.
    + apply Z.leb_le in E. assert (n = 0) by lia. subst. lia.
    + apply Z.leb_gt in E. rewrite IH.
      * rewrite of_be_bytes_cons. cbn [length].
        rewrite Nat2Z.inj_succ, Z.pow_succ_r by lia.
        pose proof (Z.div_mod n 256 ltac:(lia)). nia.
      * rewrite Nat2Z.inj_succ, Z.pow_succ_r in Hn by lia.
        split; [apply Z.div_pos; lia|].
        apply Z.div_lt_upper_bound; lia.
Qed.

Lemma log2_fuel n : 0 <= n -> n < 2 ^ Z.of_nat (S (Z.to_nat (Z.log2 n))).
Proof.
  intros Hn. rewrite Nat2Z.inj_succ, Z2Nat.id by apply Z.log2_nonneg.
  destruct (Z.eq_dec n 0) as [->|]; [reflexivity|].
  apply Z.log2_spec. lia.
Qed.

Lemma int_to_big_endian_value n : 0 <= n -> of_be_bytes (int_to_big_endian n) = n.
Proof.
  intros Hn. unfold int_to_big_endian.
  rewrite be_min_fuel_value by (split; [lia|apply log2_fuel; lia]).
  simpl. unfold of_be_bytes. simpl. lia.
Qed.

Lemma int_to_big_endian_inj n m :
  0 <= n -> 0 <= m -> int_to_big_endian n = int_to_big_endian m -> n = m.
Proof.
  intros Hn Hm E. rewrite <- (int_to_big_endian_value n), <- (int_to_big_endian_value m)
    by assumption. congruence.
Qed.

Lemma be_min_fuel_length_ge fuel n acc :
  (length acc <= length (be_min_fuel fuel n acc))%nat.
Proof.
  revert n acc; induction fuel as [|f IH]; intros n acc; simpl; [lia|].
  destruct (n <=? 0); [lia|]. specialize (IH (n / 256) (n mod 256 :: acc)).
  simpl in IH. lia.
Qed.

Lemma be_min_fuel_length_le fuel n acc :
  (length (be_min_fuel fuel n acc) <= fuel + length acc)%nat.
Proof.
  revert n acc; induction fuel as [|f IH]; intros n acc; simpl; [lia|].
  destruct (n <=? 0); [lia|]. specialize (IH (n / 256) (n mod 256 :: acc)).
  simpl in IH. lia.
Qed.

Lemma int_to_big_endian_nonempty n :
  0 < n -> (1 <= length (int_to_big_endian n))%nat.
Proof.
  intros Hn. unfold int_to_big_endian. cbn [be_min_fuel].
  destruct (n <=? 0) eqn:E; [apply Z.leb_le in E; lia|].
  pose proof (be_min_fuel_length_ge (Z.to_nat (Z.log2 n)) (n / 256) [n mod 256]).
  simpl in *. lia.
Qed.

Lemma int_to_big_endian_length n k :
  0 <= n < 2 ^ k -> 0 < k ->
  Z.of_nat (length (int_to_big_endian n)) <= k + 1.
Proof.
  intros Hn Hk. unfold int_to_big_endian.
  pose proof (be_min_fuel_length_le (S (Z.to_nat (Z.log2 n))) n []) as H.
  change (length (@nil Z)) with 0%nat in H.
  destruct (Z.eq_dec n 0) as [->|Hne].
  - simpl. lia.
  - assert (Z.log2 n < k) by (apply Z.log2_lt_pow2; lia).
    pose proof (Z.log2_nonneg n). lia.
Qed.

(* ================================================================== *)
(** ** RLP: what is encoded can be told apart *)

Lemma app_inv_same_length {A : Type} (a a' b b' : list A) :
  length a = length a' -> a ++ b = a' ++ b' -> a = a' /\ b = b'.
Proof.
  revert a'; induction a as [|x a IH]; intros [|x' a'] Hl E;
    simpl in *; try discriminate; auto.
  injection E as -> E. injection Hl as Hl.
  destruct (IH a' Hl E) as [-> ->]. auto.
Qed.

Lemma length_prefix_some len offset :
  0 <= len < 256 ^ 8 ->
  exists h, length_prefix len offset = Some h /\ (1 <= length h <= 66)%nat.
Proof.
  intros Hl. unfold length_prefix.
  destruct (len <? 56) eqn:E1.
  - eexists; split; [reflexivity|simpl; lia].
  - destruct (len <? 256 ^ 8) eqn:E2; [|apply Z.ltb_ge in E2; lia].
    eexists; split; [reflexivity|].
    pose proof (int_to_big_endian_length len 64 ltac:(change (2 ^ 64) with (256 ^ 8); lia) ltac:(lia)).
    simpl length. lia.
Qed.

(** Two encodings with the same offset that agree as octet strings carry the
    same payload. *)
Lemma length_prefix_split len len' offset h h' p p' :
  length_prefix len offset = Some h ->
  length_prefix len' offset = Some h' ->
  h ++ p = h' ++ p' ->
  p = p'.
Proof.
  unfold length_prefix. intros H H' E.
  destruct (len <? 56) eqn:E1; destruct (len' <? 56) eqn:E1';
    try (destruct (len <? 256 ^ 8) eqn:E2; [|discriminate]);
    try (destruct (len' <? 256 ^ 8) eqn:E2'; [|discriminate]);
    injection H as <-; injection H' as <-; simpl in E; injection E as E0 E.
  - exact E.
  - apply Z.ltb_lt in E1. apply Z.ltb_ge in E1'.
    pose proof (int_to_big_endian_nonempty len' ltac:(lia)). lia.
  - apply Z.ltb_lt in E1'. apply Z.ltb_ge in E1.
    pose proof (int_to_big_endian_nonempty len ltac:(lia)). lia.
  - apply app_inv_same_length in E; [tauto|lia].
Qed.

Lemma length_prefix_head len offset h :
  length_prefix len offset = Some h -> 0 <= len ->
  exists x t, h = x :: t /\ offset <= x.
Proof.
  unfold length_prefix. intros H Hl.
  destruct (len <? 56); [|destruct (len <? 256 ^ 8); [|discriminate]];
    injection H as <-; eexists; eexists; split; try reflexivity; lia.
Qed.

Lemma encode_bytes_inj b b' e :
  encode_bytes b = Some e -> encode_bytes b' = Some e -> b = b'.
Proof.
  assert (Hlong : forall b1 b2 e1,
             option_map (fun p => p ++ b1) (length_prefix (Z.of_nat (length b1)) 128) = Some e1 ->
             option_map (fun p => p ++ b2) (length_prefix (Z.of_nat (length b2)) 128) = Some e1 ->
             b1 = b2).
  { intros b1 b2 e1 H1 H2.
    destruct (length_prefix (Z.of_nat (length b1)) 128) as [h1|] eqn:P1; [|discriminate].
    destruct (length_prefix (Z.of_nat (length b2)) 128) as [h2|] eqn:P2; [|discriminate].
    simpl in H1, H2. injection H1 as <-. injection H2 as H2.
    symmetry in H2. exact (length_prefix_split _ _ _ _ _ _ _ P1 P2 H2). }
  assert (Hmix : forall x b2 e1,
             x < 128 -> Some [x] = Some e1 ->
             option_map (fun p => p ++ b2) (length_prefix (Z.of_nat (length b2)) 128) = Some e1 ->
             False).
  { intros x b2 e1 Hx H1 H2. injection H1 as <-.
    destruct (length_prefix (Z.of_nat (length b2)) 128) as [h2|] eqn:P2; [|discriminate].
    apply length_prefix_head in P2 as (y & t & -> & Hy); [|lia].
    simpl in H2. injection H2 as H2 _. lia. }
  unfold encode_bytes. intros H H'.
  destruct b as [|x [|x2 b]]; destruct b' as [|y [|y2 b']];
    try (destruct (x <? 128) eqn:Ex; [apply Z.ltb_lt in Ex|]);
    try (destruct (y <? 128) eqn:Ey; [apply Z.ltb_lt in Ey|]);
    try (eapply Hlong; eassumption);
    try (exfalso; eapply (Hmix x); [eassumption|exact H|exact H']; fail);
    try (exfalso; eapply (Hmix y); [eassumption|exact H'|exact H]; fail);
    try congruence.
Qed.

Lemma encode_bytes_some b :
  Z.of_nat (length b) < 256 ^ 8 ->
  exists e, encode_bytes b = Some e /\ (length e <= length b + 66)%nat.
Proof.
  intros Hl.
  destruct (length_prefix_some (Z.of_nat (length b)) 128 ltac:(lia)) as (h & Hh & Hlen).
  assert (Hgen : exists e,
             option_map (fun p => p ++ b) (length_prefix (Z.of_nat (length b)) 128) = Some e /\
             (length e <= length b + 66)%nat).
  { rewrite Hh. simpl. eexists; split; [reflexivity|]. rewrite length_app. lia. }
  unfold encode_bytes. destruct b as [|x [|x2 b]]; try exact Hgen.
  destruct (x <? 128); [|exact Hgen].
  eexists; split; [reflexivity|simpl; lia].
Qed.

(** The encoding of a non-negative integer. *)
Definition rlp_int_bytes (n : Z) : bytes :=
  if n =? 0 then [] else int_to_big_endian n.

Lemma rlp_encode_int n :
  0 <= n -> rlp_encode (RInt n) = encode_bytes (rlp_int_bytes n).
Proof.
  intros Hn. unfold rlp_int_bytes. cbn [rlp_encode].
  destruct (n <? 0) eqn:E; [apply Z.ltb_lt in E; lia|].
  destruct (n =? 0); reflexivity.
Qed.

Lemma rlp_int_bytes_inj n m :
  0 <= n -> 0 <= m -> rlp_int_bytes n = rlp_int_bytes m -> n = m.
Proof.
  unfold rlp_int_bytes. intros Hn Hm E.
  destruct (Z.eqb_spec n 0) as [En|En]; destruct (Z.eqb_spec m 0) as [Em|Em].
  - lia.
  - pose proof (int_to_big_endian_nonempty m ltac:(lia)) as H.
    rewrite <- E in H. simpl in H. lia.
  - pose proof (int_to_big_endian_nonempty n ltac:(lia)) as H.
    rewrite E in H. simpl in H. lia.
  - apply int_to_big_endian_inj; assumption.
Qed.

Lemma rlp_encode_int_inj n m e :
  0 <= n -> 0 <= m ->
  rlp_encode (RInt n) = Some e -> rlp_encode (RInt m) = Some e -> n = m.
Proof.
  intros Hn Hm H1 H2. rewrite rlp_encode_int in H1, H2 by assumption.
  apply rlp_int_bytes_inj; try assumption.
  eapply encode_bytes_inj; eassumption.
Qed.

Lemma rlp_encode_int_some n :
  0 <= n < 2 ^ 256 ->
  exists e, rlp_encode (RInt n) = Some e /\ (length e <= 400)%nat.
Proof.
  intros Hn. rewrite rlp_encode_int by lia.
  assert (Hlen : Z.of_nat (length (rlp_int_bytes n)) <= 257).
  { unfold rlp_int_bytes. destruct (n =? 0); [simpl; lia|].
    apply (int_to_big_endian_length n 256); lia. }
  destruct (encode_bytes_some (rlp_int_bytes n)) as (e & He & Hl).
  - change (256 ^ 8) with 18446744073709551616. lia.
  - exists e. split; [assumption|lia].
Qed.

(* ================================================================== *)
(** ** The signing digest *)

Lemma le_bytes_length n x : length (le_bytes n x) = n.
Proof. revert x; induction n; intros x; simpl; auto. Qed.

Lemma keccak256_length m : length (keccak256 m) = 32%nat.
Proof.
  unfold keccak256, Keccak.keccak256, Keccak.squeeze.
  rewrite !length_app, !le_bytes_length. reflexivity.
Qed.

Lemma bytes_fromhex_length_aux n :
  forall s b, (length s <= n)%nat ->
              bytes_fromhex s = Some b -> (length b <= length s)%nat.
Proof.
  induction n as [|n IH]; intros s b Hn H.
  - destruct s; [|simpl in Hn; lia]. injection H as <-. simpl. lia.
  - destruct s as [|c s]; simpl in H.
    + injection H as <-. simpl. lia.
    + simpl in Hn. destruct (is_ascii_space c).
      * specialize (IH s b ltac:(lia) H). simpl. lia.
      * destruct (hexval c); [|discriminate].
        destruct s as [|d s]; [discriminate|].
        destruct (hexval d); [|discriminate].
        destruct (bytes_fromhex s) as [r|] eqn:E; [|discriminate].
        injection H as <-. simpl in Hn.
        specialize (IH s r ltac:(lia) E). simpl. lia.
Qed.

Lemma bytes_fromhex_length s b :
  bytes_fromhex s = Some b -> (length b <= length s)%nat.
Proof. apply (bytes_fromhex_length_aux (length s)). lia. Qed.

Lemma rlp_encode_list l payload :
  concat_options (map rlp_encode l) = Some payload ->
  rlp_encode (RList l) =
  option_map (fun p => p ++ payload) (length_prefix (Z.of_nat (length payload)) 192).
Proof. intros H. cbn [rlp_encode]. rewrite H. reflexivity. Qed.

Lemma concat_options_cons x l :
  concat_options (x :: l) =
  match x, concat_options l with
  | Some a, Some b => Some (a ++ b)
  | _, _ => None
  end.
Proof. reflexivity. Qed.

Lemma concat_options_app l1 l2 a b :
  concat_options l1 = Some a -> concat_options l2 = Some b ->
  concat_options (l1 ++ l2) = Some (a ++ b).
Proof.
  revert a. induction l1 as [|x l1 IH]; intros a H1 H2.
  - simpl in H1. injection H1 as <-. exact H2.
  - rewrite <- app_comm_cons, concat_options_cons.
    rewrite concat_options_cons in H1.
    destruct x as [xa|]; [|discriminate].
    destruct (concat_options l1) as [r|]; [|discriminate].
    injection H1 as <-. rewrite (IH r eq_refl H2). rewrite app_assoc. reflexivity.
Qed.

(** The nine fields of a well-formed transaction are encodable, also when
    three signature fields follow them. *)
Lemma rlp_tx_fields_some c n p f g t v d extra extra_enc :
  0 <= c < 2 ^ 256 -> 0 <= n < 2 ^ 256 -> 0 <= p < 2 ^ 256 ->
  0 <= f < 2 ^ 256 -> 0 <= g < 2 ^ 256 -> 0 <= v < 2 ^ 256 ->
  Z.of_nat (length t) < 2 ^ 32 -> Z.of_nat (length d) < 2 ^ 32 ->
  concat_options (map rlp_encode extra) = Some extra_enc ->
  (length extra_enc <= 2000)%nat ->
  exists body e,
    concat_options
      (map rlp_encode
         [RInt c; RInt n; RInt p; RInt f; RInt g; RBytes t; RInt v; RBytes d; RList []]) =
      Some body /\
    rlp_encode
      (RList ([RInt c; RInt n; RInt p; RInt f; RInt g; RBytes t; RInt v; RBytes d;
               RList []] ++ extra)) = Some e /\
    exists h, e = h ++ body ++ extra_enc.
Proof.
  intros Hc Hn Hp Hf Hg Hv Ht Hd Hx Hxl.
  destruct (rlp_encode_int_some c Hc) as (ec & Ec & Lc).
  destruct (rlp_encode_int_some n Hn) as (en & En & Ln).
  destruct (rlp_encode_int_some p Hp) as (ep & Ep & Lp).
  destruct (rlp_encode_int_some f Hf) as (ef & Ef & Lf).
  destruct (rlp_encode_int_some g Hg) as (eg & Eg & Lg).
  destruct (rlp_encode_int_some v Hv) as (ev & Ev & Lv).
  change (2 ^ 32) with 4294967296 in *.
  destruct (encode_bytes_some t) as (et & Et & Lt);
    [change (256 ^ 8) with 18446744073709551616; lia|].
  destruct (encode_bytes_some d) as (ed & Ed & Ld);
    [change (256 ^ 8) with 18446744073709551616; lia|].
  assert (Hbody :
    concat_options
      (map rlp_encode
         [RInt c; RInt n; RInt p; RInt f; RInt g; RBytes t; RInt v; RBytes d; RList []]) =
    Some (ec ++ en ++ ep ++ ef ++ eg ++ et ++ ev ++ ed ++ [192] ++ [])).
  { cbn [map]. rewrite !concat_options_cons.
    rewrite Ec, En, Ep, Ef, Eg, Ev.
    change (rlp_encode (RBytes t)) with (encode_bytes t).
    change (rlp_encode (RBytes d)) with (encode_bytes d).
    rewrite Et, Ed. reflexivity. }
  pose proof (concat_options_app _ _ _ _ Hbody Hx) as Hall.
  rewrite <- map_app in Hall.
  destruct (length_prefix_some
              (Z.of_nat (length ((ec ++ en ++ ep ++ ef ++ eg ++ et ++ ev ++ ed ++ [192] ++ [])
                                 ++ extra_enc))) 192) as (h & Hh & _).
  { change (256 ^ 8) with 18446744073709551616.
    rewrite !length_app. simpl length. lia. }
  eexists. eexists. split; [exact Hbody|]. split.
  - rewrite (rlp_encode_list _ _ Hall). rewrite Hh. reflexivity.
  - exists h. reflexivity.
Qed.

Lemma rlp_list_second_inj c n n' rest e :
  0 <= n -> 0 <= n' ->
  rlp_encode (RList (c :: RInt n :: rest)) = Some e ->
  rlp_encode (RList (c :: RInt n' :: rest)) = Some e ->
  n = n'.
Proof.
  intros Hn Hn' H H'. cbn [rlp_encode map] in H, H'.
  rewrite !concat_options_cons in H, H'.
  change ((fix rlp_encode (o : rlp_obj) : option bytes :=
             match o with
             | RInt n => _
             | RBytes b => _
             | RList l => _
             end) c) with (rlp_encode c) in *.
  destruct (rlp_encode c) as [ec|]; [|discriminate].
  fold rlp_encode in H, H'.
  change (if n <? 0 then None
          else if n =? 0 then encode_bytes [] else encode_bytes (int_to_big_endian n))
    with (rlp_encode (RInt n)) in H.
  change (if n' <? 0 then None
          else if n' =? 0 then encode_bytes [] else encode_bytes (int_to_big_endian n'))
    with (rlp_encode (RInt n')) in H'.
  destruct (rlp_encode (RInt n)) as [en|] eqn:En; [|discriminate].
  destruct (rlp_encode (RInt n')) as [en'|] eqn:En'; [|discriminate].
  destruct (concat_options (map rlp_encode rest)) as [er|]; [|discriminate].
  destruct (length_prefix (Z.of_nat (length (ec ++ en ++ er))) 192) as [h|] eqn:P;
    [|discriminate].
  destruct (length_prefix (Z.of_nat (length (ec ++ en' ++ er))) 192) as [h'|] eqn:P';
    [|discriminate].
  simpl in H, H'. injection H as <-. injection H' as H'.
  pose proof (length_prefix_split _ _ _ _ _ _ _ P' P H') as E.
  apply app_inv_head in E. apply app_inv_tail in E. subst en'.
  eapply rlp_encode_int_inj; eassumption.
Qed.

Lemma uint256b_spec n : uint256b n = true -> 0 <= n < 2 ^ 256.
Proof.
  unfold uint256b. intros H. apply andb_true_iff in H as [H1 H2].
  apply Z.leb_le in H1. apply Z.ltb_lt in H2. lia.
Qed.

Lemma tx_well_formed_spec tx :
  tx_well_formed tx = true ->
  (0 <= tx_chainId tx < 2 ^ 256 /\ 0 <= tx_nonce tx < 2 ^ 256 /\
   0 <= tx_maxPriorityFeePerGas tx < 2 ^ 256 /\ 0 <= tx_maxFeePerGas tx < 2 ^ 256 /\
   0 <= tx_gas tx < 2 ^ 256 /\ 0 <= tx_value tx < 2 ^ 256) /\
  exists to_bytes data_bytes,
    bytes_fromhex (skipn 2 (tx_to tx)) = Some to_bytes /\
    bytes_fromhex (skipn 2 (tx_data tx)) = Some data_bytes /\
    Z.of_nat (length to_bytes) < 2 ^ 32 /\
    Z.of_nat (length data_bytes) < 2 ^ 32.
Proof.
  unfold tx_well_formed. intros H.
  repeat (apply andb_true_iff in H as [H ?]).
  repeat match goal with
         | E : uint256b _ = true |- _ => apply uint256b_spec in E
         | E : (_ <? _) = true |- _ => apply Z.ltb_lt in E
         | E : (_ <=? _) = true |- _ => apply Z.leb_le in E
         end.
  split; [lia|].
  destruct (bytes_fromhex (skipn 2 (tx_to tx))) as [t|] eqn:Et; [|discriminate].
  destruct (bytes_fromhex (skipn 2 (tx_data tx))) as [d|] eqn:Ed; [|discriminate].
  exists t, d. split; [reflexivity|]. split; [reflexivity|].
  apply bytes_fromhex_length in Et, Ed.
  pose proof (length_skipn 2 (tx_to tx)). pose proof (length_skipn 2 (tx_data tx)).
  lia.
Qed.

(** C3.  For a transaction as the builder produces it, compute_tx_hash
    returns the 32-octet Keccak-256 digest of the type tag 0x02 followed by
    the RLP encoding of [chainId, nonce, maxPriorityFeePerGas, maxFeePerGas,
    gas, to, value, data, []]; it depends on nothing but these nine fields,
    so field-identical transactions have identical digests; and another nonce
    gives another signed octet string and, the two strings not being a
    Keccak-256 collision, another digest. *)
Theorem compute_tx_hash_spec (tx : Tx) (nonce' : Z) :
  tx_well_formed tx = true ->
  0 <= nonce' < 2 ^ 256 ->
  nonce' <> tx_nonce tx ->
  ~ collide (signing_preimage tx) (signing_preimage (set_nonce tx nonce')) ->
  exists to_bytes data_bytes encoded digest,
    bytes_fromhex (skipn 2 (tx_to tx)) = Some to_bytes /\
    bytes_fromhex (skipn 2 (tx_data tx)) = Some data_bytes /\
    rlp_encode
      (RList [RInt (tx_chainId tx); RInt (tx_nonce tx);
              RInt (tx_maxPriorityFeePerGas tx); RInt (tx_maxFeePerGas tx);
              RInt (tx_gas tx); RBytes to_bytes; RInt (tx_value tx);
              RBytes data_bytes; RList []]) = Some encoded /\
    compute_tx_hash tx = Some digest /\
    digest = keccak256 (2 :: encoded) /\
    length digest = 32%nat /\
    (forall tx', unsigned_fields tx' = unsigned_fields tx ->
                 compute_tx_hash tx' = Some digest) /\
    exists digest',
      compute_tx_hash (set_nonce tx nonce') = Some digest' /\ digest' <> digest.
Proof.
  intros Hwf Hn' Hne Hcol.
  destruct (tx_well_formed_spec tx Hwf)
    as ((Hc & Hn & Hp & Hf & Hg & Hv) & t & d & Et & Ed & Lt & Ld).
  destruct (rlp_tx_fields_some (tx_chainId tx) (tx_nonce tx)
              (tx_maxPriorityFeePerGas tx) (tx_maxFeePerGas tx) (tx_gas tx)
              t (tx_value tx) d [] [] Hc Hn Hp Hf Hg Hv Lt Ld eq_refl
              ltac:(simpl; lia)) as (body & e & _ & He & _).
  destruct (rlp_tx_fields_some (tx_chainId tx) nonce'
              (tx_maxPriorityFeePerGas tx) (tx_maxFeePerGas tx) (tx_gas tx)
              t (tx_value tx) d [] [] Hc Hn' Hp Hf Hg Hv Lt Ld eq_refl
              ltac:(simpl; lia)) as (body' & e' & _ & He' & _).
  rewrite app_nil_r in He, He'.
  assert (Hpre : signing_preimage tx = Some (2 :: e)).
  { unfold signing_preimage, unsigned_fields. rewrite Et, Ed, He. reflexivity. }
  assert (Hpre' : signing_preimage (set_nonce tx nonce') = Some (2 :: e')).
  { unfold signing_preimage, unsigned_fields, set_nonce. cbn [tx_to tx_data tx_chainId
      tx_nonce tx_maxPriorityFeePerGas tx_maxFeePerGas tx_gas tx_value].
    rewrite Et, Ed, He'. reflexivity. }
  exists t, d, e, (keccak256 (2 :: e)).
  split; [exact Et|]. split; [exact Ed|]. split; [exact He|].
  split; [|split; [reflexivity|split; [|split]]].
  - unfold compute_tx_hash. rewrite Hpre. reflexivity.
  - apply keccak256_length.
  - intros tx' Hsame. unfold compute_tx_hash, signing_preimage in *.
    rewrite Hsame. exact (f_equal (option_map keccak256) Hpre).
  - exists (keccak256 (2 :: e')). split.
    + unfold compute_tx_hash. rewrite Hpre'. reflexivity.
    + intros Hk. apply Hcol. rewrite Hpre, Hpre'. split; [|symmetry; exact Hk].
      intros E. injection E as E. subst e'.
      apply Hne. symmetry.
      eapply (rlp_list_second_inj _ (tx_nonce tx) nonce'); try lia; eassumption.
Qed.

Definition sample_tx : Tx :=
  mkTx (lit "0x5FbDB2315678afecb367f032d93F642f64180aa3") 0
       (lit "0xa9059cbb0000000000000000000000000000000000000000000000000000000000000002")
       200000 3000000000 1000000000 7 CHAIN_ID 2.

Lemma compute_tx_hash_spec_witness :
  exists to_bytes data_bytes encoded digest,
    bytes_fromhex (skipn 2 (tx_to sample_tx)) = Some to_bytes /\
    bytes_fromhex (skipn 2 (tx_data sample_tx)) = Some data_bytes /\
    rlp_encode
      (RList [RInt (tx_chainId sample_tx); RInt (tx_nonce sample_tx);
              RInt (tx_maxPriorityFeePerGas sample_tx); RInt (tx_maxFeePerGas sample_tx);
              RInt (tx_gas sample_tx); RBytes to_bytes; RInt (tx_value sample_tx);
              RBytes data_bytes; RList []]) = Some encoded /\
    compute_tx_hash sample_tx = Some digest /\
    digest = keccak256 (2 :: encoded) /\
    length digest = 32%nat /\
    (forall tx', unsigned_fields tx' = unsigned_fields sample_tx ->
                 compute_tx_hash tx' = Some digest) /\
    exists digest',
      compute_tx_hash (set_nonce sample_tx 8) = Some digest' /\ digest' <> digest.
Proof.
  apply (compute_tx_hash_spec sample_tx 8).
  - reflexivity.
  - lia.
  - discriminate.
  - vm_compute. intros [_ H]. discriminate H.
Defined.

(* ================================================================== *)
(** ** The assembled transaction *)

Lemma land_255 x : Z.land x 255 = x mod 256.
Proof. change 255 with (Z.ones 8). rewrite Z.land_ones by lia. reflexivity. Qed.

Lemma shiftr_8 x : Z.shiftr x 8 = x / 256.
Proof. rewrite Z.shiftr_div_pow2 by lia. reflexivity. Qed.

Lemma of_be_bytes_be_bytes_mod n x :
  of_be_bytes (be_bytes n x) = x mod 256 ^ Z.of_nat n.
Proof.
  unfold be_bytes. revert x. induction n as [|n IH]; intros x.
  - simpl. rewrite Z.mod_1_r. reflexivity.
  - cbn [le_bytes rev]. rewrite of_be_bytes_snoc, IH, land_255, shiftr_8.
    rewrite Nat2Z.inj_succ, Z.pow_succ_r by lia.
    rewrite Z.rem_mul_r by lia. lia.
Qed.

Lemma of_be_bytes_be_bytes_32 x :
  0 <= x < 2 ^ 256 -> of_be_bytes (be_bytes 32 x) = x.
Proof.
  intros Hx. rewrite of_be_bytes_be_bytes_mod.
  change (256 ^ Z.of_nat 32) with (2 ^ 256). apply Z.mod_small. exact Hx.
Qed.

Lemma be_bytes_length n x : length (be_bytes n x) = n.
Proof. unfold be_bytes. rewrite length_rev. apply le_bytes_length. Qed.

Lemma encode_bytes_32 b : length b = 32%nat -> encode_bytes b = Some (160 :: b).
Proof.
  intros H. destruct b as [|x [|y b]]; try discriminate.
  unfold encode_bytes. rewrite H. reflexivity.
Qed.

Lemma skipn_app_tail {A : Type} (a b : list A) :
  skipn (length (a ++ b) - length b) (a ++ b) = b.
Proof.
  rewrite length_app. replace (length a + length b - length b)%nat with (length a) by lia.
  rewrite skipn_app, skipn_all, Nat.sub_diag. reflexivity.
Qed.

Lemma to_bytes32_some x : 0 <= x < 2 ^ 256 -> to_bytes32 x = Some (be_bytes 32 x).
Proof.
  intros Hx. unfold to_bytes32.
  destruct (0 <=? x) eqn:E1; [|apply Z.leb_gt in E1; lia].
  destruct (x <? 2 ^ 256) eqn:E2; [|apply Z.ltb_ge in E2; lia].
  reflexivity.
Qed.

(** A signature whose s is above half the group order. *)
Definition high_s_signature : Signature :=
  mkSignature
    (lit "79be667ef9dcbbac55a06295ce870b07029bfcdb2dce28d959f2815b16f81798")
    (lit "fffffffffffffffffffffffffffffffebaaedce6af48a03bbfd25e8cd0364140")
    0.

(** The assembler leaves a high-s signature as it is: the s that ends the
    encoded transaction is the high s it was given, not [curve_order - s],
    and the encoding differs from that of the normalized signature. *)
Lemma serialize_signed_tx_high_s_unchanged :
  exists r s out,
    int_base16 (sig_r high_s_signature) = Some r /\
    int_base16 (sig_s high_s_signature) = Some s /\
    is_high_s s /\
    serialize_signed_tx sample_tx high_s_signature = Some out /\
    of_be_bytes (skipn (length out - 32) out) = s /\
    ~ is_low_s (of_be_bytes (skipn (length out - 32) out)) /\
    serialize_signed_tx sample_tx high_s_signature <>
    serialize_signed_tx sample_tx
      (normalized_signature r s (sig_recid high_s_signature)).
Proof.
  eexists. eexists. eexists.
  split; [vm_compute; reflexivity|].
  split; [vm_compute; reflexivity|].
  split; [vm_compute; split; reflexivity|].
  split; [vm_compute; reflexivity|].
  split; [vm_compute; reflexivity|].
  split.
  - vm_compute. intros [_ H]. apply H. reflexivity.
  - intros H. vm_compute in H. discriminate H.
Qed.

(** C4, as the code has it.  The assembler does not normalize: for a
    transaction as the builder produces it and a signature whose r and s are
    256-bit numbers, serialize_signed_tx returns the type tag 0x02 followed
    by the RLP encoding of the nine transaction fields and of recid, r and s
    exactly as the signing network returned them; the last 32 octets of the
    result are s itself and the 32 octets before their length prefix are r,
    so a high-s signature is encoded as a high-s signature. *)
Theorem serialize_signed_tx_keeps_signature (tx : Tx) (signature : Signature)
    (r s : Z) :
  tx_well_formed tx = true ->
  int_base16 (sig_r signature) = Some r ->
  int_base16 (sig_s signature) = Some s ->
  0 <= r < 2 ^ 256 -> 0 <= s < 2 ^ 256 ->
  0 <= sig_recid signature < 2 ^ 256 ->
  exists fields encoded,
    unsigned_fields tx = Some fields /\
    rlp_encode
      (RList (fields ++ [RInt (sig_recid signature); RBytes (be_bytes 32 r);
                         RBytes (be_bytes 32 s)])) = Some encoded /\
    serialize_signed_tx tx signature = Some (2 :: encoded) /\
    of_be_bytes (skipn (length encoded - 32) encoded) = s /\
    of_be_bytes (firstn 32 (skipn (length encoded - 65) encoded)) = r /\
    (is_high_s s ->
     ~ is_low_s (of_be_bytes (skipn (length encoded - 32) encoded))).
Proof.
  intros Hwf Er Es Hr Hs Hv.
  destruct (tx_well_formed_spec tx Hwf)
    as ((Hc & Hn & Hp & Hf & Hg & Hval) & t & d & Et & Ed & Lt & Ld).
  destruct (rlp_encode_int_some (sig_recid signature) Hv) as (ev & Ev & Lv).
  pose proof (encode_bytes_32 (be_bytes 32 r) (be_bytes_length 32 r)) as Err.
  pose proof (encode_bytes_32 (be_bytes 32 s) (be_bytes_length 32 s)) as Ess.
  assert (Hextra :
    concat_options
      (map rlp_encode [RInt (sig_recid signature); RBytes (be_bytes 32 r);
                       RBytes (be_bytes 32 s)]) =
    Some (ev ++ (160 :: be_bytes 32 r) ++ (160 :: be_bytes 32 s) ++ [])).
  { cbn [map]. rewrite !concat_options_cons. rewrite Ev.
    change (rlp_encode (RBytes (be_bytes 32 r))) with (encode_bytes (be_bytes 32 r)).
    change (rlp_encode (RBytes (be_bytes 32 s))) with (encode_bytes (be_bytes 32 s)).
    rewrite Err, Ess. reflexivity. }
  destruct (rlp_tx_fields_some (tx_chainId tx) (tx_nonce tx)
              (tx_maxPriorityFeePerGas tx) (tx_maxFeePerGas tx) (tx_gas tx)
              t (tx_value tx) d _ _ Hc Hn Hp Hf Hg Hval Lt Ld Hextra)
    as (body & e & _ & He & h & Hshape).
  { rewrite !length_app. cbn [length]. rewrite !be_bytes_length. lia. }
  assert (Hf9 : unsigned_fields tx =
                Some [RInt (tx_chainId tx); RInt (tx_nonce tx);
                      RInt (tx_maxPriorityFeePerGas tx); RInt (tx_maxFeePerGas tx);
                      RInt (tx_gas tx); RBytes t; RInt (tx_value tx);
                      RBytes d; RList []]).
  { unfold unsigned_fields. rewrite Et, Ed. reflexivity. }
  assert (Hlast : of_be_bytes (skipn (length e - 32) e) = s).
  { rewrite Hshape. rewrite app_nil_r.
    replace (h ++ body ++ ev ++ (160 :: be_bytes 32 r) ++ 160 :: be_bytes 32 s)
      with ((h ++ body ++ ev ++ (160 :: be_bytes 32 r) ++ [160]) ++ be_bytes 32 s)
      by (rewrite <- !app_assoc; cbn [app]; reflexivity).
    pose proof (skipn_app_tail (h ++ body ++ ev ++ (160 :: be_bytes 32 r) ++ [160])
                               (be_bytes 32 s)) as Hsk.
    rewrite be_bytes_length in Hsk. rewrite Hsk.
    apply of_be_bytes_be_bytes_32. exact Hs. }
  eexists. exists e. split; [exact Hf9|]. split; [exact He|].
  split; [|split; [exact Hlast|split]].
  - unfold serialize_signed_tx. rewrite Er, Es, Hf9.
    rewrite (to_bytes32_some r Hr), (to_bytes32_some s Hs). rewrite He. reflexivity.
  - rewrite Hshape. rewrite app_nil_r.
    replace (h ++ body ++ ev ++ (160 :: be_bytes 32 r) ++ 160 :: be_bytes 32 s)
      with ((h ++ body ++ ev ++ [160]) ++ (be_bytes 32 r ++ 160 :: be_bytes 32 s))
      by (rewrite <- !app_assoc; cbn [app]; reflexivity).
    pose proof (skipn_app_tail (h ++ body ++ ev ++ [160])
                               (be_bytes 32 r ++ 160 :: be_bytes 32 s)) as Hsk.
    rewrite (length_app (be_bytes 32 r)) in Hsk. cbn [length] in Hsk.
    rewrite !be_bytes_length in Hsk. change (32 + S 32)%nat with 65%nat in Hsk.
    rewrite Hsk.
    rewrite firstn_app, be_bytes_length, Nat.sub_diag, firstn_O, app_nil_r.
    rewrite firstn_all2 by (rewrite be_bytes_length; lia).
    apply of_be_bytes_be_bytes_32. exact Hr.
  - intros [Hhi _] [_ Hlo]. rewrite Hlast in Hlo. lia.
Qed.

Lemma serialize_signed_tx_keeps_signature_witness :
  exists r s fields encoded,
    is_high_s s /\
    unsigned_fields sample_tx = Some fields /\
    rlp_encode
      (RList (fields ++ [RInt (sig_recid high_s_signature); RBytes (be_bytes 32 r);
                         RBytes (be_bytes 32 s)])) = Some encoded /\
    serialize_signed_tx sample_tx high_s_signature = Some (2 :: encoded) /\
    of_be_bytes (skipn (length encoded - 32) encoded) = s /\
    of_be_bytes (firstn 32 (skipn (length encoded - 65) encoded)) = r /\
    (is_high_s s ->
     ~ is_low_s (of_be_bytes (skipn (length encoded - 32) encoded))).
Proof.
  exists 0x79be667ef9dcbbac55a06295ce870b07029bfcdb2dce28d959f2815b16f81798.
  exists (curve_order - 1).
  destruct (serialize_signed_tx_keeps_signature sample_tx high_s_signature
              0x79be667ef9dcbbac55a06295ce870b07029bfcdb2dce28d959f2815b16f81798
              (curve_order - 1))
    as (fields & encoded & H).
  - reflexivity.
  - vm_compute. reflexivity.
  - vm_compute. reflexivity.
  - vm_compute. split; [discriminate|reflexivity].
  - vm_compute. split; [discriminate|reflexivity].
  - vm_compute. split; [discriminate|reflexivity].
  - exists fields, encoded. split; [|exact H].
    vm_compute. split; reflexivity.
Defined.

(* ================================================================== *)
(** ** The canonical text of an action anchor *)

Lemma dumps_str_eq isep ksep s :
  dumps isep ksep (JStr s) = encode_basestring_ascii s.
Proof. reflexivity. Qed.

Lemma dumps_int_eq isep ksep n : dumps isep ksep (JInt n) = int_repr n.
Proof. reflexivity. Qed.

Ltac eval_literals :=
  repeat match goal with
         | |- context [encode_basestring_ascii (lit ?s)] =>
             let t := eval vm_compute in (encode_basestring_ascii (lit s)) in
             change (encode_basestring_ascii (lit s)) with t
         | |- context [litq ?s] =>
             let t := eval vm_compute in (litq s) in change (litq s) with t
         | |- context [lit ?s] =>
             let t := eval vm_compute in (lit s) in change (lit s) with t
         end.

Lemma sort_action_anchor_items (v1 v2 v3 v4 v5 v6 v7 : pystr) :
  sort_items
    [(lit "anchor_type", v1); (lit "action_subtype", v2); (lit "work_product", v3);
     (lit "creator", v4); (lit "collaborators", v5); (lit "timestamp", v6);
     (lit "timestamp_iso", v7)] =
    [(lit "action_subtype", v2); (lit "anchor_type", v1); (lit "collaborators", v5);
     (lit "creator", v4); (lit "timestamp", v6); (lit "timestamp_iso", v7);
     (lit "work_product", v3)].
Proof. vm_compute. reflexivity. Qed.

Lemma sort_work_product_items (v1 v2 v3 v4 : pystr) :
  sort_items
    [(lit "hash", v1); (lit "content_type", v2); (lit "description", v3);
     (lit "size_bytes", v4)] =
    [(lit "content_type", v2); (lit "description", v3); (lit "hash", v1);
     (lit "size_bytes", v4)].
Proof. vm_compute. reflexivity. Qed.

Lemma sort_creator_items (v1 v2 v3 v4 : pystr) :
  sort_items
    [(lit "token_id", v1); (lit "agent_id", v2); (lit "name", v3);
     (lit "state_hash_at_creation", v4)] =
    [(lit "agent_id", v2); (lit "name", v3); (lit "state_hash_at_creation", v4);
     (lit "token_id", v1)].
Proof. vm_compute. reflexivity. Qed.

Lemma action_anchor_payload_shape a content_bytes csh ts iso :
  action_anchor_payload a content_bytes csh ts iso =
  litq "{'action_subtype':" ++ encode_basestring_ascii (anchor_type a) ++
  litq ",'anchor_type':'action','collaborators':" ++
  dumps_compact (JList (map JStr (collaborators a))) ++
  litq ",'creator':{'agent_id':" ++ encode_basestring_ascii (creator_agent_id a) ++
  litq ",'name':" ++ encode_basestring_ascii (creator_name a) ++
  litq ",'state_hash_at_creation':" ++ encode_basestring_ascii csh ++
  litq ",'token_id':" ++ int_repr (token_id a) ++
  litq "},'timestamp':" ++ int_repr ts ++
  litq ",'timestamp_iso':" ++ encode_basestring_ascii (iso ++ lit "Z") ++
  litq ",'work_product':{'content_type':" ++
  encode_basestring_ascii (content_type a) ++
  litq ",'description':" ++ encode_basestring_ascii (description a) ++
  litq ",'hash':" ++
  encode_basestring_ascii (lit "0x" ++ hex_of_bytes (keccak256 content_bytes)) ++
  litq ",'size_bytes':" ++ int_repr (Z.of_nat (length content_bytes)) ++
  litq "}}".
Proof.
  unfold action_anchor_payload, action_anchor_data, dumps_compact.
  rewrite dumps_dict_eq. cbn [map fst snd].
  rewrite sort_action_anchor_items.
  rewrite !dumps_dict_eq. cbn [map fst snd].
  rewrite sort_work_product_items, sort_creator_items.
  rewrite !dumps_str_eq, !dumps_int_eq.
  cbn [map join fst snd].
  eval_literals.
  repeat rewrite <- app_assoc. cbn [app].
  repeat rewrite <- app_assoc. cbn [app].
  reflexivity.
Qed.

(* ================================================================== *)
(** ** Bit operations as arithmetic *)

Lemma lor_high_low k n b :
  0 <= n -> 0 <= b < 2 ^ n -> Z.lor (k * 2 ^ n) b = k * 2 ^ n + b.
Proof.
  intros Hn Hb.
  assert (Hl : Z.land (k * 2 ^ n) b = 0).
  { apply Z.bits_inj'. intros i Hi. rewrite Z.land_spec, Z.bits_0.
    destruct (Z.lt_ge_cases i n) as [Hlt|Hge].
    - rewrite Z.mul_pow2_bits_low by lia. reflexivity.
    - rewrite <- (Z.mod_small b (2 ^ n)) by lia.
      rewrite Z.mod_pow2_bits_high by lia. apply andb_false_r. }
  rewrite <- Z.lxor_lor by exact Hl. symmetry. apply Z.add_nocarry_lxor. exact Hl.
Qed.

Lemma land_63 x : Z.land x 63 = x mod 64.
Proof. change 63 with (Z.ones 6). rewrite Z.land_ones by lia. reflexivity. Qed.

Lemma land_1023 x : Z.land x 1023 = x mod 1024.
Proof. change 1023 with (Z.ones 10). rewrite Z.land_ones by lia. reflexivity. Qed.

Lemma shiftr_div x n : 0 <= n -> Z.shiftr x n = x / 2 ^ n.
Proof. intros. apply Z.shiftr_div_pow2. assumption. Qed.

Lemma hex_digit_inj a b :
  0 <= a < 16 -> 0 <= b < 16 -> hex_digit a = hex_digit b -> a = b.
Proof.
  unfold hex_digit. intros Ha Hb.
  destruct (a <? 10) eqn:Ea; destruct (b <? 10) eqn:Eb; lia.
Qed.

Lemma hex4_arith n :
  hex4 n = [hex_digit ((n / 4096) mod 16); hex_digit ((n / 256) mod 16);
            hex_digit ((n / 16) mod 16); hex_digit (n mod 16)].
Proof.
  unfold hex4. rewrite !land_15, !shiftr_div by lia. reflexivity.
Qed.

Lemma hex4_inj n m :
  0 <= n < 65536 -> 0 <= m < 65536 -> hex4 n = hex4 m -> n = m.
Proof.
  intros Hn Hm. rewrite !hex4_arith. intros E.
  injection E as E1 E2 E3 E4.
  apply hex_digit_inj in E1, E2, E3, E4;
    try (apply Z.mod_pos_bound; lia).
  Z.to_euclidean_division_equations. lia.
Qed.

Lemma valid_char_spec c :
  valid_char c = true <-> 0 <= c < 0x110000 /\ ~ (0xD800 <= c <= 0xDFFF).
Proof. unfold valid_char. lia. Qed.

(* ================================================================== *)
(** ** Escaped strings can be told apart *)

(** The character that a two-character escape stands for. *)
Definition short_escape (x : Z) : Z :=
  if x =? 110 then 10
  else if x =? 114 then 13
  else if x =? 116 then 9
  else if x =? 102 then 12
  else if x =? 98 then 8
  else x.

Definition high_surrogate (c : Z) : Z := 0xD800 + (c - 0x10000) / 1024.
Definition low_surrogate (c : Z) : Z := 0xDC00 + (c - 0x10000) mod 1024.

Inductive escape_shape (c : Z) : pystr -> Prop :=
| es_plain : 32 <= c <= 126 -> c <> 34 -> c <> 92 -> escape_shape c [c]
| es_short x :
    In x [34; 92; 110; 114; 116; 102; 98] -> c = short_escape x ->
    escape_shape c [92; x]
| es_unit : 0 <= c < 0x10000 -> escape_shape c (92 :: 117 :: hex4 c)
| es_pair :
    0x10000 <= c < 0x110000 ->
    escape_shape c (92 :: 117 :: hex4 (high_surrogate c) ++
                    92 :: 117 :: hex4 (low_surrogate c)).

Lemma escape_char_shape c :
  0 <= c < 0x110000 -> escape_shape c (escape_char c).
Proof.
  intros Hc. unfold escape_char.
  destruct (Z.eqb_spec c 34) as [->|H34]; [apply (es_short _ 34); [simpl; tauto|reflexivity]|].
  destruct (Z.eqb_spec c 92) as [->|H92]; [apply (es_short _ 92); [simpl; tauto|reflexivity]|].
  destruct ((32 <=? c) && (c <=? 126)) eqn:Ep; [apply es_plain; lia|].
  destruct (Z.eqb_spec c 10) as [->|H10]; [apply (es_short _ 110); [simpl; tauto|reflexivity]|].
  destruct (Z.eqb_spec c 13) as [->|H13]; [apply (es_short _ 114); [simpl; tauto|reflexivity]|].
  destruct (Z.eqb_spec c 9) as [->|H9]; [apply (es_short _ 116); [simpl; tauto|reflexivity]|].
  destruct (Z.eqb_spec c 12) as [->|H12]; [apply (es_short _ 102); [simpl; tauto|reflexivity]|].
  destruct (Z.eqb_spec c 8) as [->|H8]; [apply (es_short _ 98); [simpl; tauto|reflexivity]|].
  destruct (c <? 65536) eqn:Eu; [apply es_unit; lia|].
  apply Z.ltb_ge in Eu.
  assert (Hh : Z.lor 55296 (Z.land (Z.shiftr (c - 65536) 10) 1023) = high_surrogate c).
  { unfold high_surrogate. rewrite land_1023, shiftr_div by lia.
    change 55296 with (54 * 2 ^ 10).
    rewrite lor_high_low by (try lia; apply Z.mod_pos_bound; lia).
    change (2 ^ 10) with 1024. rewrite Z.mod_small; [reflexivity|].
    Z.to_euclidean_division_equations. lia. }
  assert (Hl : Z.lor 56320 (Z.land (c - 65536) 1023) = low_surrogate c).
  { unfold low_surrogate. rewrite land_1023.
    change 56320 with (55 * 2 ^ 10).
    rewrite lor_high_low by (try lia; apply Z.mod_pos_bound; lia).
    reflexivity. }
  unfold backslash_u. cbv zeta. rewrite Hh, Hl. apply es_pair. lia.
Qed.

Lemma high_surrogate_range c :
  0x10000 <= c < 0x110000 -> 0xD800 <= high_surrogate c <= 0xDBFF.
Proof. unfold high_surrogate. intros. Z.to_euclidean_division_equations. lia. Qed.

Lemma low_surrogate_range c :
  0x10000 <= c < 0x110000 -> 0xDC00 <= low_surrogate c <= 0xDFFF.
Proof. unfold low_surrogate. intros. Z.to_euclidean_division_equations. lia. Qed.

Lemma surrogates_inj c d :
  high_surrogate c = high_surrogate d -> low_surrogate c = low_surrogate d -> c = d.
Proof.
  unfold high_surrogate, low_surrogate. intros.
  Z.to_euclidean_division_equations. lia.
Qed.

Lemma short_escape_inj x y :
  In x [34; 92; 110; 114; 116; 102; 98] -> In y [34; 92; 110; 114; 116; 102; 98] ->
  short_escape x = short_escape y -> x = y.
Proof.
  simpl. intros Hx Hy.
  repeat (destruct Hx as [<-|Hx]; [|]); try contradiction;
    repeat (destruct Hy as [<-|Hy]; [|]); try contradiction;
    vm_compute; congruence.
Qed.

Lemma hex4_length n : length (hex4 n) = 4%nat.
Proof. reflexivity. Qed.

Lemma hex4_app_inj n m r r' :
  0 <= n < 65536 -> 0 <= m < 65536 ->
  hex4 n ++ r = hex4 m ++ r' -> n = m /\ r = r'.
Proof.
  intros Hn Hm E. apply app_inv_same_length in E as [E1 E2]; [|reflexivity].
  split; [apply hex4_inj; assumption|assumption].
Qed.

Lemma cons_inj {A : Type} (x y : A) l l' : x :: l = y :: l' -> x = y /\ l = l'.
Proof. intros H. injection H. auto. Qed.

Ltac uncons E E0 := apply cons_inj in E; destruct E as [E0 E].

Opaque hex4.

Lemma escape_char_prefix_free c1 c2 r1 r2 :
  valid_char c1 = true -> valid_char c2 = true ->
  escape_char c1 ++ r1 = escape_char c2 ++ r2 ->
  c1 = c2 /\ r1 = r2.
Proof.
  intros V1 V2. apply valid_char_spec in V1 as [R1 N1], V2 as [R2 N2].
  pose proof (escape_char_shape c1 R1) as S1.
  pose proof (escape_char_shape c2 R2) as S2.
  destruct S1 as [P1 Q1 Q1' | x1 I1 E1 | U1 | U1];
    destruct S2 as [P2 Q2 Q2' | x2 I2 E2 | U2 | U2];
    cbn [app]; intros E; uncons E E0;
    try (exfalso; lia).
  - (* plain, plain *) auto.
  - (* short, short *) uncons E E0'. subst. auto.
  - (* short, unit *) uncons E E0'. subst x1. simpl in I1. exfalso. lia.
  - (* short, pair *) uncons E E0'. subst x1. simpl in I1. exfalso. lia.
  - (* unit, short *) uncons E E0'. subst x2. simpl in I2. exfalso. lia.
  - (* unit, unit *) uncons E E0'.
    apply hex4_app_inj in E; [tauto|lia|lia].
  - (* unit, pair *) uncons E E0'. rewrite <- app_assoc in E.
    pose proof (high_surrogate_range c2 U2).
    apply hex4_app_inj in E as [E _]; lia.
  - (* pair, short *) uncons E E0'. subst x2. simpl in I2. exfalso. lia.
  - (* pair, unit *) uncons E E0'. rewrite <- app_assoc in E.
    pose proof (high_surrogate_range c1 U1).
    apply hex4_app_inj in E as [E _]; lia.
  - (* pair, pair *) uncons E E0'. rewrite <- !app_assoc in E.
    pose proof (high_surrogate_range c1 U1). pose proof (high_surrogate_range c2 U2).
    pose proof (low_surrogate_range c1 U1). pose proof (low_surrogate_range c2 U2).
    apply hex4_app_inj in E as [Eh E]; [|lia|lia].
    cbn [app] in E. uncons E E1. uncons E E2.
    apply hex4_app_inj in E as [El E]; [|lia|lia].
    split; [apply surrogates_inj; assumption|assumption].
Qed.

Transparent hex4.

Lemma escape_char_head c :
  valid_char c = true -> exists x t, escape_char c = x :: t /\ x <> 34.
Proof.
  intros V. apply valid_char_spec in V as [R _].
  destruct (escape_char_shape c R); eexists; eexists; split;
    try reflexivity; lia.
Qed.

Lemma flat_map_escape_prefix_free s1 s2 r1 r2 :
  valid_text s1 = true -> valid_text s2 = true ->
  flat_map escape_char s1 ++ 34 :: r1 = flat_map escape_char s2 ++ 34 :: r2 ->
  s1 = s2 /\ r1 = r2.
Proof.
  revert s2. induction s1 as [|c1 s1 IH]; intros [|c2 s2] V1 V2 E;
    cbn [valid_text forallb flat_map app] in *.
  - injection E as E. auto.
  - apply andb_true_iff in V2 as [V2 _].
    destruct (escape_char_head c2 V2) as (x & t & Hx & Hne).
    rewrite Hx in E. cbn [app] in E. injection E as E0 E. congruence.
  - apply andb_true_iff in V1 as [V1 _].
    destruct (escape_char_head c1 V1) as (x & t & Hx & Hne).
    rewrite Hx in E. cbn [app] in E. injection E as E0 E. congruence.
  - apply andb_true_iff in V1 as [V1 V1'], V2 as [V2 V2'].
    rewrite <- !app_assoc in E.
    apply escape_char_prefix_free in E as [-> E]; try assumption.
    destruct (IH s2 V1' V2' E) as [-> ->]. auto.
Qed.

Lemma encode_basestring_ascii_prefix_free s1 s2 r1 r2 :
  valid_text s1 = true -> valid_text s2 = true ->
  encode_basestring_ascii s1 ++ r1 = encode_basestring_ascii s2 ++ r2 ->
  s1 = s2 /\ r1 = r2.
Proof.
  unfold encode_basestring_ascii. intros V1 V2 E.
  rewrite <- !app_assoc in E. cbn [app] in E. injection E as E.
  apply flat_map_escape_prefix_free; assumption.
Qed.

Lemma encode_basestring_ascii_head s :
  exists t, encode_basestring_ascii s = 34 :: t.
Proof. unfold encode_basestring_ascii. eexists. reflexivity. Qed.

Lemma join_strings_inj l1 :
  forall l2 r1 r2,
    valid_texts l1 = true -> valid_texts l2 = true ->
    join [44] (map encode_basestring_ascii l1) ++ 93 :: r1 =
    join [44] (map encode_basestring_ascii l2) ++ 93 :: r2 ->
    l1 = l2.
Proof.
  induction l1 as [|a l1 IH]; intros [|b l2] r1 r2 V1 V2 E.
  - reflexivity.
  - exfalso. cbn [map join] in E.
    destruct (encode_basestring_ascii_head b) as (t & Ht).
    destruct (map encode_basestring_ascii l2); rewrite Ht in E;
      cbn [app] in E; discriminate E.
  - exfalso. cbn [map join] in E.
    destruct (encode_basestring_ascii_head a) as (t & Ht).
    destruct (map encode_basestring_ascii l1); rewrite Ht in E;
      cbn [app] in E; discriminate E.
  - cbn [valid_texts forallb] in V1, V2.
    apply andb_true_iff in V1 as [Va V1], V2 as [Vb V2].
    assert (Hj : forall x l r,
               join [44] (map encode_basestring_ascii (x :: l)) ++ 93 :: r =
               encode_basestring_ascii x ++
               match l with
               | [] => 93 :: r
               | _ => 44 :: join [44] (map encode_basestring_ascii l) ++ 93 :: r
               end).
    { intros x [|y l] r; cbn [map join]; [reflexivity|].
      rewrite <- !app_assoc. reflexivity. }
    rewrite !Hj in E.
    apply encode_basestring_ascii_prefix_free in E as [-> E]; try assumption.
    f_equal. destruct l1 as [|a1 l1]; destruct l2 as [|b1 l2]; try discriminate E.
    + reflexivity.
    + injection E as E. eapply IH; eassumption.
Qed.

Lemma dumps_string_list_inj l1 l2 :
  valid_texts l1 = true -> valid_texts l2 = true ->
  dumps_compact (JList (map JStr l1)) = dumps_compact (JList (map JStr l2)) ->
  l1 = l2.
Proof.
  unfold dumps_compact. rewrite !dumps_list_eq, !map_map. intros V1 V2 E.
  cbn [app] in E. injection E as E.
  assert (Hm : forall l, map (fun x => dumps [44] [58] (JStr x)) l =
                         map encode_basestring_ascii l).
  { intros l. apply map_ext. reflexivity. }
  rewrite !Hm in E. eapply join_strings_inj; eassumption.
Qed.

(* ================================================================== *)
(** ** Decimal numbers can be told apart *)

Definition dec_value (l : pystr) : Z :=
  fold_left (fun acc c => acc * 10 + (c - 48)) l 0.

Lemma dec_value_acc l a :
  fold_left (fun acc c => acc * 10 + (c - 48)) l a =
  a * 10 ^ Z.of_nat (length l) + dec_value l.
Proof.
  unfold dec_value. revert a.
  induction l as [|x l IH]; intros a.
  - simpl. lia.
  - cbn [fold_left length]. rewrite IH. rewrite (IH (0 * 10 + (x - 48))).
    rewrite Nat2Z.inj_succ, Z.pow_succ_r by lia. ring.
Qed.

Lemma dec_value_cons x l :
  dec_value (x :: l) = (x - 48) * 10 ^ Z.of_nat (length l) + dec_value l.
Proof.
  unfold dec_value at 1. cbn [fold_left]. rewrite dec_value_acc. ring.
Qed.

Lemma dec_digits_value fuel n acc :
  0 <= n < 2 ^ Z.of_nat fuel ->
  dec_value (dec_digits fuel n acc) =
  n * 10 ^ Z.of_nat (length acc) + dec_value acc.
Proof.
  revert n acc; induction fuel as [|f IH]; intros n acc Hn.
  - simpl in *. assert (n = 0) by lia. subst. lia.
  - cbn [dec_digits]. rewrite Nat2Z.inj_succ, Z.pow_succ_r in Hn by lia.
    destruct (n <? 10) eqn:E.
    + apply Z.ltb_lt in E. rewrite dec_value_cons.
      rewrite Z.mod_small by lia. ring.
    + apply Z.ltb_ge in E. rewrite IH.
      * rewrite dec_value_cons. cbn [length].
        rewrite Nat2Z.inj_succ, Z.pow_succ_r by lia.
        pose proof (Z.div_mod n 10 ltac:(lia)). nia.
      * split; [apply Z.div_pos; lia|].
        apply Z.div_lt_upper_bound; lia.
Qed.

Lemma repr_nonneg_value n : 0 <= n -> dec_value (repr_nonneg n) = n.
Proof.
  intros Hn. unfold repr_nonneg.
  rewrite dec_digits_value by (split; [lia|apply log2_fuel; lia]).
  simpl. unfold dec_value. simpl. lia.
Qed.

Definition is_digit (c : Z) : Prop := 48 <= c <= 57.

Lemma dec_digits_digits fuel n acc :
  Forall is_digit acc -> Forall is_digit (dec_digits fuel n acc).
Proof.
  revert n acc; induction fuel as [|f IH]; intros n acc Hacc; simpl; auto.
  assert (Forall is_digit (48 + n mod 10 :: acc)).
  { constructor; auto. unfold is_digit.
    pose proof (Z.mod_pos_bound n 10 ltac:(lia)). lia. }
  destruct (n <? 10); auto.
Qed.

Lemma dec_digits_nonempty fuel n acc :
  (length acc <= length (dec_digits fuel n acc))%nat.
Proof.
  revert n acc; induction fuel as [|f IH]; intros n acc; simpl; [lia|].
  destruct (n <? 10); [simpl; lia|].
  specialize (IH (n / 10) (48 + n mod 10 :: acc)). simpl in IH. lia.
Qed.

Lemma repr_nonneg_head n :
  exists d t, repr_nonneg n = d :: t /\ Forall is_digit (d :: t).
Proof.
  pose proof (dec_digits_digits (S (Z.to_nat (Z.log2 n))) n [] (Forall_nil _)) as Hd.
  fold (repr_nonneg n) in Hd.
  destruct (repr_nonneg n) as [|d t] eqn:E.
  - exfalso. unfold repr_nonneg in E. cbn [dec_digits] in E.
    destruct (n <? 10); [discriminate|].
    pose proof (dec_digits_nonempty (Z.to_nat (Z.log2 n)) (n / 10) [48 + n mod 10]) as H.
    rewrite E in H. simpl in H. lia.
  - exists d, t. auto.
Qed.

Lemma int_repr_chars n : Forall (fun c => c = 45 \/ is_digit c) (int_repr n).
Proof.
  unfold int_repr.
  destruct (repr_nonneg_head n) as (d & t & -> & Hd).
  destruct (repr_nonneg_head (- n)) as (d' & t' & -> & Hd').
  destruct (n <? 0); [constructor; [auto|]|];
    (eapply Forall_impl; [|eassumption]); auto.
Qed.

Lemma int_repr_inj n m : int_repr n = int_repr m -> n = m.
Proof.
  unfold int_repr.
  destruct (repr_nonneg_head n) as (d1 & t1 & E1 & Hd1).
  destruct (repr_nonneg_head m) as (d2 & t2 & E2 & Hd2).
  inversion Hd1 as [|? ? Hh1 _]; inversion Hd2 as [|? ? Hh2 _]; subst.
  unfold is_digit in *.
  destruct (n <? 0) eqn:Sn; destruct (m <? 0) eqn:Sm; intros E.
  - injection E as E. apply (f_equal dec_value) in E.
    apply Z.ltb_lt in Sn, Sm. rewrite !repr_nonneg_value in E by lia. lia.
  - rewrite E2 in E. injection E as E _. lia.
  - rewrite E1 in E. injection E as E _. lia.
  - apply (f_equal dec_value) in E.
    apply Z.ltb_ge in Sn, Sm. rewrite !repr_nonneg_value in E by lia. lia.
Qed.

Lemma split_at_separator {A : Type} (c : A) l1 l2 r1 r2 :
  ~ In c l1 -> ~ In c l2 ->
  l1 ++ c :: r1 = l2 ++ c :: r2 -> l1 = l2 /\ r1 = r2.
Proof.
  revert l2. induction l1 as [|x l1 IH]; intros [|y l2] N1 N2 E; cbn [app] in E.
  - injection E as E. auto.
  - injection E as E0 E. exfalso. apply N2. left. auto.
  - injection E as E0 E. exfalso. apply N1. left. auto.
  - injection E as -> E. destruct (IH l2) as [-> ->]; auto.
    + intros H. apply N1. right. exact H.
    + intros H. apply N2. right. exact H.
Qed.

Lemma int_repr_no_comma n : ~ In 44 (int_repr n).
Proof.
  intros H. pose proof (int_repr_chars n) as Hc.
  rewrite Forall_forall in Hc. specialize (Hc 44 H).
  unfold is_digit in Hc. lia.
Qed.

(* ================================================================== *)
(** ** Hexadecimal text and UTF-8 can be told apart *)

Definition octets (b : bytes) : Prop := Forall is_byte b.

Lemma hex_pair_inj x y :
  is_byte x -> is_byte y ->
  hex_digit (Z.shiftr x 4) = hex_digit (Z.shiftr y 4) ->
  hex_digit (Z.land x 15) = hex_digit (Z.land y 15) ->
  x = y.
Proof.
  unfold is_byte. intros Hx Hy Eh El.
  rewrite !land_15 in El. rewrite !shiftr_div in Eh by lia.
  change (2 ^ 4) with 16 in Eh.
  apply hex_digit_inj in Eh;
    [|Z.to_euclidean_division_equations; lia
     |Z.to_euclidean_division_equations; lia].
  apply hex_digit_inj in El; [|apply Z.mod_pos_bound; lia|apply Z.mod_pos_bound; lia].
  Z.to_euclidean_division_equations. lia.
Qed.

Lemma hex_of_bytes_inj b1 b2 :
  octets b1 -> octets b2 -> hex_of_bytes b1 = hex_of_bytes b2 -> b1 = b2.
Proof.
  unfold hex_of_bytes. intros H1. revert b2.
  induction H1 as [|x b1 Hx Hb1 IH]; intros b2 H2 E;
    destruct H2 as [|y b2 Hy Hb2]; cbn [flat_map app] in E; try discriminate E.
  - reflexivity.
  - apply cons_inj in E as [Eh E]. apply cons_inj in E as [El E].
    f_equal; [apply hex_pair_inj; assumption|apply IH; assumption].
Qed.

Lemma hex_of_bytes_ascii b : octets b -> ascii_text (hex_of_bytes b).
Proof.
  unfold hex_of_bytes. induction 1 as [|x b Hx Hb IH]; cbn [flat_map app].
  - constructor.
  - unfold is_byte in Hx.
    assert (0 <= Z.shiftr x 4 < 16).
    { rewrite shiftr_div by lia. Z.to_euclidean_division_equations. lia. }
    pose proof (hex_digit_range (Z.shiftr x 4) ltac:(lia)).
    pose proof (hex_digit_land_ascii x).
    constructor; [lia|]. constructor; [lia|]. exact IH.
Qed.

Lemma le_bytes_octets n x : octets (le_bytes n x).
Proof.
  revert x. induction n as [|n IH]; intros x; cbn [le_bytes]; constructor.
  - unfold is_byte. rewrite land_255. apply Z.mod_pos_bound. lia.
  - apply IH.
Qed.

Lemma keccak256_octets m : octets (keccak256 m).
Proof.
  unfold keccak256, Keccak.keccak256, Keccak.squeeze, octets.
  repeat (apply Forall_app; split); apply le_bytes_octets.
Qed.

Lemma ascii_valid_text s : ascii_text s -> valid_text s = true.
Proof.
  induction 1 as [|c s Hc Hs IH]; cbn [valid_text forallb]; [reflexivity|].
  apply andb_true_iff. split; [|exact IH]. apply valid_char_spec. lia.
Qed.

Lemma valid_text_app s t :
  valid_text s = true -> valid_text t = true -> valid_text (s ++ t) = true.
Proof. unfold valid_text. intros. rewrite forallb_app. apply andb_true_iff. auto. Qed.

Lemma hash_text_valid b :
  octets b -> valid_text (lit "0x" ++ hex_of_bytes b) = true.
Proof.
  intros Hb. apply valid_text_app; [reflexivity|].
  apply ascii_valid_text, hex_of_bytes_ascii, Hb.
Qed.

Definition utf8_arith (c : Z) : bytes :=
  if c <? 0x80 then [c]
  else if c <? 0x800 then [0xC0 + c / 64; 0x80 + c mod 64]
  else if c <? 0x10000 then
    [0xE0 + c / 4096; 0x80 + (c / 64) mod 64; 0x80 + c mod 64]
  else
    [0xF0 + c / 262144; 0x80 + (c / 4096) mod 64; 0x80 + (c / 64) mod 64;
     0x80 + c mod 64].

Lemma lor_192 m : 0 <= m < 64 -> Z.lor 192 m = 192 + m.
Proof. intros H. apply (lor_high_low 3 6 m); [lia|exact H]. Qed.

Lemma lor_128 m : 0 <= m < 64 -> Z.lor 128 m = 128 + m.
Proof. intros H. apply (lor_high_low 2 6 m); [lia|exact H]. Qed.

Lemma lor_224 m : 0 <= m < 16 -> Z.lor 224 m = 224 + m.
Proof. intros H. apply (lor_high_low 14 4 m); [lia|exact H]. Qed.

Lemma lor_240 m : 0 <= m < 8 -> Z.lor 240 m = 240 + m.
Proof. intros H. apply (lor_high_low 30 3 m); [lia|exact H]. Qed.

Lemma utf8_char_arith c :
  valid_char c = true -> utf8_char c = Some (utf8_arith c).
Proof.
  intros V. apply valid_char_spec in V as [R N].
  unfold utf8_char, utf8_arith.
  destruct (c <? 0) eqn:E0; [lia|].
  destruct (c <? 128) eqn:E1; [reflexivity|].
  rewrite !land_63, !shiftr_div by lia.
  change (2 ^ 6) with 64. change (2 ^ 12) with 4096. change (2 ^ 18) with 262144.
  assert (H64 : forall z, 0 <= z mod 64 < 64) by (intros; apply Z.mod_pos_bound; lia).
  destruct (c <? 2048) eqn:E2.
  - rewrite lor_192 by (Z.to_euclidean_division_equations; lia).
    rewrite !lor_128 by apply H64. reflexivity.
  - destruct ((55296 <=? c) && (c <=? 57343)) eqn:E3; [lia|].
    destruct (c <? 65536) eqn:E4.
    + rewrite lor_224 by (Z.to_euclidean_division_equations; lia).
      rewrite !lor_128 by apply H64. reflexivity.
    + destruct (c <? 1114112) eqn:E5; [|lia].
      rewrite lor_240 by (Z.to_euclidean_division_equations; lia).
      rewrite !lor_128 by apply H64. reflexivity.
Qed.

Lemma utf8_arith_prefix_free c1 c2 r1 r2 :
  valid_char c1 = true -> valid_char c2 = true ->
  utf8_arith c1 ++ r1 = utf8_arith c2 ++ r2 -> c1 = c2 /\ r1 = r2.
Proof.
  intros V1 V2. apply valid_char_spec in V1 as [R1 N1], V2 as [R2 N2].
  unfold utf8_arith.
  destruct (c1 <? 128) eqn:A1; [|destruct (c1 <? 2048) eqn:B1;
                                  [|destruct (c1 <? 65536) eqn:C1]];
  (destruct (c2 <? 128) eqn:A2; [|destruct (c2 <? 2048) eqn:B2;
                                   [|destruct (c2 <? 65536) eqn:C2]]);
    cbn [app]; intros E;
    repeat (let H := fresh "Eb" in apply cons_inj in E; destruct E as [H E]);
    first [ exfalso; Z.to_euclidean_division_equations; lia
          | split; [Z.to_euclidean_division_equations; lia|exact E] ].
Qed.

Lemma utf8_encode_valid s b : utf8_encode s = Some b -> valid_text s = true.
Proof.
  revert b. induction s as [|c s IH]; intros b H; [reflexivity|].
  cbn [utf8_encode] in H. cbn [valid_text forallb].
  destruct (utf8_char c) as [x|] eqn:Ec; [|discriminate].
  destruct (utf8_encode s) as [r|] eqn:Es; [|discriminate].
  apply andb_true_iff. split; [|exact (IH r eq_refl)].
  apply valid_char_spec. unfold utf8_char in Ec.
  destruct (c <? 0) eqn:E0; [discriminate|].
  destruct (c <? 128) eqn:E1; [lia|].
  destruct (c <? 2048) eqn:E2; [lia|].
  destruct ((55296 <=? c) && (c <=? 57343)) eqn:E3; [discriminate|].
  destruct (c <? 65536) eqn:E4; [lia|].
  destruct (c <? 1114112) eqn:E5; [lia|discriminate].
Qed.

Lemma utf8_encode_some s :
  valid_text s = true -> exists b, utf8_encode s = Some b.
Proof.
  induction s as [|c s IH]; intros V; [exists []; reflexivity|].
  cbn [valid_text forallb] in V. apply andb_true_iff in V as [Vc Vs].
  destruct (IH Vs) as (r & Hr). cbn [utf8_encode].
  rewrite (utf8_char_arith c Vc), Hr. eexists. reflexivity.
Qed.

Lemma utf8_encode_inj s1 s2 b :
  utf8_encode s1 = Some b -> utf8_encode s2 = Some b -> s1 = s2.
Proof.
  revert s2 b. induction s1 as [|c1 s1 IH]; intros [|c2 s2] b H1 H2.
  - reflexivity.
  - exfalso. pose proof (utf8_encode_valid _ _ H2) as V.
    cbn [valid_text forallb] in V. apply andb_true_iff in V as [Vc _].
    cbn [utf8_encode] in H1, H2. rewrite (utf8_char_arith c2 Vc) in H2.
    destruct (utf8_encode s2); [|discriminate]. injection H1 as <-.
    unfold utf8_arith in H2.
    repeat match type of H2 with
           | context [if ?c then _ else _] => destruct c
           end; discriminate H2.
  - exfalso. pose proof (utf8_encode_valid _ _ H1) as V.
    cbn [valid_text forallb] in V. apply andb_true_iff in V as [Vc _].
    cbn [utf8_encode] in H1, H2. rewrite (utf8_char_arith c1 Vc) in H1.
    destruct (utf8_encode s1); [|discriminate]. injection H2 as <-.
    unfold utf8_arith in H1.
    repeat match type of H1 with
           | context [if ?c then _ else _] => destruct c
           end; discriminate H1.
  - pose proof (utf8_encode_valid _ _ H1) as V1.
    pose proof (utf8_encode_valid _ _ H2) as V2.
    cbn [valid_text forallb] in V1, V2.
    apply andb_true_iff in V1 as [Vc1 _], V2 as [Vc2 _].
    cbn [utf8_encode] in H1, H2.
    rewrite (utf8_char_arith c1 Vc1) in H1. rewrite (utf8_char_arith c2 Vc2) in H2.
    destruct (utf8_encode s1) as [r1|] eqn:E1; [|discriminate].
    destruct (utf8_encode s2) as [r2|] eqn:E2; [|discriminate].
    injection H1 as <-. injection H2 as H2.
    apply utf8_arith_prefix_free in H2 as [-> ->]; try assumption.
    f_equal. eapply IH; [reflexivity|exact E2].
Qed.

(* ================================================================== *)
(** ** The combined commitment binds what it is composed from *)

Lemma dumps_string_list_prefix_free l1 l2 r1 r2 :
  valid_texts l1 = true -> valid_texts l2 = true ->
  dumps_compact (JList (map JStr l1)) ++ r1 =
  dumps_compact (JList (map JStr l2)) ++ r2 ->
  l1 = l2.
Proof.
  unfold dumps_compact. rewrite !dumps_list_eq, !map_map. intros V1 V2 E.
  rewrite <- !app_assoc in E. cbn [app] in E. injection E as E.
  assert (Hm : forall l, map (fun x => dumps [44] [58] (JStr x)) l =
                         map encode_basestring_ascii l).
  { intros l. apply map_ext. reflexivity. }
  rewrite !Hm in E. eapply join_strings_inj; eassumption.
Qed.

Lemma utc_isoformat_some t :
  valid_timestamp t = true -> exists iso, utc_isoformat t = Some iso.
Proof.
  unfold valid_timestamp, utc_isoformat. intros H.
  destruct ((t <? MIN_TIMESTAMP) || (MAX_TIMESTAMP <? t)) eqn:E; [lia|].
  destruct (civil_from_days (t / 86400)) as [[y m] d]. eexists. reflexivity.
Qed.

Lemma action_anchor_payload_ascii a cb s t iso :
  ascii_text (action_anchor_payload a cb s t iso).
Proof. apply dumps_compact_ascii. Qed.

(** The composition succeeds on valid inputs, and what it returns. *)
Lemma compose_some x :
  valid_inputs x = true ->
  exists cb iso,
    utf8_encode (work_product_content (args x)) = Some cb /\
    utc_isoformat (clock x) = Some iso /\
    compose x =
    Some (mkActionAnchor (keccak256 cb) (state_commitment x) (clock x)
            (action_anchor_payload (args x) cb (state_commitment x) (clock x) iso)
            (keccak256
               (action_anchor_payload (args x) cb (state_commitment x) (clock x) iso))
            (action_state_uri (args x) (clock x))).
Proof.
  unfold valid_inputs, valid_action_args. intros H.
  repeat (apply andb_true_iff in H as [H ?]).
  destruct (utf8_encode_some _ H) as (cb & Hcb).
  destruct (utc_isoformat_some (clock x)) as (iso & Hiso); [assumption|].
  exists cb, iso. split; [exact Hcb|]. split; [exact Hiso|].
  unfold compose, compose_action. rewrite Hcb, Hiso.
  rewrite keccak_text_ascii by apply action_anchor_payload_ascii. reflexivity.
Qed.

Ltac strip_common_prefix E :=
  repeat first [ apply app_inv_head in E
               | progress (cbn [app] in E) ].

Lemma payload_binding a a' cb cb' s s' t t' iso iso' :
  one_change (mkActionInputs a s t) (mkActionInputs a' s' t') ->
  valid_inputs (mkActionInputs a s t) = true ->
  valid_inputs (mkActionInputs a' s' t') = true ->
  utf8_encode (work_product_content a) = Some cb ->
  utf8_encode (work_product_content a') = Some cb' ->
  utc_isoformat t = Some iso ->
  utc_isoformat t' = Some iso' ->
  (cb <> cb' -> keccak256 cb <> keccak256 cb') ->
  action_anchor_payload a cb s t iso <> action_anchor_payload a' cb' s' t' iso'.
Proof.
  intros Hch V V' Hcb Hcb' Hiso Hiso' Hk E.
  unfold valid_inputs, valid_action_args in V, V'. cbn [args state_commitment clock] in V, V'.
  repeat (apply andb_true_iff in V as [V ?]).
  repeat (apply andb_true_iff in V' as [V' ?]).
  rewrite !action_anchor_payload_shape in E.
  inversion Hch; subst;
    cbn [with_content with_description with_collaborators token_id
         work_product_content content_type description creator_agent_id
         creator_name collaborators anchor_type] in *.
  - (* content *)
    assert (iso' = iso) by congruence. subst iso'.
    strip_common_prefix E.
    apply encode_basestring_ascii_prefix_free in E as [E _];
      try (apply hash_text_valid, keccak256_octets).
    apply app_inv_head in E.
    apply hex_of_bytes_inj in E; try apply keccak256_octets.
    revert E. apply Hk. intros ->.
    match goal with H : _ <> _ |- _ => apply H end.
    eapply utf8_encode_inj; eassumption.
  - (* creator state commitment *)
    assert (iso' = iso) by congruence. subst iso'.
    assert (cb' = cb) by congruence. subst cb'.
    strip_common_prefix E.
    apply encode_basestring_ascii_prefix_free in E as [E _]; try assumption.
    congruence.
  - (* timestamp *)
    assert (cb' = cb) by congruence. subst cb'.
    strip_common_prefix E.
    change (litq ",'timestamp_iso':") with (44 :: litq "'timestamp_iso':") in E.
    cbn [app] in E.
    apply split_at_separator in E as [E _]; try apply int_repr_no_comma.
    apply int_repr_inj in E. congruence.
  - (* description *)
    assert (iso' = iso) by congruence. subst iso'.
    assert (cb' = cb) by congruence. subst cb'.
    strip_common_prefix E.
    apply encode_basestring_ascii_prefix_free in E as [E _]; try assumption.
    congruence.
  - (* collaborators *)
    assert (iso' = iso) by congruence. subst iso'.
    assert (cb' = cb) by congruence. subst cb'.
    strip_common_prefix E.
    apply dumps_string_list_prefix_free in E; try assumption.
    congruence.
Qed.

Lemma bytes_eq_dec (a b : bytes) : {a = b} + {a <> b}.
Proof. apply (list_eq_dec Z.eq_dec). Qed.


Definition sample_action_args : ActionArgs :=
  mkActionArgs 2 (lit "# Self-Sovereign Agent Standard") (lit "text/markdown")
               (lit "EIP draft") (lit "agent-bef59af5") (lit "Kieran")
               [lit "Michael Alan Ruderman"] (lit "authorship").



(* ================================================================== *)
(** ** No anchored creator state *)

Lemma zero_state_hash_eq :
  zero_state_hash = lit "0x" ++ hex_of_bytes (repeat 0 32).
Proof. vm_compute. reflexivity. Qed.

Lemma lookup_creator_state_hash_raise W tok rt e :
  getStateAnchor W tok = Raise e ->
  lookup_creator_state_hash W tok rt =
  (Ok zero_state_hash, mkRuntime (service rt) (trace rt ++ [EvGetStateAnchor tok])).
Proof.
  intros H. unfold lookup_creator_state_hash, try_except, bind, request, ret.
  rewrite H. reflexivity.
Qed.

Lemma lookup_creator_state_hash_ok W tok rt h uri t :
  getStateAnchor W tok = Ok (h, uri, t) ->
  lookup_creator_state_hash W tok rt =
  (Ok (lit "0x" ++ hex_of_bytes h),
   mkRuntime (service rt) (trace rt ++ [EvGetStateAnchor tok])).
Proof.
  intros H. unfold lookup_creator_state_hash, try_except, bind, request, ret.
  rewrite H. reflexivity.
Qed.

(** C6.  When the lookup of the creator's anchored state raises, step 2
    of anchor_action_via_pkp yields the all-zero text ("0x" and 64 zeros, the
    hexadecimal form of 32 zero octets) and the call goes on: for a token id
    that the log line can format, valid text arguments and a valid clock
    reading it composes an anchor whose creator state commitment is that
    sentinel, and continues with building the transaction for its combined
    commitment.  The same call in an environment that differs in that the
    lookup returns a real, non-zero 32-octet state hash records the text of
    that hash instead, and the two combined commitments differ, the two
    payloads not being a Keccak-256 collision. *)
Theorem missing_creator_state_uses_zero_sentinel
    (W W' : World) (a : ActionArgs) (api_key : option pystr) (rt : Runtime)
    (e : exn) (real : bytes) (uri : pystr) (ts : Z) :
  verify_api_key W (effective_key W api_key) = Ok true ->
  verify_api_key W' (effective_key W' api_key) = Ok true ->
  time_time W' = time_time W ->
  getStateAnchor W (token_id a) = Raise e ->
  getStateAnchor W' (token_id a) = Ok (real, uri, ts) ->
  formattable_int (token_id a) ->
  valid_action_args a = true ->
  valid_timestamp (time_time W) = true ->
  octets real -> length real = 32%nat -> real <> repeat 0 32 ->
  ~ collide (payload_octets (mkActionInputs a zero_state_hash (time_time W)))
            (payload_octets
               (mkActionInputs a (lit "0x" ++ hex_of_bytes real) (time_time W))) ->
  let rt1 := mkRuntime (service rt) (trace rt ++ [EvGetStateAnchor (token_id a)]) in
  lookup_creator_state_hash W (token_id a) rt = (Ok zero_state_hash, rt1) /\
  lookup_creator_state_hash W' (token_id a) rt =
    (Ok (lit "0x" ++ hex_of_bytes real), rt1) /\
  zero_state_hash = lit "0x" ++ hex_of_bytes (repeat 0 32) /\
  exists anchor anchor',
    compose_action a zero_state_hash (time_time W) = Some anchor /\
    creator_state_hash anchor = zero_state_hash /\
    anchor_action_via_pkp W a api_key rt =
      try_except
        (bind (build_anchor_transaction W (token_id a) (combined_anchor_hash anchor)
                 (anchor_state_uri anchor))
              (fun tx => sign_and_submit W tx (Some anchor)))
        (fun e => ret (Failed e)) rt1 /\
    creator_state_hash anchor' = lit "0x" ++ hex_of_bytes real /\
    anchor_action_via_pkp W' a api_key rt =
      try_except
        (bind (build_anchor_transaction W' (token_id a) (combined_anchor_hash anchor')
                 (anchor_state_uri anchor'))
              (fun tx => sign_and_submit W' tx (Some anchor')))
        (fun e => ret (Failed e)) rt1 /\
    combined_commitment
      (mkActionInputs a (lit "0x" ++ hex_of_bytes real) (time_time W)) =
      Some (combined_anchor_hash anchor') /\
    combined_anchor_hash anchor <> combined_anchor_hash anchor'.
Proof.
  intros Hauth Hauth' Ht Hraise Hreal _ Va Vt Ho Hl Hnz Hcol rt1. subst rt1.
  split; [apply lookup_creator_state_hash_raise with (e := e); exact Hraise|].
  split; [apply lookup_creator_state_hash_ok with (uri := uri) (t := ts); exact Hreal|].
  split; [apply zero_state_hash_eq|].
  set (x0 := mkActionInputs a zero_state_hash (time_time W)) in *.
  set (x1 := mkActionInputs a (lit "0x" ++ hex_of_bytes real) (time_time W)) in *.
  assert (V0 : valid_inputs x0 = true).
  { unfold valid_inputs. cbn [args state_commitment clock x0].
    rewrite Va, Vt. reflexivity. }
  assert (V1 : valid_inputs x1 = true).
  { unfold valid_inputs. cbn [args state_commitment clock x1].
    rewrite Va, Vt, (hash_text_valid real Ho). reflexivity. }
  destruct (compose_some x0 V0) as (cb & iso & Hcb & Hiso & Hx0).
  destruct (compose_some x1 V1) as (cb' & iso' & Hcb' & Hiso' & Hx1).
  cbn [args state_commitment clock x0 x1] in Hcb, Hcb', Hiso, Hiso'.
  rewrite Hcb in Hcb'. injection Hcb' as <-.
  rewrite Hiso in Hiso'. injection Hiso' as <-.
  unfold compose in Hx0, Hx1. cbn [args state_commitment clock x0 x1] in Hx0, Hx1.
  match type of Hx0 with _ = Some ?v0 => exists v0 end.
  match type of Hx1 with _ = Some ?v1 => exists v1 end.
  split; [exact Hx0|]. split; [reflexivity|].
  split; [|split; [|split; [|split]]].
  - unfold anchor_action_via_pkp, bind, lift, try_except.
    rewrite Hauth. cbn [negb]. unfold keccak_text. rewrite Hcb.
    cbn [option_map of_option].
    rewrite (lookup_creator_state_hash_raise W (token_id a) rt e Hraise).
    rewrite Hx0. cbn [of_option]. reflexivity.
  - reflexivity.
  - unfold anchor_action_via_pkp, bind, lift, try_except.
    rewrite Hauth'. cbn [negb]. unfold keccak_text. rewrite Hcb.
    cbn [option_map of_option].
    rewrite (lookup_creator_state_hash_ok W' (token_id a) rt real uri ts Hreal).
    rewrite Ht, Hx1. cbn [of_option]. reflexivity.
  - unfold combined_commitment, compose. cbn [args state_commitment clock x1].
    rewrite Hx1. reflexivity.
  - cbn [combined_anchor_hash]. intros Hk. apply Hcol.
    unfold payload_octets, compose. cbn [args state_commitment clock x0 x1].
    rewrite Hx0, Hx1. cbn [anchor_payload].
    rewrite !utf8_encode_ascii by apply action_anchor_payload_ascii.
    split; [|exact Hk].
    apply (payload_binding a a cb cb zero_state_hash (lit "0x" ++ hex_of_bytes real)
             (time_time W) (time_time W) iso iso); try assumption.
    + apply change_state_commitment. rewrite zero_state_hash_eq. intros E.
      apply app_inv_head in E. apply hex_of_bytes_inj in E; try assumption.
      * congruence.
      * apply Forall_forall. intros z Hz. apply repeat_spec in Hz. subst. unfold is_byte. lia.
    + congruence.
Qed.

Lemma missing_creator_state_uses_zero_sentinel_witness :
  let W := sample_world in
  let real := repeat 171 32%nat in
  let W' :=
    with_getStateAnchor sample_world
      (fun _ => Ok (real, lit "ipfs://state", 1699999000)) in
  let a := sample_action_args in
  let key := Some (lit "kU3x-secret-key") in
  let rt1 :=
    mkRuntime (service initial_runtime)
              (trace initial_runtime ++ [EvGetStateAnchor (token_id a)]) in
  lookup_creator_state_hash W (token_id a) initial_runtime =
    (Ok zero_state_hash, rt1) /\
  lookup_creator_state_hash W' (token_id a) initial_runtime =
    (Ok (lit "0x" ++ hex_of_bytes real), rt1) /\
  zero_state_hash = lit "0x" ++ hex_of_bytes (repeat 0 32) /\
  exists anchor anchor',
    compose_action a zero_state_hash (time_time W) = Some anchor /\
    creator_state_hash anchor = zero_state_hash /\
    anchor_action_via_pkp W a key initial_runtime =
      try_except
        (bind (build_anchor_transaction W (token_id a) (combined_anchor_hash anchor)
                 (anchor_state_uri anchor))
              (fun tx => sign_and_submit W tx (Some anchor)))
        (fun e => ret (Failed e)) rt1 /\
    creator_state_hash anchor' = lit "0x" ++ hex_of_bytes real /\
    anchor_action_via_pkp W' a key initial_runtime =
      try_except
        (bind (build_anchor_transaction W' (token_id a) (combined_anchor_hash anchor')
                 (anchor_state_uri anchor'))
              (fun tx => sign_and_submit W' tx (Some anchor')))
        (fun e => ret (Failed e)) rt1 /\
    combined_commitment
      (mkActionInputs a (lit "0x" ++ hex_of_bytes real) (time_time W)) =
      Some (combined_anchor_hash anchor') /\
    combined_anchor_hash anchor <> combined_anchor_hash anchor'.
Proof.
  intros W real W' a key.
  apply (missing_creator_state_uses_zero_sentinel W W' a key initial_runtime
           (External (lit "execution reverted")) real (lit "ipfs://state")
           1699999000).
  - reflexivity.
  - reflexivity.
  - reflexivity.
  - reflexivity.
  - reflexivity.
  - vm_compute. reflexivity.
  - reflexivity.
  - reflexivity.
  - apply Forall_forall. intros z Hz. apply repeat_spec in Hz. subst.
    unfold is_byte. lia.
  - reflexivity.
  - discriminate.
  - vm_compute. intros [_ H]. discriminate H.
Defined.

(* ================================================================== *)
(** ** The signing session *)

(** What every reachable state of the service satisfies: capability tokens
    are only held together with their expiry and a connected client. *)
Definition service_invariant (s : Service) : Prop :=
  session_sigs s <> None -> session_expiry s <> None /\ client s <> None.

Lemma initial_service_invariant : service_invariant initial_service.
Proof. intros H. exfalso. apply H. reflexivity. Qed.

Lemma ensure_connected_cached W rt sg e :
  client (service rt) <> None ->
  session_sigs (service rt) = Some sg ->
  session_expiry (service rt) = Some e ->
  utcnow W < e ->
  ensure_connected W rt = (Ok true, rt).
Proof.
  intros Hc Hs He Hnow.
  unfold ensure_connected, bind, get_service, ret.
  cbn [service]. destruct (client (service rt)) as [c|] eqn:Ec; [|congruence].
  cbn [service]. rewrite Hs, He.
  destruct (e <=? utcnow W) eqn:E; [apply Z.leb_le in E; lia|].
  reflexivity.
Qed.

Lemma ensure_connected_refresh W rt result :
  lit_connect W = Ok tt ->
  DEPLOYER_PRIVATE_KEY W <> None ->
  utcnow W + HOUR <= MAX_DATETIME ->
  get_session_sigs W ((utcnow W + HOUR) / 1000000) = Ok result ->
  success result = true ->
  (session_sigs (service rt) = None \/
   exists e, session_expiry (service rt) = Some e /\ e <= utcnow W) ->
  ensure_connected W rt =
  (Ok true,
   mkRuntime
     (mkService (Some tt) (sessionSigs result) (Some (utcnow W + 55 * MINUTE)))
     (trace rt ++
      match client (service rt) with Some _ => [] | None => [EvLitConnect] end ++
      [EvGetSessionSigs ((utcnow W + HOUR) / 1000000)])).
Proof.
  intros Hconn Hkey Hmax Hsigs Hok Hstale.
  assert (Hcond :
    (match session_sigs (service rt) with None => true | Some _ => false end
     || match session_expiry (service rt) with
        | Some e => e <=? utcnow W
        | None => false
        end) = true).
  { destruct Hstale as [->|(e & -> & Hle)]; [reflexivity|].
    apply orb_true_iff. right. apply Z.leb_le. exact Hle. }
  unfold ensure_connected, bind, get_service, ret, put_service, request, raise, lift.
  cbn [service trace].
  destruct (DEPLOYER_PRIVATE_KEY W) as [pk|] eqn:Ek; [|congruence].
  unfold requested_expiration.
  destruct (utcnow W + HOUR <=? MAX_DATETIME) eqn:Em; [|apply Z.leb_gt in Em; lia].
  destruct (client (service rt)) as [[]|] eqn:Ec; cbn [service trace session_sigs session_expiry client].
  - rewrite Hcond. rewrite Hsigs, Hok.
    cbn [negb app service trace session_sigs session_expiry client].
    rewrite Ec. reflexivity.
  - rewrite Hconn. cbn [service trace session_sigs session_expiry client].
    rewrite Hcond. rewrite Hsigs, Hok.
    cbn [negb service trace session_sigs session_expiry client].
    rewrite <- app_assoc. reflexivity.
Qed.

(** A failed authorization raises and leaves the stored session as it was. *)
Lemma ensure_connected_denied W rt result c :
  client (service rt) = Some c ->
  session_sigs (service rt) = None ->
  utcnow W + HOUR <= MAX_DATETIME ->
  get_session_sigs W ((utcnow W + HOUR) / 1000000) = Ok result ->
  success result = false ->
  ensure_connected W rt =
  (Raise SessionSigsFailed,
   mkRuntime (service rt)
             (trace rt ++ [EvGetSessionSigs ((utcnow W + HOUR) / 1000000)])).
Proof.
  intros Hc Hs Hmax Hsigs Hok.
  unfold ensure_connected, bind, get_service, ret, put_service, request, raise, lift.
  cbn [service trace]. rewrite Hc. cbn [service]. rewrite Hs. cbn [orb].
  unfold requested_expiration.
  destruct (utcnow W + HOUR <=? MAX_DATETIME) eqn:Em; [|apply Z.leb_gt in Em; lia].
  rewrite Hsigs, Hok. reflexivity.
Qed.

(** C7.  ensure_connected returns at once, with no request and no change
    of state, when tokens are cached and the clock is before the stored
    expiry; otherwise (no tokens, or the stored expiry reached) it asks for a
    fresh authorization that expires one hour from now - after connecting
    first when there is no client - and stores the tokens with an expiry of
    now plus 55 minutes, five minutes before the hour asked for (less than
    one second is lost to the whole-second form of the request).  A second
    call before that stored expiry is the cached case again. *)
Theorem ensure_connected_spec (W : World) (rt : Runtime)
    (result : SessionSigsResult) :
  service_invariant (service rt) ->
  lit_connect W = Ok tt ->
  DEPLOYER_PRIVATE_KEY W <> None ->
  utcnow W + HOUR <= MAX_DATETIME ->
  get_session_sigs W ((utcnow W + HOUR) / 1000000) = Ok result ->
  success result = true ->
  let now := utcnow W in
  let refreshed :=
    mkRuntime
      (mkService (Some tt) (sessionSigs result) (Some (now + 55 * MINUTE)))
      (trace rt ++
       match client (service rt) with Some _ => [] | None => [EvLitConnect] end ++
       [EvGetSessionSigs ((now + HOUR) / 1000000)]) in
  (forall sg e,
      session_sigs (service rt) = Some sg ->
      session_expiry (service rt) = Some e ->
      now < e ->
      ensure_connected W rt = (Ok true, rt)) /\
  ((session_sigs (service rt) = None \/
    exists e, session_expiry (service rt) = Some e /\ e <= now) ->
   ensure_connected W rt = (Ok true, refreshed)) /\
  (now + 55 * MINUTE = now + HOUR - 5 * MINUTE /\
   5 * MINUTE - 1000000 < (now + HOUR) / 1000000 * 1000000 - (now + 55 * MINUTE)
     <= 5 * MINUTE) /\
  service_invariant (service refreshed) /\
  (forall W' sg,
      sessionSigs result = Some sg ->
      utcnow W' < now + 55 * MINUTE ->
      ensure_connected W' refreshed = (Ok true, refreshed)).
Proof.
  intros Hinv Hconn Hkey Hmax Hsigs Hok now refreshed.
  split; [|split; [|split; [|split]]].
  - intros sg e Hs He Hlt.
    apply (ensure_connected_cached W rt sg e); try assumption.
    apply Hinv. congruence.
  - intros Hstale. apply ensure_connected_refresh; assumption.
  - unfold HOUR, MINUTE. split; [lia|].
    Z.to_euclidean_division_equations. lia.
  - intros _. subst refreshed. cbn [service session_expiry client].
    split; discriminate.
  - intros W' sg Hsg Hlt.
    subst refreshed.
    apply (ensure_connected_cached W' _ sg (now + 55 * MINUTE));
      cbn [service client session_sigs session_expiry];
      try assumption; try discriminate; reflexivity.
Qed.

Lemma ensure_connected_spec_witness :
  let W := sample_world in
  let rt := initial_runtime in
  let result := mkSessionSigsResult true (Some (lit "session-sigs")) in
  let now := utcnow W in
  let refreshed :=
    mkRuntime
      (mkService (Some tt) (sessionSigs result) (Some (now + 55 * MINUTE)))
      (trace rt ++
       match client (service rt) with Some _ => [] | None => [EvLitConnect] end ++
       [EvGetSessionSigs ((now + HOUR) / 1000000)]) in
  (forall sg e,
      session_sigs (service rt) = Some sg ->
      session_expiry (service rt) = Some e ->
      now < e ->
      ensure_connected W rt = (Ok true, rt)) /\
  ((session_sigs (service rt) = None \/
    exists e, session_expiry (service rt) = Some e /\ e <= now) ->
   ensure_connected W rt = (Ok true, refreshed)) /\
  (now + 55 * MINUTE = now + HOUR - 5 * MINUTE /\
   5 * MINUTE - 1000000 < (now + HOUR) / 1000000 * 1000000 - (now + 55 * MINUTE)
     <= 5 * MINUTE) /\
  service_invariant (service refreshed) /\
  (forall W' sg,
      sessionSigs result = Some sg ->
      utcnow W' < now + 55 * MINUTE ->
      ensure_connected W' refreshed = (Ok true, refreshed)).
Proof.
  intros W rt result.
  apply (ensure_connected_spec W rt result).
  - apply initial_service_invariant.
  - reflexivity.
  - discriminate.
  - vm_compute. discriminate.
  - reflexivity.
  - reflexivity.
Defined.

(* ================================================================== *)
(** ** Gas limit and simulation *)

(** A computation that never asks the chain to simulate a transaction. *)
Definition never_simulates {A : Type} (m : M A) : Prop :=
  forall rt, simulations (trace (snd (m rt))) = simulations (trace rt).

Lemma never_simulates_ret {A} (a : A) : never_simulates (ret a).
Proof. intros rt. reflexivity. Qed.

Lemma never_simulates_raise {A} e : never_simulates (@raise A e).
Proof. intros rt. reflexivity. Qed.

Lemma never_simulates_lift {A} (o : outcome A) : never_simulates (lift o).
Proof. intros rt. reflexivity. Qed.

Lemma never_simulates_get_service : never_simulates get_service.
Proof. intros rt. reflexivity. Qed.

Lemma never_simulates_put_service s : never_simulates (put_service s).
Proof. intros rt. reflexivity. Qed.

Lemma never_simulates_bind {A B} (m : M A) (k : A -> M B) :
  never_simulates m -> (forall a, never_simulates (k a)) ->
  never_simulates (bind m k).
Proof.
  intros Hm Hk rt. unfold bind. specialize (Hm rt).
  destruct (m rt) as [[a|e] rt']; cbn [snd] in *.
  - rewrite (Hk a rt'). exact Hm.
  - exact Hm.
Qed.

Lemma never_simulates_try_except {A} (m : M A) (h : exn -> M A) :
  never_simulates m -> (forall e, never_simulates (h e)) ->
  never_simulates (try_except m h).
Proof.
  intros Hm Hh rt. unfold try_except. specialize (Hm rt).
  destruct (m rt) as [[a|e] rt']; cbn [snd] in *.
  - exact Hm.
  - rewrite (Hh e rt'). exact Hm.
Qed.

Lemma never_simulates_request {A} ev (answer : outcome A) :
  match ev with EvEstimateGas _ => False | _ => True end ->
  never_simulates (request ev answer).
Proof.
  intros Hev rt. unfold request, simulations. cbn [snd trace].
  rewrite flat_map_app. destruct ev; try contradiction; cbn; apply app_nil_r.
Qed.

Ltac never_simulates_step :=
  first
    [ apply never_simulates_ret
    | apply never_simulates_raise
    | apply never_simulates_lift
    | apply never_simulates_get_service
    | apply never_simulates_put_service
    | apply never_simulates_request; exact I
    | apply never_simulates_bind; [|intros ?]
    | apply never_simulates_try_except; [|intros ?]
    | match goal with
      | |- never_simulates (match ?x with _ => _ end) => destruct x
      | |- never_simulates (if ?b then _ else _) => destruct b
      end ].

Lemma never_simulates_ensure_connected W : never_simulates (ensure_connected W).
Proof. unfold ensure_connected. repeat never_simulates_step. Qed.

Lemma never_simulates_build_anchor_transaction W tok h uri :
  never_simulates (build_anchor_transaction W tok h uri).
Proof. unfold build_anchor_transaction. repeat never_simulates_step. Qed.

Lemma never_simulates_sign_and_submit W tx anchor :
  never_simulates (sign_and_submit W tx anchor).
Proof.
  unfold sign_and_submit, sign_with_pkp.
  repeat first [ apply never_simulates_ensure_connected | never_simulates_step ].
Qed.

Lemma never_simulates_anchor_state_via_pkp W tok h uri key :
  never_simulates (anchor_state_via_pkp W tok h uri key).
Proof.
  unfold anchor_state_via_pkp.
  repeat first [ apply never_simulates_build_anchor_transaction
               | apply never_simulates_sign_and_submit
               | never_simulates_step ].
Qed.

Lemma never_simulates_anchor_action_via_pkp W a key :
  never_simulates (anchor_action_via_pkp W a key).
Proof.
  unfold anchor_action_via_pkp, lookup_creator_state_hash.
  repeat first [ apply never_simulates_build_anchor_transaction
               | apply never_simulates_sign_and_submit
               | never_simulates_step ].
Qed.

Definition sample_state_hash : pystr :=
  lit "0xabababababababababababababababababababababababababababababababab".

(** In an environment where every simulation reverts the server tool still
    signs and broadcasts: it never simulates, and learns of the revert from
    the receipt. *)
Lemma doomed_transaction_is_signed :
  let r := anchor_state_via_pkp sample_world 2 sample_state_hash (lit "test://x")
             (Some (lit "kU3x-secret-key")) initial_runtime in
  (forall tx, estimate_gas sample_world tx = Raise (External (lit "execution reverted"))) /\
  fst r = Ok (TransactionReverted (lit "AttributeDict({...})")) /\
  length (signing_requests (trace (snd r))) = 1%nat /\
  length (broadcasts (trace (snd r))) = 1%nat /\
  simulations (trace (snd r)) = [].
Proof.
  intros r. split; [reflexivity|]. vm_compute. auto.
Qed.

Lemma build_anchor_transaction_ok W tok h uri rt pkp c n bf data :
  PKP_ETH_ADDRESS W = Some pkp ->
  CONTRACT_ADDRESS W = Some c ->
  get_transaction_count W pkp = Ok n ->
  get_block_baseFeePerGas W = Ok bf ->
  encode_abi W tok h uri = Ok data ->
  build_anchor_transaction W tok h uri rt =
  (Ok (mkTx c 0 data 200000 (bf * 2 + 1000000000) 1000000000 n CHAIN_ID 2),
   mkRuntime (service rt)
     (trace rt ++ [EvGetTransactionCount pkp; EvGetBlock; EvEncodeAbi tok h uri])).
Proof.
  intros Hp Hc Hn Hb Hd.
  unfold build_anchor_transaction, bind, request, ret.
  rewrite Hp, Hn. cbn [service trace]. rewrite Hb. cbn [service trace].
  rewrite Hd, Hc. cbn [service trace]. rewrite <- !app_assoc. reflexivity.
Qed.

(** The state URI of anchor_my_state. *)
Definition agent_state_uri (agent_id : pystr) (state_hash : bytes) : pystr :=
  lit "letta://" ++ agent_id ++ lit "/state/" ++ firstn 16 (hex_of_bytes state_hash).

(** C8, as the code has it.  anchor_my_state takes the gas limit from a
    simulation (estimate_gas) of the built transaction: when the simulation
    raises, the tool returns an error text and nothing has been signed or
    broadcast; when it returns, the transaction handed to the signer carries
    that gas limit.  The server's build_anchor_transaction sets the fixed gas
    limit 200000, and neither it nor the two server tools ever simulate. *)
Theorem gas_limit_policy (W : World) (agent_id : pystr) (tok : Z)
    (include_archival : bool) (rt : Runtime) (c k : Z) (cs ks : pystr)
    (state : json) (executor : pystr) (nonce : Z) (tx : Tx) :
  CONTRACT_ADDRESS W = Some (c :: cs) ->
  AGENT_EXECUTOR_PRIVATE_KEY W = Some (k :: ks) ->
  export_state W agent_id include_archival = Ok state ->
  account_from_key W (k :: ks) = Ok executor ->
  get_transaction_count W executor = Ok nonce ->
  build_transaction W tok (keccak256 (dumps_compact state))
    (agent_state_uri agent_id (keccak256 (dumps_compact state))) nonce = Ok tx ->
  let h := keccak256 (dumps_compact state) in
  let before_simulation :=
    trace rt ++ [EvLettaExport agent_id; EvGetTransactionCount executor;
                 EvBuildTransaction tok h (agent_state_uri agent_id h)] in
  (forall e,
      estimate_gas W tx = Raise e ->
      anchor_my_state W agent_id tok include_archival rt =
      (Ok (ErrorText e),
       mkRuntime (service rt) (before_simulation ++ [EvEstimateGas tx]))) /\
  (forall gas base_fee,
      estimate_gas W tx = Ok gas ->
      get_block_baseFeePerGas W = Ok base_fee ->
      let r := anchor_my_state W agent_id tok include_archival rt in
      simulations (trace (snd r)) = simulations (trace rt) ++ [tx] /\
      local_signings (trace (snd r)) =
        local_signings (trace rt) ++
        [mkTx (tx_to tx) (tx_value tx) (tx_data tx) gas
              (base_fee * 2 + 1000000) 1000000
              (tx_nonce tx) (tx_chainId tx) (tx_type tx)]) /\
  (forall tok' state_hash state_uri rt' tx',
      fst (build_anchor_transaction W tok' state_hash state_uri rt') = Ok tx' ->
      tx_gas tx' = 200000) /\
  (forall tok' state_hash state_uri api_key,
      never_simulates (anchor_state_via_pkp W tok' state_hash state_uri api_key)) /\
  (forall a api_key, never_simulates (anchor_action_via_pkp W a api_key)).
Proof.
  intros Hc Hk Hexp Hacc Hn Hbuild h before. subst before h.
  pose proof (anchor_my_state_hash_eq state) as Hhash.
  split; [|split; [|split; [|split]]].
  - intros e He.
    unfold anchor_my_state. rewrite Hc, Hk.
    unfold try_except, bind, request, lift, ret.
    cbn [service trace]. rewrite Hexp, Hhash. cbn [of_option].
    rewrite Hacc. cbn [service trace]. rewrite Hn. cbn [service trace].
    fold (agent_state_uri agent_id (keccak256 (dumps_compact state))).
    rewrite Hbuild. cbn [service trace].
    rewrite He. rewrite <- !app_assoc. reflexivity.
  - intros gas bf He Hb r. subst r.
    unfold anchor_my_state. rewrite Hc, Hk.
    unfold try_except, bind, request, lift, ret.
    cbn [service trace]. rewrite Hexp, Hhash. cbn [of_option].
    rewrite Hacc. cbn [service trace]. rewrite Hn. cbn [service trace].
    fold (agent_state_uri agent_id (keccak256 (dumps_compact state))).
    rewrite Hbuild. cbn [service trace].
    rewrite He. cbn [service trace]. rewrite Hb. cbn [service trace].
    destruct (sign_transaction W _) as [signed|e1]; cbn [service trace snd];
      [destruct (send_raw_transaction W signed) as [sent|e2]; cbn [service trace snd];
       [destruct (wait_for_transaction_receipt W sent) as [receipt|e3];
        cbn [service trace snd];
        [destruct (negb (status receipt =? 1)); cbn [service trace snd];
         [|destruct (getAgentTBA W tok); cbn [service trace snd]]|]|]|];
      unfold simulations, local_signings;
      rewrite <- ?app_assoc; rewrite !flat_map_app; cbn [flat_map app];
      rewrite ?app_nil_r; split; reflexivity.
  - intros tok' sh su rt' tx' H.
    unfold build_anchor_transaction, bind, request, ret, raise in H.
    destruct (PKP_ETH_ADDRESS W); [|discriminate H].
    destruct (get_transaction_count W p); [|discriminate H].
    cbn [service trace] in H.
    destruct (get_block_baseFeePerGas W); [|discriminate H].
    cbn [service trace] in H.
    destruct (encode_abi W tok' sh su); [|discriminate H].
    destruct (CONTRACT_ADDRESS W); [|discriminate H].
    cbn [fst] in H. injection H as <-. reflexivity.
  - intros. apply never_simulates_anchor_state_via_pkp.
  - intros. apply never_simulates_anchor_action_via_pkp.
Qed.

Lemma gas_limit_policy_witness :
  let W := sample_world in
  let agent_id := lit "agent-bef59af5" in
  let rt := initial_runtime in
  let state := JDict [(lit "schema_version", JStr (lit "1.0.0"))] in
  let executor := lit "0x3C44CdDdB6a900fa2b585dd299e03d12FA4293BC" in
  let tx := mkTx (lit "0x5FbDB2315678afecb367f032d93F642f64180aa3") 0
                 (lit "0xa9059cbb") 0 0 0 7 CHAIN_ID 2 in
  let h := keccak256 (dumps_compact state) in
  let before_simulation :=
    trace rt ++ [EvLettaExport agent_id; EvGetTransactionCount executor;
                 EvBuildTransaction 2 h (agent_state_uri agent_id h)] in
  (forall e,
      estimate_gas W tx = Raise e ->
      anchor_my_state W agent_id 2 true rt =
      (Ok (ErrorText e),
       mkRuntime (service rt) (before_simulation ++ [EvEstimateGas tx]))) /\
  (forall gas base_fee,
      estimate_gas W tx = Ok gas ->
      get_block_baseFeePerGas W = Ok base_fee ->
      let r := anchor_my_state W agent_id 2 true rt in
      simulations (trace (snd r)) = simulations (trace rt) ++ [tx] /\
      local_signings (trace (snd r)) =
        local_signings (trace rt) ++
        [mkTx (tx_to tx) (tx_value tx) (tx_data tx) gas
              (base_fee * 2 + 1000000) 1000000
              (tx_nonce tx) (tx_chainId tx) (tx_type tx)]) /\
  (forall tok' state_hash state_uri rt' tx',
      fst (build_anchor_transaction W tok' state_hash state_uri rt') = Ok tx' ->
      tx_gas tx' = 200000) /\
  (forall tok' state_hash state_uri api_key,
      never_simulates (anchor_state_via_pkp W tok' state_hash state_uri api_key)) /\
  (forall a api_key, never_simulates (anchor_action_via_pkp W a api_key)).
Proof.
  intros W agent_id rt state executor tx.
  apply (gas_limit_policy W agent_id 2 true rt 48 48
           (lit "x5FbDB2315678afecb367f032d93F642f64180aa3")
           (lit "x59c6995e998f97a5a0044966f0945389dc9e86dae88c7a8412f4603b6b78690d")
           state executor 7 tx); reflexivity.
Defined.

(* ================================================================== *)
(** ** The receipt decides the result *)

(** C9.  Once anchor_state_via_pkp has broadcast the signed transaction and
    obtained its receipt, it reports success exactly when the receipt status
    is 1, and otherwise returns the "Transaction reverted" error carrying the
    receipt; after the signature there is exactly one broadcast and one wait
    for the receipt: nothing is retried or broadcast again. *)
Theorem receipt_status_decides_result
    (W : World) (tok : Z) (state_hash state_uri : pystr) (api_key : option pystr)
    (rt rt1 rt2 : Runtime) (hb : bytes) (tx : Tx) (digest : bytes)
    (sign_result : SignResult) (signature : Signature) (raw sent : bytes)
    (receipt : Receipt) :
  verify_api_key W (effective_key W api_key) = Ok true ->
  startswith state_hash (lit "0x") = true ->
  length state_hash = 66%nat ->
  bytes_fromhex (skipn 2 state_hash) = Some hb ->
  build_anchor_transaction W tok hb state_uri rt = (Ok tx, rt1) ->
  compute_tx_hash tx = Some digest ->
  sign_with_pkp W digest rt1 = (Ok sign_result, rt2) ->
  anchorStateSig sign_result = Some signature ->
  serialize_signed_tx tx signature = Some raw ->
  send_raw_transaction W raw = Ok sent ->
  wait_for_transaction_receipt W sent = Ok receipt ->
  exists result,
    anchor_state_via_pkp W tok state_hash state_uri api_key rt =
      (Ok result,
       mkRuntime (service rt2)
         (trace rt2 ++ [EvSendRawTransaction raw; EvWaitForReceipt sent])) /\
    (status receipt = 1 ->
     result = Success sent (blockNumber receipt) (gasUsed receipt) None) /\
    (status receipt <> 1 -> result = TransactionReverted (receipt_text receipt)) /\
    ((exists h b g a, result = Success h b g a) <-> status receipt = 1).
Proof.
  intros Hauth Hpre Hlen Hhex Hbuild Hdig Hsign Hsig Hser Hsend Hwait.
  assert (Hrun :
    anchor_state_via_pkp W tok state_hash state_uri api_key rt =
    (Ok (if status receipt =? 1
         then Success sent (blockNumber receipt) (gasUsed receipt) None
         else TransactionReverted (receipt_text receipt)),
     mkRuntime (service rt2)
       (trace rt2 ++ [EvSendRawTransaction raw; EvWaitForReceipt sent]))).
  { unfold anchor_state_via_pkp, sign_and_submit, bind, lift, try_except, request, ret.
    rewrite Hauth. cbn [negb]. rewrite Hpre, Hlen. cbn [negb orb Nat.eqb].
    rewrite Hhex. cbn [of_option]. rewrite Hbuild, Hdig. cbn [of_option].
    rewrite Hsign, Hsig, Hser. cbn [of_option service trace].
    rewrite Hsend. cbn [service trace]. rewrite Hwait.
    cbn [service trace]. rewrite <- !app_assoc.
    destruct (status receipt =? 1); reflexivity. }
  eexists. split; [exact Hrun|].
  destruct (Z.eqb_spec (status receipt) 1) as [E|E].
  - split; [reflexivity|]. split; [contradiction|].
    split; [intros _; exact E|]. intros _. repeat eexists.
  - split; [contradiction|]. split; [reflexivity|].
    split; [intros (h & b & g & a & H); discriminate H|contradiction].
Qed.

Definition default_bytes (o : option bytes) : bytes :=
  match o with Some b => b | None => [] end.

Lemma receipt_status_decides_result_witness :
  let W := sample_world in
  let key := Some (lit "kU3x-secret-key") in
  let state_uri := lit "test://x" in
  let hb := repeat 171 32%nat in
  let tx := mkTx (lit "0x5FbDB2315678afecb367f032d93F642f64180aa3") 0
              (lit "0xa9059cbb0000000000000000000000000000000000000000000000000000000000000002")
              200000 3000000000 1000000000 7 CHAIN_ID 2 in
  let rt1 := snd (build_anchor_transaction W 2 hb state_uri initial_runtime) in
  let digest := default_bytes (compute_tx_hash tx) in
  let rt2 := snd (sign_with_pkp W digest rt1) in
  let raw := default_bytes (serialize_signed_tx tx high_s_signature) in
  let sent := repeat 171 32%nat in
  let receipt := mkReceipt 0 1234567 21000 (lit "AttributeDict({...})") in
  exists result,
    anchor_state_via_pkp W 2 sample_state_hash state_uri key initial_runtime =
      (Ok result,
       mkRuntime (service rt2)
         (trace rt2 ++ [EvSendRawTransaction raw; EvWaitForReceipt sent])) /\
    (status receipt = 1 ->
     result = Success sent (blockNumber receipt) (gasUsed receipt) None) /\
    (status receipt <> 1 -> result = TransactionReverted (receipt_text receipt)) /\
    ((exists h b g a, result = Success h b g a) <-> status receipt = 1).
Proof.
  intros W key state_uri hb tx rt1 digest rt2 raw sent receipt.
  apply (receipt_status_decides_result W 2 sample_state_hash state_uri key
           initial_runtime rt1 rt2 hb tx digest
           (mkSignResult (Some high_s_signature) (lit "{...}"))
           high_s_signature raw sent receipt);
    vm_compute; reflexivity.
Defined.

(* ================================================================== *)
(** ** Authentication *)

Lemma str_eqb_refl s : str_eqb s s = true.
Proof. apply str_eqb_eq. reflexivity. Qed.

Lemma MCP_API_KEY_not_empty W : MCP_API_KEY W <> Some [].
Proof.
  unfold MCP_API_KEY. destruct (env_MCP_API_KEY W) as [[|c k]|]; cbn; discriminate.
Qed.

(** With an ASCII server key, a call that brings no key of its own is
    authenticated with the server's key. *)
Lemma api_key_fallback_ascii W api_key key :
  MCP_API_KEY W = Some key ->
  is_ascii_str key = true ->
  truthy api_key = false ->
  effective_key W api_key = Some key /\
  verify_api_key W (effective_key W api_key) = Ok true.
Proof.
  intros Hk Ha Ht. unfold effective_key. rewrite Ht. split; [exact Hk|].
  unfold verify_api_key. rewrite Hk. unfold compare_digest.
  rewrite Ha, str_eqb_refl. reflexivity.
Qed.

(** With no server key every call is turned away before anything else
    happens. *)
Lemma no_server_key_rejects_all W :
  MCP_API_KEY W = None ->
  (forall tok h uri api_key rt,
      anchor_state_via_pkp W tok h uri api_key rt = (Ok AuthenticationFailed, rt)) /\
  (forall a api_key rt,
      anchor_action_via_pkp W a api_key rt = (Ok AuthenticationFailed, rt)).
Proof.
  intros Hk.
  assert (Hv : forall k, verify_api_key W k = Ok false).
  { intros k. unfold verify_api_key. rewrite Hk. reflexivity. }
  split; intros; unfold anchor_state_via_pkp, anchor_action_via_pkp, bind, lift, ret;
    rewrite Hv; reflexivity.
Qed.

(** C10, at the input where the code departs from it.  With the server key
    set to a text that is not ASCII and no api_key in the call, the fallback
    hands the server key to secrets.compare_digest, which raises TypeError:
    both tools abort with that exception, before any request, instead of
    authenticating the call. *)
Theorem api_key_fallback_raises_on_non_ascii_key :
  MCP_API_KEY non_ascii_key_world = Some [99; 108; 233] /\
  effective_key non_ascii_key_world None = Some [99; 108; 233] /\
  verify_api_key non_ascii_key_world (effective_key non_ascii_key_world None) =
    Raise TypeError_compare_digest /\
  anchor_state_via_pkp non_ascii_key_world 2 sample_state_hash (lit "test://x")
    None initial_runtime = (Raise TypeError_compare_digest, initial_runtime) /\
  anchor_action_via_pkp non_ascii_key_world sample_action_args None
    initial_runtime = (Raise TypeError_compare_digest, initial_runtime).
Proof. repeat split; vm_compute; reflexivity. Qed.

(* ================================================================== *)
(** ** Further properties of the authentication *)

(** X1.  When MCP_API_KEY is unset or empty in the server's environment,
    both signing tools answer every call - whatever api_key it brings - with
    the authentication error, and nothing is requested or changed. *)
Theorem unconfigured_server_key_rejects_every_call (W : World) :
  env_MCP_API_KEY W = None \/ env_MCP_API_KEY W = Some [] ->
  MCP_API_KEY W = None /\
  (forall tok h uri api_key rt,
      anchor_state_via_pkp W tok h uri api_key rt = (Ok AuthenticationFailed, rt)) /\
  (forall a api_key rt,
      anchor_action_via_pkp W a api_key rt = (Ok AuthenticationFailed, rt)).
Proof.
  intros Henv.
  assert (Hk : MCP_API_KEY W = None).
  { unfold MCP_API_KEY. destruct Henv as [-> | ->]; reflexivity. }
  split; [exact Hk|].
  assert (Hv : forall k, verify_api_key W k = Ok false).
  { intros k. unfold verify_api_key. rewrite Hk. reflexivity. }
  split; intros; unfold anchor_state_via_pkp, anchor_action_via_pkp, bind, lift, ret;
    rewrite Hv; reflexivity.
Qed.

Lemma unconfigured_server_key_rejects_every_call_witness :
  let W := with_server_key sample_world (Some []) in
  MCP_API_KEY W = None /\
  (forall tok h uri api_key rt,
      anchor_state_via_pkp W tok h uri api_key rt = (Ok AuthenticationFailed, rt)) /\
  (forall a api_key rt,
      anchor_action_via_pkp W a api_key rt = (Ok AuthenticationFailed, rt)).
Proof.
  intros W. apply (unconfigured_server_key_rejects_every_call W).
  right. reflexivity.
Defined.

Lemma str_eqb_neq a b : a <> b -> str_eqb a b = false.
Proof.
  intros H. destruct (str_eqb a b) eqn:E; [|reflexivity].
  apply str_eqb_eq in E. contradiction.
Qed.

(** X2.  With an ASCII server key, a call that brings its own non-empty
    ASCII key is authenticated exactly when the two keys are equal; with any
    other key both tools return the authentication error and nothing is
    requested or changed. *)
Theorem supplied_api_key_must_equal_server_key (W : World) (key k : pystr) :
  MCP_API_KEY W = Some key ->
  is_ascii_str key = true ->
  is_ascii_str k = true ->
  k <> [] ->
  (verify_api_key W (effective_key W (Some k)) = Ok true <-> k = key) /\
  (k <> key ->
   (forall tok h uri rt,
       anchor_state_via_pkp W tok h uri (Some k) rt = (Ok AuthenticationFailed, rt)) /\
   (forall a rt,
       anchor_action_via_pkp W a (Some k) rt = (Ok AuthenticationFailed, rt))).
Proof.
  intros Hk Ha Hka Hne.
  assert (He : effective_key W (Some k) = Some k).
  { unfold effective_key. destruct k; [contradiction|reflexivity]. }
  assert (Hv : verify_api_key W (Some k) = Ok (str_eqb k key)).
  { unfold verify_api_key, compare_digest. rewrite Hk, Hka, Ha. reflexivity. }
  rewrite He, Hv. split.
  - split.
    + intros H. injection H as H. apply str_eqb_eq. exact H.
    + intros ->. rewrite str_eqb_refl. reflexivity.
  - intros Hdiff.
    split; intros; unfold anchor_state_via_pkp, anchor_action_via_pkp, bind, lift, ret;
      rewrite He, Hv, (str_eqb_neq _ _ Hdiff); reflexivity.
Qed.

Lemma supplied_api_key_must_equal_server_key_witness :
  let W := sample_world in
  let key := lit "kU3x-secret-key" in
  let k := lit "wrong-key-12345" in
  (verify_api_key W (effective_key W (Some k)) = Ok true <-> k = key) /\
  (forall tok h uri rt,
      anchor_state_via_pkp W tok h uri (Some k) rt = (Ok AuthenticationFailed, rt)) /\
  (forall a rt,
      anchor_action_via_pkp W a (Some k) rt = (Ok AuthenticationFailed, rt)).
Proof.
  intros W key k.
  destruct (supplied_api_key_must_equal_server_key W key k) as [H1 H2].
  - reflexivity.
  - reflexivity.
  - reflexivity.
  - discriminate.
  - split; [exact H1|]. apply H2. intros E. vm_compute in E. discriminate E.
Defined.

(** X3.  A call that brings no api_key (absent, None or empty) is
    authenticated with the server's own key whenever that key is set and
    ASCII: for such a call the check cannot fail. *)
Theorem absent_api_key_is_accepted (W : World) (api_key : option pystr)
    (key : pystr) :
  MCP_API_KEY W = Some key ->
  is_ascii_str key = true ->
  truthy api_key = false ->
  effective_key W api_key = Some key /\
  verify_api_key W (effective_key W api_key) = Ok true.
Proof.
  intros Hk Ha Ht. unfold effective_key. rewrite Ht. split; [exact Hk|].
  unfold verify_api_key. rewrite Hk. unfold compare_digest.
  rewrite Ha, str_eqb_refl. reflexivity.
Qed.

Lemma absent_api_key_is_accepted_witness :
  effective_key sample_world (Some []) = Some (lit "kU3x-secret-key") /\
  verify_api_key sample_world (effective_key sample_world (Some [])) = Ok true.
Proof.
  apply (absent_api_key_is_accepted sample_world (Some []) (lit "kU3x-secret-key"));
    reflexivity.
Defined.

(* ================================================================== *)
(** ** Further properties of the session *)

Ltac split_cases :=
  repeat match goal with
         | |- context [match ?x with _ => _ end] =>
             lazymatch x with
             | context [match _ with _ => _ end] => fail
             | _ => destruct x eqn:?
             end
         end.

(** X4.  The service never holds capability tokens without an expiry and a
    client: ensure_connected keeps this on every path, successful or not, and
    so does disconnect. *)
Theorem service_invariant_preserved (W : World) (rt : Runtime) :
  service_invariant (service rt) ->
  service_invariant (service (snd (ensure_connected W rt))) /\
  service_invariant (service (snd (disconnect W rt))).
Proof.
  destruct rt as [[c sg ex] tr]. unfold service_invariant. cbn [service client session_sigs session_expiry].
  intros Hinv. split.
  - unfold ensure_connected, bind, get_service, put_service, request, raise, ret,
      lift, requested_expiration.
    cbn [service trace client session_sigs session_expiry fst snd].
    split_cases; cbn [service trace client session_sigs session_expiry fst snd];
      intros H; try (split; congruence); try (apply Hinv in H; tauto);
      try (destruct Hinv as [? ?]; congruence).
  - unfold disconnect, bind, get_service, put_service, request, ret, try_except.
    cbn [service trace client session_sigs session_expiry fst snd].
    split_cases; cbn [service trace client session_sigs session_expiry fst snd];
      intros H; try congruence; try (apply Hinv in H; tauto).
Qed.

Lemma service_invariant_preserved_witness :
  service_invariant (service (snd (ensure_connected sample_world initial_runtime))) /\
  service_invariant (service (snd (disconnect sample_world initial_runtime))).
Proof.
  apply (service_invariant_preserved sample_world initial_runtime).
  intros H. exfalso. apply H. reflexivity.
Defined.

(** X5.  When the network refuses the authorization (an answer without
    success), ensure_connected raises and stores nothing: client, tokens and
    expiry - stale ones included - stay as they were, so that the next call
    asks again. *)
Theorem refused_authorization_changes_nothing (W : World) (rt : Runtime)
    (result : SessionSigsResult) (c : unit) :
  client (service rt) = Some c ->
  (session_sigs (service rt) = None \/
   exists e, session_expiry (service rt) = Some e /\ e <= utcnow W) ->
  utcnow W + HOUR <= MAX_DATETIME ->
  get_session_sigs W ((utcnow W + HOUR) / 1000000) = Ok result ->
  success result = false ->
  let rt1 :=
    mkRuntime (service rt)
              (trace rt ++ [EvGetSessionSigs ((utcnow W + HOUR) / 1000000)]) in
  ensure_connected W rt = (Raise SessionSigsFailed, rt1) /\
  ensure_connected W rt1 =
  (Raise SessionSigsFailed,
   mkRuntime (service rt)
             (trace rt1 ++ [EvGetSessionSigs ((utcnow W + HOUR) / 1000000)])).
Proof.
  intros Hc Hstale Hmax Hsigs Hok rt1.
  assert (Hgen : forall tr,
    ensure_connected W (mkRuntime (service rt) tr) =
    (Raise SessionSigsFailed,
     mkRuntime (service rt)
               (tr ++ [EvGetSessionSigs ((utcnow W + HOUR) / 1000000)]))).
  { intros tr.
    unfold ensure_connected, bind, get_service, ret, put_service, request, raise, lift.
    cbn [service trace]. rewrite Hc. cbn [service].
    assert (Hcond :
      (match session_sigs (service rt) with None => true | Some _ => false end
       || match session_expiry (service rt) with
          | Some e => e <=? utcnow W | None => false end) = true).
    { destruct Hstale as [-> | [e [-> He]]].
      - reflexivity.
      - apply orb_true_iff. right. apply Z.leb_le. exact He. }
    rewrite Hcond. unfold requested_expiration.
    destruct (utcnow W + HOUR <=? MAX_DATETIME) eqn:Em; [|apply Z.leb_gt in Em; lia].
    rewrite Hsigs, Hok. reflexivity. }
  split.
  - destruct rt as [s tr]. apply Hgen.
  - apply Hgen.
Qed.

Lemma refused_authorization_changes_nothing_witness :
  let W :=
    with_get_session_sigs sample_world
      (fun _ => Ok (mkSessionSigsResult false None)) in
  let rt := mkRuntime (mkService (Some tt) (Some (lit "stale")) (Some 0)) [] in
  let rt1 :=
    mkRuntime (service rt)
              (trace rt ++ [EvGetSessionSigs ((utcnow W + HOUR) / 1000000)]) in
  ensure_connected W rt = (Raise SessionSigsFailed, rt1) /\
  ensure_connected W rt1 =
  (Raise SessionSigsFailed,
   mkRuntime (service rt)
             (trace rt1 ++ [EvGetSessionSigs ((utcnow W + HOUR) / 1000000)])).
Proof.
  intros W rt.
  apply (refused_authorization_changes_nothing W rt (mkSessionSigsResult false None) tt).
  - reflexivity.
  - right. exists 0. split; [reflexivity|]. vm_compute. discriminate.
  - vm_compute. discriminate.
  - reflexivity.
  - reflexivity.
Defined.

(** With a client in place ensure_connected never connects. *)
Lemma ensure_connected_keeps_client W rt c :
  client (service rt) = Some c ->
  connections (trace (snd (ensure_connected W rt))) = connections (trace rt) /\
  client (service (snd (ensure_connected W rt))) = Some c.
Proof.
  destruct rt as [[c0 sg ex] tr]. cbn [service client]. intros ->.
  unfold ensure_connected, bind, get_service, put_service, request, raise, ret,
    lift, requested_expiration, connections.
  cbn [service trace client session_sigs session_expiry fst snd].
  split_cases; cbn [service trace client session_sigs session_expiry fst snd];
    rewrite ?flat_map_app; cbn [flat_map app]; rewrite ?app_nil_r; split; reflexivity.
Qed.

(** X6.  A first connection that fails - the network refuses it, or the key
    that authorizes the client is not configured - raises but leaves the
    client object in place: no later call of ensure_connected, in whatever
    environment, connects again - the branch that connects and sets the
    authorization token is skipped for good. *)
Theorem failed_connection_is_never_retried (W : World) (rt : Runtime) (e : exn) :
  client (service rt) = None ->
  lit_connect W = Raise e \/
  (lit_connect W = Ok tt /\ DEPLOYER_PRIVATE_KEY W = None /\ e = MissingConfiguration) ->
  let rt1 :=
    mkRuntime (mkService (Some tt) (session_sigs (service rt))
                         (session_expiry (service rt)))
              (trace rt ++ [EvLitConnect]) in
  ensure_connected W rt = (Raise e, rt1) /\
  forall W',
    connections (trace (snd (ensure_connected W' rt1))) = connections (trace rt1) /\
    client (service (snd (ensure_connected W' rt1))) = Some tt.
Proof.
  intros Hc Hfail rt1. split.
  - destruct rt as [[c0 sg ex] tr]. cbn [service client] in Hc. subst c0.
    subst rt1.
    unfold ensure_connected, bind, get_service, put_service, request, raise, ret, lift.
    cbn [service trace client session_sigs session_expiry fst snd].
    destruct Hfail as [-> | (-> & -> & ->)]; reflexivity.
  - intros W'. apply ensure_connected_keeps_client. reflexivity.
Qed.

Lemma failed_connection_is_never_retried_witness :
  let W := without_deployer_key sample_world in
  let rt1 := mkRuntime (mkService (Some tt) None None) [EvLitConnect] in
  ensure_connected W initial_runtime = (Raise MissingConfiguration, rt1) /\
  forall W',
    connections (trace (snd (ensure_connected W' rt1))) = connections (trace rt1) /\
    client (service (snd (ensure_connected W' rt1))) = Some tt.
Proof.
  intros W.
  apply (failed_connection_is_never_retried W initial_runtime MissingConfiguration).
  - reflexivity.
  - right. repeat split; reflexivity.
Defined.

(** X7.  disconnect never raises, even when the network's own disconnect
    does.  With a client it asks the network once and drops both the client
    and the capability tokens; without one it does nothing at all.  The
    stored expiry is kept in both cases. *)
Theorem disconnect_drops_client_and_tokens (W : World) (rt : Runtime) :
  let r := disconnect W rt in
  fst r = Ok tt /\
  client (service (snd r)) = None /\
  session_expiry (service (snd r)) = session_expiry (service rt) /\
  (client (service rt) <> None ->
   session_sigs (service (snd r)) = None /\
   trace (snd r) = trace rt ++ [EvLitDisconnect]) /\
  (client (service rt) = None -> snd r = rt).
Proof.
  destruct rt as [[c sg ex] tr].
  unfold disconnect, bind, get_service, put_service, request, ret, try_except.
  cbn [service trace client session_sigs session_expiry fst snd].
  destruct c as [c|].
  - destruct (lit_disconnect W) as [u|e];
      cbn [service trace client session_sigs session_expiry fst snd];
      (split; [reflexivity|]); (split; [reflexivity|]); (split; [reflexivity|]);
      (split; [intros _; split; reflexivity | intros Hn; discriminate Hn]).
  - cbn [service trace client session_sigs session_expiry fst snd].
    split; [reflexivity|]. split; [reflexivity|]. split; [reflexivity|].
    split; [intros Hn; exfalso; apply Hn; reflexivity | intros _; reflexivity].
Qed.

(** X8.  After a disconnect the next ensure_connected starts afresh: it
    connects again and asks for a new authorization although the expiry that
    disconnect left behind may still lie in the future. *)
Theorem ensure_connected_after_disconnect (W : World) (rt : Runtime)
    (result : SessionSigsResult) (pk : pystr) :
  client (service rt) <> None ->
  lit_connect W = Ok tt ->
  DEPLOYER_PRIVATE_KEY W = Some pk ->
  utcnow W + HOUR <= MAX_DATETIME ->
  get_session_sigs W ((utcnow W + HOUR) / 1000000) = Ok result ->
  success result = true ->
  ensure_connected W (snd (disconnect W rt)) =
  (Ok true,
   mkRuntime (mkService (Some tt) (sessionSigs result)
                        (Some (utcnow W + 55 * MINUTE)))
             (trace rt ++ [EvLitDisconnect; EvLitConnect;
                           EvGetSessionSigs ((utcnow W + HOUR) / 1000000)])).
Proof.
  intros Hc Hconn Hpk Hmax Hsigs Hok.
  destruct rt as [[c sg ex] tr]. cbn [service client] in Hc.
  destruct c as [c|]; [|contradiction].
  unfold disconnect, ensure_connected, bind, get_service, put_service, request,
    ret, try_except, lift, raise, requested_expiration.
  cbn [service trace client session_sigs session_expiry fst snd].
  destruct (lit_disconnect W) as [u|e];
    cbn [service trace client session_sigs session_expiry fst snd];
    rewrite Hconn, Hpk; cbn [service trace client session_sigs session_expiry fst snd orb];
    (destruct (utcnow W + HOUR <=? MAX_DATETIME) eqn:Em; [|apply Z.leb_gt in Em; lia]);
    rewrite Hsigs, Hok; cbn [negb service trace client session_sigs session_expiry fst snd];
    rewrite <- !app_assoc; reflexivity.
Qed.

Lemma ensure_connected_after_disconnect_witness :
  let W := with_lit_disconnect sample_world (Raise (External (lit "socket closed"))) in
  let rt :=
    mkRuntime (mkService (Some tt) (Some (lit "session-sigs"))
                         (Some (utcnow W + 55 * MINUTE))) [] in
  ensure_connected W (snd (disconnect W rt)) =
  (Ok true,
   mkRuntime (mkService (Some tt) (Some (lit "session-sigs"))
                        (Some (utcnow W + 55 * MINUTE)))
             [EvLitDisconnect; EvLitConnect;
              EvGetSessionSigs ((utcnow W + HOUR) / 1000000)]).
Proof.
  intros W rt.
  apply (ensure_connected_after_disconnect W rt
           (mkSessionSigsResult true (Some (lit "session-sigs")))
           (lit "0xac0974bec39a17e36ba4a6b4d238ff944bacb478cbed5efcae784d7bf4f2ff80")).
  - discriminate.
  - reflexivity.
  - reflexivity.
  - vm_compute. discriminate.
  - reflexivity.
  - reflexivity.
Defined.

(* ================================================================== *)
(** ** Further properties of the two signing tools *)

(** X9.  For an authenticated call of anchor_state_via_pkp with a token id
    that the log line can format (at most 4300 decimal digits), a state_hash
    that does not start with 0x or is not 66 characters long is answered with
    the format error, and one of the right shape that bytes.fromhex cannot
    read is answered with the captured ValueError; in both cases no request
    has been made and the signer's state is untouched. *)
Theorem malformed_state_hash_is_rejected_first (W : World) (tok : Z)
    (state_hash state_uri : pystr) (api_key : option pystr) (rt : Runtime) :
  verify_api_key W (effective_key W api_key) = Ok true ->
  formattable_int tok ->
  (startswith state_hash (lit "0x") = false \/ length state_hash <> 66%nat ->
   anchor_state_via_pkp W tok state_hash state_uri api_key rt =
   (Ok InvalidStateHash, rt)) /\
  (startswith state_hash (lit "0x") = true -> length state_hash = 66%nat ->
   bytes_fromhex (skipn 2 state_hash) = None ->
   anchor_state_via_pkp W tok state_hash state_uri api_key rt =
   (Ok (Failed ValueError_fromhex), rt)).
Proof.
  intros Hauth _. split.
  - intros Hbad. unfold anchor_state_via_pkp, bind, lift, try_except, ret.
    rewrite Hauth. cbn [negb].
    destruct Hbad as [-> | Hlen]; [reflexivity|].
    apply Nat.eqb_neq in Hlen. rewrite Hlen. cbn [negb].
    rewrite orb_true_r. reflexivity.
  - intros Hp Hl Hx. unfold anchor_state_via_pkp, bind, lift, try_except, ret.
    rewrite Hauth, Hp, Hl, Hx. reflexivity.
Qed.

Lemma malformed_state_hash_is_rejected_first_witness :
  let h := lit "0x" ++ repeat 103 64%nat in
  anchor_state_via_pkp sample_world 2 (lit "1234") (lit "ipfs://s") None
    initial_runtime = (Ok InvalidStateHash, initial_runtime) /\
  anchor_state_via_pkp sample_world 2 h (lit "ipfs://s") None initial_runtime =
  (Ok (Failed ValueError_fromhex), initial_runtime).
Proof.
  intros h.
  assert (Hf : formattable_int 2) by (vm_compute; reflexivity).
  split.
  - apply (proj1 (malformed_state_hash_is_rejected_first sample_world 2 (lit "1234")
                    (lit "ipfs://s") None initial_runtime eq_refl Hf)).
    left. reflexivity.
  - apply (proj2 (malformed_state_hash_is_rejected_first sample_world 2 h
                    (lit "ipfs://s") None initial_runtime eq_refl Hf));
      reflexivity.
Defined.

Lemma hexval_not_space c v : hexval c = Some v -> is_ascii_space c = false.
Proof.
  unfold hexval, is_ascii_space. intros H.
  destruct ((48 <=? c) && (c <=? 57)) eqn:E1; [lia|].
  destruct ((97 <=? c) && (c <=? 102)) eqn:E2; [lia|].
  destruct ((65 <=? c) && (c <=? 70)) eqn:E3; [lia|discriminate].
Qed.

Lemma bytes_fromhex_count_aux n :
  forall s b, (length s <= n)%nat ->
    bytes_fromhex s = Some b ->
    (2 * length b + length (white_space s) = length s)%nat.
Proof.
  induction n as [|n IH]; intros s b Hn H.
  - destruct s; [|simpl in Hn; lia]. injection H as <-. reflexivity.
  - destruct s as [|c s]; [injection H as <-; reflexivity|].
    cbn [bytes_fromhex] in H. cbn [white_space filter].
    destruct (is_ascii_space c) eqn:Ec.
    + cbn [length] in *. fold (white_space s).
      specialize (IH s b ltac:(lia) H). lia.
    + destruct (hexval c) as [hv|]; [|discriminate].
      destruct s as [|d s]; [discriminate|].
      destruct (hexval d) as [lv|] eqn:Ed; [|discriminate].
      destruct (bytes_fromhex s) as [r|] eqn:Er; [|discriminate].
      injection H as <-. cbn [filter]. rewrite (hexval_not_space d lv Ed).
      cbn [length] in *. fold (white_space s).
      specialize (IH s r ltac:(lia) Er). lia.
Qed.

(** X10.  The format check of anchor_state_via_pkp does not fix the size
    of the hash: bytes.fromhex skips white space, so a state_hash that passes
    (0x prefix, 66 characters, readable) yields 32 octets exactly when the 64
    characters after the prefix hold no white space, and one octet less for
    every two white-space characters. *)
Theorem accepted_state_hash_size (state_hash : pystr) (b : bytes) :
  startswith state_hash (lit "0x") = true ->
  length state_hash = 66%nat ->
  bytes_fromhex (skipn 2 state_hash) = Some b ->
  (2 * length b + length (white_space (skipn 2 state_hash)) = 64)%nat /\
  (length b = 32%nat <-> white_space (skipn 2 state_hash) = []).
Proof.
  intros _ Hl Hb.
  pose proof (bytes_fromhex_count_aux _ _ _ (Nat.le_refl _) Hb) as Hc.
  rewrite length_skipn, Hl in Hc. cbn [Nat.sub] in Hc.
  split; [exact Hc|]. split.
  - intros H32. destruct (white_space (skipn 2 state_hash)); [reflexivity|].
    cbn [length] in Hc. lia.
  - intros Hw. rewrite Hw in Hc. cbn [length] in Hc. lia.
Qed.

Lemma accepted_state_hash_size_witness :
  let h := lit "0x" ++ repeat 97 62%nat ++ [32; 32] in
  let b := repeat 170 31%nat in
  (2 * length b + length (white_space (skipn 2 h)) = 64)%nat /\
  (length b = 32%nat <-> white_space (skipn 2 h) = []).
Proof.
  intros h b. apply (accepted_state_hash_size h b); reflexivity.
Defined.

(** X12.  Step 2 of anchor_action_via_pkp cannot tell a failed lookup from
    an anchor whose hash is 32 zero octets: whatever the rest of the
    environment, the tool returns the same result, state and trace in both
    cases. *)
Theorem zero_anchor_reads_as_missing (W : World) (a : ActionArgs)
    (api_key : option pystr) (rt : Runtime) (e : exn) (uri : pystr) (ts : Z) :
  getStateAnchor W (token_id a) = Raise e ->
  anchor_action_via_pkp W a api_key rt =
  anchor_action_via_pkp
    (with_getStateAnchor W (fun _ => Ok (repeat 0 32%nat, uri, ts))) a api_key rt.
Proof.
  intros Hraise.
  unfold anchor_action_via_pkp, bind, try_except.
  assert (Hl : forall rt0,
    lookup_creator_state_hash W (token_id a) rt0 =
    lookup_creator_state_hash
      (with_getStateAnchor W (fun _ => Ok (repeat 0 32%nat, uri, ts)))
      (token_id a) rt0).
  { intros rt0.
    rewrite (lookup_creator_state_hash_raise W _ rt0 e Hraise).
    rewrite (lookup_creator_state_hash_ok
               (with_getStateAnchor W (fun _ => Ok (repeat 0 32%nat, uri, ts)))
               (token_id a) rt0 (repeat 0 32%nat) uri ts)
      by reflexivity.
    reflexivity. }
  change (verify_api_key
            (with_getStateAnchor W (fun _ => Ok (repeat 0 32%nat, uri, ts)))
            (effective_key
               (with_getStateAnchor W (fun _ => Ok (repeat 0 32%nat, uri, ts)))
               api_key))
    with (verify_api_key W (effective_key W api_key)).
  destruct (lift (verify_api_key W (effective_key W api_key)) rt) as [[au|e0] rt0];
    [|reflexivity].
  destruct (negb au); [reflexivity|].
  destruct (lift (of_option EncodingError (keccak_text (work_product_content a))) rt0)
    as [[x|e1] rt1]; [|reflexivity].
  rewrite <- Hl.
  destruct (lookup_creator_state_hash W (token_id a) rt1) as [[cs|e2] rt2];
    reflexivity.
Qed.

Lemma zero_anchor_reads_as_missing_witness :
  anchor_action_via_pkp sample_world sample_action_args None initial_runtime =
  anchor_action_via_pkp
    (with_getStateAnchor sample_world
       (fun _ => Ok (repeat 0 32%nat, lit "ipfs://zero", 0)))
    sample_action_args None initial_runtime.
Proof.
  apply (zero_anchor_reads_as_missing sample_world sample_action_args None
           initial_runtime (External (lit "execution reverted"))
           (lit "ipfs://zero") 0).
  reflexivity.
Defined.

(** X13.  The canonical text of an action anchor, written out: the keys of
    the outer object and of the creator and work_product objects appear in
    alphabetical order, not in the order in which the tool assembles them,
    without any white space, every text escaped to ASCII, the content present
    only through its hash and its size in octets. *)
Theorem action_anchor_canonical_text (a : ActionArgs) (content_bytes : bytes)
    (csh : pystr) (ts : Z) (iso : pystr) :
  action_anchor_payload a content_bytes csh ts iso =
  litq "{'action_subtype':" ++ encode_basestring_ascii (anchor_type a) ++
  litq ",'anchor_type':'action','collaborators':" ++
  dumps_compact (JList (map JStr (collaborators a))) ++
  litq ",'creator':{'agent_id':" ++ encode_basestring_ascii (creator_agent_id a) ++
  litq ",'name':" ++ encode_basestring_ascii (creator_name a) ++
  litq ",'state_hash_at_creation':" ++ encode_basestring_ascii csh ++
  litq ",'token_id':" ++ int_repr (token_id a) ++
  litq "},'timestamp':" ++ int_repr ts ++
  litq ",'timestamp_iso':" ++ encode_basestring_ascii (iso ++ lit "Z") ++
  litq ",'work_product':{'content_type':" ++
  encode_basestring_ascii (content_type a) ++
  litq ",'description':" ++ encode_basestring_ascii (description a) ++
  litq ",'hash':" ++
  encode_basestring_ascii (lit "0x" ++ hex_of_bytes (keccak256 content_bytes)) ++
  litq ",'size_bytes':" ++ int_repr (Z.of_nat (length content_bytes)) ++
  litq "}}".
Proof.
  unfold action_anchor_payload, action_anchor_data, dumps_compact.
  rewrite dumps_dict_eq. cbn [map fst snd].
  rewrite sort_action_anchor_items.
  rewrite !dumps_dict_eq. cbn [map fst snd].
  rewrite sort_work_product_items, sort_creator_items.
  rewrite !dumps_str_eq, !dumps_int_eq.
  cbn [map join fst snd].
  eval_literals.
  repeat rewrite <- app_assoc. cbn [app].
  repeat rewrite <- app_assoc. cbn [app].
  reflexivity.
Qed.




(* ================================================================== *)
(** ** What a call may sign and broadcast *)

Section Quiet.

Context {X : Type} (f : event -> list X).

Lemma quiet_ret {A} (a : A) : quiet f (ret a).
Proof. intros rt. reflexivity. Qed.

Lemma quiet_raise {A} e : quiet f (@raise A e).
Proof. intros rt. reflexivity. Qed.

Lemma quiet_lift {A} (o : outcome A) : quiet f (lift o).
Proof. intros rt. reflexivity. Qed.

Lemma quiet_get_service : quiet f get_service.
Proof. intros rt. reflexivity. Qed.

Lemma quiet_put_service s : quiet f (put_service s).
Proof. intros rt. reflexivity. Qed.

Lemma quiet_bind {A B} (m : M A) (k : A -> M B) :
  quiet f m -> (forall a, quiet f (k a)) -> quiet f (bind m k).
Proof.
  intros Hm Hk rt. unfold bind. specialize (Hm rt).
  destruct (m rt) as [[a|e] rt']; cbn [snd] in *.
  - rewrite (Hk a rt'). exact Hm.
  - exact Hm.
Qed.

Lemma quiet_try_except {A} (m : M A) (h : exn -> M A) :
  quiet f m -> (forall e, quiet f (h e)) -> quiet f (try_except m h).
Proof.
  intros Hm Hh rt. unfold try_except. specialize (Hm rt).
  destruct (m rt) as [[a|e] rt']; cbn [snd] in *.
  - exact Hm.
  - rewrite (Hh e rt'). exact Hm.
Qed.

Lemma quiet_request {A} ev (answer : outcome A) :
  f ev = [] -> quiet f (request ev answer).
Proof.
  intros Hev rt. unfold request. cbn [snd trace].
  rewrite flat_map_app. cbn [flat_map]. rewrite Hev. cbn [app]. apply app_nil_r.
Qed.

End Quiet.

Ltac quiet_step :=
  first
    [ apply quiet_ret
    | apply quiet_raise
    | apply quiet_lift
    | apply quiet_get_service
    | apply quiet_put_service
    | apply quiet_request; reflexivity
    | apply quiet_bind; [|intros ?]
    | apply quiet_try_except; [|intros ?]
    | match goal with
      | |- quiet _ (match ?x with _ => _ end) => destruct x
      | |- quiet _ (if ?b then _ else _) => destruct b
      end ].

Lemma quiet_ensure_connected {X} (f : event -> list X) W :
  f EvLitConnect = [] -> (forall t, f (EvGetSessionSigs t) = []) ->
  quiet f (ensure_connected W).
Proof.
  intros H1 H2. unfold ensure_connected.
  repeat first [ apply quiet_request; auto | quiet_step ].
Qed.

Lemma quiet_build_anchor_transaction {X} (f : event -> list X) W tok h uri :
  (forall a, f (EvGetTransactionCount a) = []) -> f EvGetBlock = [] ->
  (forall t b u, f (EvEncodeAbi t b u) = []) ->
  quiet f (build_anchor_transaction W tok h uri).
Proof.
  intros H1 H2 H3. unfold build_anchor_transaction.
  repeat first [ apply quiet_request; auto | quiet_step ].
Qed.

Lemma quiet_lookup_creator_state_hash {X} (f : event -> list X) W tok :
  (forall t, f (EvGetStateAnchor t) = []) ->
  quiet f (lookup_creator_state_hash W tok).
Proof.
  intros H1. unfold lookup_creator_state_hash.
  repeat first [ apply quiet_request; auto | quiet_step ].
Qed.

Lemma sign_and_submit_order W tx anchor rt :
  signature_precedes_broadcast W rt (snd (sign_and_submit W tx anchor rt)).
Proof.
  unfold signature_precedes_broadcast, sign_and_submit, bind, lift.
  destruct (compute_tx_hash tx) as [h|] eqn:Eh; cbn [of_option];
    [|left; split; reflexivity].
  unfold sign_with_pkp, bind.
  pose proof (quiet_ensure_connected
                (fun ev => match ev with EvExecuteJs x => [x] | _ => [] end) W
                eq_refl (fun _ => eq_refl) rt) as Qs.
  pose proof (quiet_ensure_connected
                (fun ev => match ev with EvSendRawTransaction x => [x] | _ => [] end) W
                eq_refl (fun _ => eq_refl) rt) as Qb.
  fold (signing_requests (trace (snd (ensure_connected W rt)))) in Qs.
  fold (signing_requests (trace rt)) in Qs.
  fold (broadcasts (trace (snd (ensure_connected W rt)))) in Qb.
  fold (broadcasts (trace rt)) in Qb.
  destruct (ensure_connected W rt) as [[b|e] rt1]; cbn [snd] in Qs, Qb;
    [|left; split; assumption].
  unfold get_service, request. cbn [service trace fst snd].
  assert (Hs : signing_requests (trace rt1 ++ [EvExecuteJs h]) =
               signing_requests (trace rt) ++ [h]).
  { unfold signing_requests in *. rewrite flat_map_app, Qs. reflexivity. }
  assert (Hb : broadcasts (trace rt1 ++ [EvExecuteJs h]) = broadcasts (trace rt)).
  { unfold broadcasts in *. rewrite flat_map_app, Qb. cbn. apply app_nil_r. }
  destruct (execute_js W h (session_sigs (service rt1))) as [sr|e] eqn:Ex;
    cbn [snd trace];
    [|right; exists tx, h; repeat split; try assumption; left; assumption].
  destruct (anchorStateSig sr) as [sig|] eqn:Esig; unfold ret; cbn [snd trace];
    [|right; exists tx, h; repeat split; try assumption; left; assumption].
  destruct (serialize_signed_tx tx sig) as [raw|] eqn:Eraw; cbn [of_option snd trace];
    [|right; exists tx, h; repeat split; try assumption; left; assumption].
  right. exists tx, h. split; [assumption|].
  assert (Hs2 : forall l,
    signing_requests ((trace rt1 ++ [EvExecuteJs h]) ++ EvSendRawTransaction raw :: l) =
    signing_requests (trace rt) ++ [h] ++ signing_requests l).
  { intros l. unfold signing_requests in *. rewrite flat_map_app.
    fold (signing_requests (trace rt1 ++ [EvExecuteJs h])).
    unfold signing_requests. rewrite flat_map_app, Qs. cbn [flat_map app].
    rewrite <- app_assoc. reflexivity. }
  assert (Hb2 : forall l,
    broadcasts ((trace rt1 ++ [EvExecuteJs h]) ++ EvSendRawTransaction raw :: l) =
    broadcasts (trace rt) ++ [raw] ++ broadcasts l).
  { intros l. unfold broadcasts in *. rewrite !flat_map_app, Qb. cbn [flat_map app].
    rewrite app_nil_r. reflexivity. }
  destruct (send_raw_transaction W raw) as [sent|e];
    [destruct (wait_for_transaction_receipt W sent) as [rc|e];
     [destruct (status rc =? 1)|]|];
    cbn [snd trace service];
    rewrite <- ?(app_assoc (trace rt1 ++ [EvExecuteJs h]) [EvSendRawTransaction raw]);
    cbn [app]; rewrite Hs2, Hb2; cbn; (split; [reflexivity|]); right;
    exists (session_sigs (service rt1)), sr, sig, raw; auto.
Qed.

Lemma order_after_quiet {A} W (m : M A) (k : A -> M tool_result) :
  quiet (fun ev => match ev with EvExecuteJs x => [x] | _ => [] end) m ->
  quiet (fun ev => match ev with EvSendRawTransaction x => [x] | _ => [] end) m ->
  (forall a rt1, signature_precedes_broadcast W rt1 (snd (k a rt1))) ->
  forall rt, signature_precedes_broadcast W rt (snd (bind m k rt)).
Proof.
  intros Qs Qb Hk rt. specialize (Qs rt). specialize (Qb rt).
  unfold bind. unfold signature_precedes_broadcast in *.
  fold (signing_requests (trace (snd (m rt)))) in Qs.
  fold (signing_requests (trace rt)) in Qs.
  fold (broadcasts (trace (snd (m rt)))) in Qb.
  fold (broadcasts (trace rt)) in Qb.
  destruct (m rt) as [[a|e] rt1]; cbn [snd] in *.
  - specialize (Hk a rt1). rewrite Qs, Qb in Hk. exact Hk.
  - left. split; assumption.
Qed.

Lemma order_captured W (m : M tool_result) :
  (forall rt, signature_precedes_broadcast W rt (snd (m rt))) ->
  forall rt,
    signature_precedes_broadcast W rt
      (snd (try_except m (fun e => ret (Failed e)) rt)).
Proof.
  intros H rt. specialize (H rt). unfold try_except.
  destruct (m rt) as [[a|e] rt1]; exact H.
Qed.

Lemma order_nothing W rt : signature_precedes_broadcast W rt rt.
Proof. left. split; reflexivity. Qed.

(** X11.  Whatever the environment answers, one call of either signing
    tool makes at most one signing request and at most one broadcast; a
    broadcast comes only after the signing request has returned a signature,
    and what is broadcast is the serialization, with that signature, of the
    very transaction whose digest was sent for signing. *)
Theorem broadcast_only_of_the_signed_transaction (W : World) :
  (forall tok state_hash state_uri api_key rt,
      signature_precedes_broadcast W rt
        (snd (anchor_state_via_pkp W tok state_hash state_uri api_key rt))) /\
  (forall a api_key rt,
      signature_precedes_broadcast W rt
        (snd (anchor_action_via_pkp W a api_key rt))).
Proof.
  split.
  - intros tok state_hash state_uri api_key rt. unfold anchor_state_via_pkp.
    apply order_after_quiet; [apply quiet_lift | apply quiet_lift |].
    intros au rt1. destruct (negb au); [apply order_nothing|].
    apply order_captured. intros rt2.
    destruct (negb (startswith state_hash (lit "0x"))
              || negb (Nat.eqb (length state_hash) 66)); [apply order_nothing|].
    apply order_after_quiet; [apply quiet_lift | apply quiet_lift |].
    intros b rt3.
    apply order_after_quiet;
      [apply quiet_build_anchor_transaction; reflexivity
      |apply quiet_build_anchor_transaction; reflexivity|].
    intros tx rt4. apply sign_and_submit_order.
  - intros a api_key rt. unfold anchor_action_via_pkp.
    apply order_after_quiet; [apply quiet_lift | apply quiet_lift |].
    intros au rt1. destruct (negb au); [apply order_nothing|].
    apply order_captured. intros rt2.
    apply order_after_quiet; [apply quiet_lift | apply quiet_lift |].
    intros x rt3.
    apply order_after_quiet;
      [apply quiet_lookup_creator_state_hash; reflexivity
      |apply quiet_lookup_creator_state_hash; reflexivity|].
    intros cs rt4.
    apply order_after_quiet; [apply quiet_lift | apply quiet_lift |].
    intros anchor rt5.
    apply order_after_quiet;
      [apply quiet_build_anchor_transaction; reflexivity
      |apply quiet_build_anchor_transaction; reflexivity|].
    intros tx rt6. apply sign_and_submit_order.
Qed.

(* ================================================================== *)
(** ** What is signed determines the transaction *)

Lemma some_inj {A : Type} (x y : A) : Some x = Some y -> x = y.
Proof. intros H. injection H as H. exact H. Qed.

Lemma length_prefix_inj len len' offset h :
  0 <= len -> 0 <= len' ->
  length_prefix len offset = Some h -> length_prefix len' offset = Some h ->
  len = len'.
Proof.
  unfold length_prefix. intros Hl Hl' H H'.
  destruct (len <? 56) eqn:E1; destruct (len' <? 56) eqn:E1';
    try (destruct (len <? 256 ^ 8) eqn:E2; [|discriminate]);
    try (destruct (len' <? 256 ^ 8) eqn:E2'; [|discriminate]);
    apply some_inj in H; subst h; apply some_inj in H';
    apply cons_inj in H' as [H0 H'].
  - lia.
  - apply Z.ltb_ge in E1'.
    pose proof (int_to_big_endian_nonempty len' ltac:(lia)) as Hne.
    rewrite H' in Hne. simpl in Hne. lia.
  - apply Z.ltb_ge in E1.
    pose proof (int_to_big_endian_nonempty len ltac:(lia)) as Hne.
    rewrite <- H' in Hne. simpl in Hne. lia.
  - symmetry. apply int_to_big_endian_inj; assumption.
Qed.

Lemma length_prefix_app_inj len len' offset h h' p p' :
  0 <= len -> 0 <= len' ->
  length_prefix len offset = Some h -> length_prefix len' offset = Some h' ->
  h ++ p = h' ++ p' ->
  len = len' /\ p = p'.
Proof.
  intros Hl Hl' H H' E.
  pose proof (length_prefix_split _ _ _ _ _ _ _ H H' E) as Ep. subst p'.
  apply app_inv_tail in E. subst h'.
  split; [|reflexivity]. eapply length_prefix_inj; eassumption.
Qed.

Lemma encode_bytes_cases b e :
  encode_bytes b = Some e ->
  (exists x, b = [x] /\ x < 128 /\ e = [x]) \/
  (exists h, length_prefix (Z.of_nat (length b)) 128 = Some h /\ e = h ++ b).
Proof.
  assert (Hgen :
    option_map (fun p => p ++ b) (length_prefix (Z.of_nat (length b)) 128) = Some e ->
    exists h, length_prefix (Z.of_nat (length b)) 128 = Some h /\ e = h ++ b).
  { destruct (length_prefix (Z.of_nat (length b)) 128) as [h|]; [|discriminate].
    intros H. injection H as <-. exists h. auto. }
  unfold encode_bytes. intros H.
  destruct b as [|x [|y b]]; try (right; apply Hgen; exact H).
  destruct (x <? 128) eqn:Ex.
  - left. exists x. apply Z.ltb_lt in Ex. injection H as <-. auto.
  - right. apply Hgen. exact H.
Qed.

(** No encoding of an octet string is the beginning of another one. *)
Lemma encode_bytes_prefix_free b b' e e' p p' :
  encode_bytes b = Some e -> encode_bytes b' = Some e' ->
  e ++ p = e' ++ p' ->
  b = b' /\ p = p'.
Proof.
  intros H H' E.
  destruct (encode_bytes_cases b e H) as [(x & -> & Hx & ->) | (h & Hh & ->)];
    destruct (encode_bytes_cases b' e' H') as [(y & -> & Hy & ->) | (h' & Hh' & ->)].
  - cbn [app] in E. apply cons_inj in E as [-> ->]. auto.
  - exfalso. apply length_prefix_head in Hh' as (z & t & -> & Hz); [|lia].
    cbn [app] in E. apply cons_inj in E as [-> _]. lia.
  - exfalso. apply length_prefix_head in Hh as (z & t & -> & Hz); [|lia].
    cbn [app] in E. apply cons_inj in E as [<- _]. lia.
  - rewrite <- !app_assoc in E.
    destruct (length_prefix_app_inj (Z.of_nat (length b)) (Z.of_nat (length b'))
                128 h h' _ _ ltac:(lia) ltac:(lia) Hh Hh' E) as [Hlen Eb].
    apply app_inv_same_length in Eb; [exact Eb|lia].
Qed.

Lemma rlp_encode_int_nonneg n e : rlp_encode (RInt n) = Some e -> 0 <= n.
Proof.
  cbn [rlp_encode]. destruct (n <? 0) eqn:E; [discriminate|].
  intros _. apply Z.ltb_ge in E. exact E.
Qed.

Lemma rlp_int_prefix_free n n' e e' p p' :
  rlp_encode (RInt n) = Some e -> rlp_encode (RInt n') = Some e' ->
  e ++ p = e' ++ p' ->
  n = n' /\ p = p'.
Proof.
  intros H H' E.
  pose proof (rlp_encode_int_nonneg _ _ H) as Hn.
  pose proof (rlp_encode_int_nonneg _ _ H') as Hn'.
  rewrite rlp_encode_int in H, H' by assumption.
  destruct (encode_bytes_prefix_free _ _ _ _ _ _ H H' E) as [Eb Ep].
  split; [|exact Ep]. apply rlp_int_bytes_inj; assumption.
Qed.

Lemma rlp_bytes_prefix_free b b' e e' p p' :
  rlp_encode (RBytes b) = Some e -> rlp_encode (RBytes b') = Some e' ->
  e ++ p = e' ++ p' ->
  b = b' /\ p = p'.
Proof. cbn [rlp_encode]. apply encode_bytes_prefix_free. Qed.

Lemma rlp_encode_list_inv l e :
  rlp_encode (RList l) = Some e ->
  exists payload h,
    concat_options (map rlp_encode l) = Some payload /\
    length_prefix (Z.of_nat (length payload)) 192 = Some h /\
    e = h ++ payload.
Proof.
  cbn [rlp_encode]. 
  destruct (concat_options (map rlp_encode l)) as [payload|]; [|discriminate].
  destruct (length_prefix (Z.of_nat (length payload)) 192) as [h|] eqn:Eh;
    [|discriminate].
  intros H. injection H as <-. exists payload, h. auto.
Qed.

Lemma concat_options_cons_inv x l p :
  concat_options (x :: l) = Some p ->
  exists a b, x = Some a /\ concat_options l = Some b /\ p = a ++ b.
Proof.
  rewrite concat_options_cons.
  destruct x as [a|]; [|discriminate].
  destruct (concat_options l) as [b|]; [|discriminate].
  intros H. injection H as <-. exists a, b. auto.
Qed.

(** Two encodable lists of the same payload have the same encoding only
    when the payloads agree. *)
Lemma rlp_list_payload_inj l l' e :
  rlp_encode (RList l) = Some e -> rlp_encode (RList l') = Some e ->
  concat_options (map rlp_encode l) = concat_options (map rlp_encode l').
Proof.
  intros H H'.
  apply rlp_encode_list_inv in H as (p & h & Hp & Hh & ->).
  apply rlp_encode_list_inv in H' as (p' & h' & Hp' & Hh' & E).
  rewrite Hp, Hp'. f_equal.
  exact (length_prefix_split _ _ _ _ _ _ _ Hh Hh' E).
Qed.

Lemma tx_fields_inj c n p f g t v d c' n' p' f' g' t' v' d' tail tail' e :
  concat_options
    (map rlp_encode
       (RInt c :: RInt n :: RInt p :: RInt f :: RInt g :: RBytes t :: RInt v ::
        RBytes d :: tail)) = Some e ->
  concat_options
    (map rlp_encode
       (RInt c' :: RInt n' :: RInt p' :: RInt f' :: RInt g' :: RBytes t' :: RInt v' ::
        RBytes d' :: tail')) = Some e ->
  (c = c' /\ n = n' /\ p = p' /\ f = f' /\ g = g' /\ t = t' /\ v = v' /\ d = d') /\
  concat_options (map rlp_encode tail) = concat_options (map rlp_encode tail').
Proof.
  cbn [map]. intros H H'.
  apply concat_options_cons_inv in H as (a1 & b1 & A1 & H & ->).
  apply concat_options_cons_inv in H' as (a1' & b1' & A1' & H' & E).
  destruct (rlp_int_prefix_free _ _ _ _ _ _ A1 A1' E) as [-> ->].
  apply concat_options_cons_inv in H as (a2 & b2 & A2 & H & E2).
  apply concat_options_cons_inv in H' as (a2' & b2' & A2' & H' & E2').
  rewrite E2 in E2'.
  destruct (rlp_int_prefix_free _ _ _ _ _ _ A2 A2' E2') as [-> ->].
  apply concat_options_cons_inv in H as (a3 & b3 & A3 & H & E3).
  apply concat_options_cons_inv in H' as (a3' & b3' & A3' & H' & E3').
  rewrite E3 in E3'.
  destruct (rlp_int_prefix_free _ _ _ _ _ _ A3 A3' E3') as [-> ->].
  apply concat_options_cons_inv in H as (a4 & b4 & A4 & H & E4).
  apply concat_options_cons_inv in H' as (a4' & b4' & A4' & H' & E4').
  rewrite E4 in E4'.
  destruct (rlp_int_prefix_free _ _ _ _ _ _ A4 A4' E4') as [-> ->].
  apply concat_options_cons_inv in H as (a5 & b5 & A5 & H & E5).
  apply concat_options_cons_inv in H' as (a5' & b5' & A5' & H' & E5').
  rewrite E5 in E5'.
  destruct (rlp_int_prefix_free _ _ _ _ _ _ A5 A5' E5') as [-> ->].
  apply concat_options_cons_inv in H as (a6 & b6 & A6 & H & E6).
  apply concat_options_cons_inv in H' as (a6' & b6' & A6' & H' & E6').
  rewrite E6 in E6'.
  destruct (rlp_bytes_prefix_free _ _ _ _ _ _ A6 A6' E6') as [-> ->].
  apply concat_options_cons_inv in H as (a7 & b7 & A7 & H & E7).
  apply concat_options_cons_inv in H' as (a7' & b7' & A7' & H' & E7').
  rewrite E7 in E7'.
  destruct (rlp_int_prefix_free _ _ _ _ _ _ A7 A7' E7') as [-> ->].
  apply concat_options_cons_inv in H as (a8 & b8 & A8 & H & E8).
  apply concat_options_cons_inv in H' as (a8' & b8' & A8' & H' & E8').
  rewrite E8 in E8'.
  destruct (rlp_bytes_prefix_free _ _ _ _ _ _ A8 A8' E8') as [-> ->].
  split; [repeat split; reflexivity|]. congruence.
Qed.

Lemma unsigned_fields_shape tx fields :
  unsigned_fields tx = Some fields ->
  exists t d,
    bytes_fromhex (skipn 2 (tx_to tx)) = Some t /\
    bytes_fromhex (skipn 2 (tx_data tx)) = Some d /\
    fields =
    [RInt (tx_chainId tx); RInt (tx_nonce tx); RInt (tx_maxPriorityFeePerGas tx);
     RInt (tx_maxFeePerGas tx); RInt (tx_gas tx); RBytes t; RInt (tx_value tx);
     RBytes d; RList []].
Proof.
  unfold unsigned_fields.
  destruct (bytes_fromhex (skipn 2 (tx_to tx))) as [t|]; [|discriminate].
  destruct (bytes_fromhex (skipn 2 (tx_data tx))) as [d|]; [|discriminate].
  intros H. injection H as <-. exists t, d. auto.
Qed.

(** X15.  The octets that compute_tx_hash hashes determine the
    transaction: two transactions with the same signing pre-image agree on
    chainId, nonce, both fees, gas, value and on the decoded octets of [to]
    and [data].  Hence two transactions that differ in any of these have
    different digests, or they exhibit a Keccak-256 collision. *)
Theorem signing_preimage_determines_fields (tx tx' : Tx) (e : bytes) :
  signing_preimage tx = Some e ->
  signing_preimage tx' = Some e ->
  unsigned_fields tx = unsigned_fields tx' /\
  tx_chainId tx = tx_chainId tx' /\ tx_nonce tx = tx_nonce tx' /\
  tx_maxPriorityFeePerGas tx = tx_maxPriorityFeePerGas tx' /\
  tx_maxFeePerGas tx = tx_maxFeePerGas tx' /\ tx_gas tx = tx_gas tx' /\
  tx_value tx = tx_value tx' /\
  bytes_fromhex (skipn 2 (tx_to tx)) = bytes_fromhex (skipn 2 (tx_to tx')) /\
  bytes_fromhex (skipn 2 (tx_data tx)) = bytes_fromhex (skipn 2 (tx_data tx')).
Proof.
  unfold signing_preimage. intros H H'.
  destruct (unsigned_fields tx) as [fields|] eqn:F; [|discriminate].
  destruct (unsigned_fields tx') as [fields'|] eqn:F'; [|discriminate].
  destruct (rlp_encode (RList fields)) as [enc|] eqn:R; [|discriminate].
  destruct (rlp_encode (RList fields')) as [enc'|] eqn:R'; [|discriminate].
  cbn [option_map] in H, H'. apply some_inj in H. subst e.
  apply some_inj in H'. apply cons_inj in H' as [_ ->].
  pose proof (rlp_list_payload_inj _ _ _ R R') as P.
  apply unsigned_fields_shape in F as (t & d & Et & Ed & ->).
  apply unsigned_fields_shape in F' as (t' & d' & Et' & Ed' & ->).
  apply rlp_encode_list_inv in R as (pl & h & Hp & _ & _).
  rewrite Hp in P. symmetry in P.
  destruct (tx_fields_inj _ _ _ _ _ _ _ _ _ _ _ _ _ _ _ _ _ _ _ Hp P)
    as ((E1 & E2 & E3 & E4 & E5 & E6 & E7 & E8) & _).
  rewrite Et, Ed, Et', Ed'.
  rewrite E1, E2, E3, E4, E5, E6, E7, E8. repeat split; reflexivity.
Qed.

Lemma signing_preimage_determines_fields_witness :
  let tx' :=
    mkTx (lit "0X5fbdb2315678AFECB367f032d93f642f64180aa3") (tx_value sample_tx)
         (tx_data sample_tx) (tx_gas sample_tx) (tx_maxFeePerGas sample_tx)
         (tx_maxPriorityFeePerGas sample_tx) (tx_nonce sample_tx)
         (tx_chainId sample_tx) (tx_type sample_tx) in
  unsigned_fields sample_tx = unsigned_fields tx' /\
  tx_chainId sample_tx = tx_chainId tx' /\ tx_nonce sample_tx = tx_nonce tx' /\
  tx_maxPriorityFeePerGas sample_tx = tx_maxPriorityFeePerGas tx' /\
  tx_maxFeePerGas sample_tx = tx_maxFeePerGas tx' /\ tx_gas sample_tx = tx_gas tx' /\
  tx_value sample_tx = tx_value tx' /\
  bytes_fromhex (skipn 2 (tx_to sample_tx)) = bytes_fromhex (skipn 2 (tx_to tx')) /\
  bytes_fromhex (skipn 2 (tx_data sample_tx)) = bytes_fromhex (skipn 2 (tx_data tx')).
Proof.
  intros tx'.
  assert (E : exists e, signing_preimage sample_tx = Some e /\
                        signing_preimage tx' = Some e).
  { eexists. split; vm_compute; reflexivity. }
  destruct E as (e & H & H').
  exact (signing_preimage_determines_fields sample_tx tx' e H H').
Defined.

Lemma to_bytes32_inj r r' b :
  to_bytes32 r = Some b -> to_bytes32 r' = Some b -> r = r'.
Proof.
  unfold to_bytes32. intros H H'.
  destruct ((0 <=? r) && (r <? 2 ^ 256)) eqn:E; [|discriminate].
  destruct ((0 <=? r') && (r' <? 2 ^ 256)) eqn:E'; [|discriminate].
  apply some_inj in H. apply some_inj in H'.
  rewrite <- (of_be_bytes_be_bytes_32 r), <- (of_be_bytes_be_bytes_32 r') by lia.
  congruence.
Qed.

(** X16.  The raw transaction that serialize_signed_tx returns determines
    what was signed and the signature: two calls with the same result agree
    on the nine transaction fields, on recid and on the numbers that the
    texts r and s denote. *)
Theorem serialized_transaction_determines_signature (tx tx' : Tx)
    (signature signature' : Signature) (raw : bytes) :
  serialize_signed_tx tx signature = Some raw ->
  serialize_signed_tx tx' signature' = Some raw ->
  unsigned_fields tx = unsigned_fields tx' /\
  sig_recid signature = sig_recid signature' /\
  int_base16 (sig_r signature) = int_base16 (sig_r signature') /\
  int_base16 (sig_s signature) = int_base16 (sig_s signature').
Proof.
  unfold serialize_signed_tx. intros H H'.
  destruct (int_base16 (sig_r signature)) as [r|]; [|discriminate].
  destruct (int_base16 (sig_s signature)) as [s|]; [|discriminate].
  destruct (int_base16 (sig_r signature')) as [r'|]; [|discriminate].
  destruct (int_base16 (sig_s signature')) as [s'|]; [|discriminate].
  destruct (unsigned_fields tx) as [fields|] eqn:F; [|discriminate].
  destruct (unsigned_fields tx') as [fields'|] eqn:F'; [|discriminate].
  destruct (to_bytes32 r) as [r32|] eqn:Er; [|discriminate].
  destruct (to_bytes32 s) as [s32|] eqn:Es; [|discriminate].
  destruct (to_bytes32 r') as [r32'|] eqn:Er'; [|discriminate].
  destruct (to_bytes32 s') as [s32'|] eqn:Es'; [|discriminate].
  destruct (rlp_encode (RList (fields ++ _))) as [enc|] eqn:R in H; [|discriminate].
  destruct (rlp_encode (RList (fields' ++ _))) as [enc'|] eqn:R' in H'; [|discriminate].
  cbn [option_map] in H, H'. apply some_inj in H. subst raw.
  apply some_inj in H'. apply cons_inj in H' as [_ ->].
  pose proof (rlp_list_payload_inj _ _ _ R R') as P.
  apply unsigned_fields_shape in F as (t & d & Et & Ed & ->).
  apply unsigned_fields_shape in F' as (t' & d' & Et' & Ed' & ->).
  apply rlp_encode_list_inv in R as (pl & h & Hp & _ & _).
  rewrite Hp in P. symmetry in P. cbn [app] in Hp, P.
  destruct (tx_fields_inj _ _ _ _ _ _ _ _ _ _ _ _ _ _ _ _ _ _ _ Hp P)
    as ((E1 & E2 & E3 & E4 & E5 & E6 & E7 & E8) & T).
  rewrite E1, E2, E3, E4, E5, E6, E7, E8. split; [reflexivity|].
  cbn [map] in T.
  destruct (concat_options
              (rlp_encode (RList []) :: rlp_encode (RInt (sig_recid signature)) ::
               rlp_encode (RBytes r32) :: rlp_encode (RBytes s32) :: nil))
    as [tl|] eqn:T1.
  2:{ exfalso. clear - Hp T1. cbn [map] in Hp.
      do 8 (apply concat_options_cons_inv in Hp as (? & ? & _ & Hp & _)).
      cbn [map] in Hp. congruence. }
  symmetry in T.
  apply concat_options_cons_inv in T1 as (a0 & b0 & A0 & T1 & ->).
  apply concat_options_cons_inv in T as (a0' & b0' & A0' & T & E0).
  assert (a0' = a0) by congruence. subst a0'. apply app_inv_head in E0. subst b0'.
  apply concat_options_cons_inv in T1 as (a1 & b1 & A1 & T1 & ->).
  apply concat_options_cons_inv in T as (a1' & b1' & A1' & T & E9).
  destruct (rlp_int_prefix_free _ _ _ _ _ _ A1 A1' E9) as [Ev ->].
  apply concat_options_cons_inv in T1 as (a2 & b2 & A2 & T1 & E10).
  apply concat_options_cons_inv in T as (a2' & b2' & A2' & T & E10').
  rewrite E10 in E10'.
  destruct (rlp_bytes_prefix_free _ _ _ _ _ _ A2 A2' E10') as [-> ->].
  apply concat_options_cons_inv in T1 as (a3 & b3 & A3 & T1 & E11).
  apply concat_options_cons_inv in T as (a3' & b3' & A3' & T & E11').
  rewrite E11 in E11'.
  destruct (rlp_bytes_prefix_free _ _ _ _ _ _ A3 A3' E11') as [-> _].
  split; [exact Ev|].
  rewrite (to_bytes32_inj _ _ _ Er Er'), (to_bytes32_inj _ _ _ Es Es').
  split; reflexivity.
Qed.

Lemma serialized_transaction_determines_signature_witness :
  let signature' :=
    mkSignature
      ([0x3000] ++ lit "0x" ++ [0x667; 0xFF19] ++
       lit "BE667EF9DCBBAC55A06295CE870B07029BFCDB2DCE28D959F2815B16F81798")
      (lit " ffff_fffffffffffffffffffffffffffebaaedce6af48a03bbfd25e8cd0364140" ++
       [10])
      0 in
  unsigned_fields sample_tx = unsigned_fields sample_tx /\
  sig_recid high_s_signature = sig_recid signature' /\
  int_base16 (sig_r high_s_signature) = int_base16 (sig_r signature') /\
  int_base16 (sig_s high_s_signature) = int_base16 (sig_s signature').
Proof.
  intros signature'.
  assert (E : exists raw, serialize_signed_tx sample_tx high_s_signature = Some raw /\
                          serialize_signed_tx sample_tx signature' = Some raw).
  { eexists. split; vm_compute; reflexivity. }
  destruct E as (raw & H & H').
  exact (serialized_transaction_determines_signature sample_tx sample_tx
           high_s_signature signature' raw H H').
Defined.

(* ================================================================== *)
(** ** Hexadecimal text, there and back *)

Lemma hex_of_bytes_nibbles b : hex_of_bytes b = map hex_digit (nibbles b).
Proof.
  unfold hex_of_bytes, nibbles. induction b as [|x b IH]; [reflexivity|].
  cbn [flat_map app map]. rewrite IH. reflexivity.
Qed.

Lemma nibbles_are_nibbles b : octets b -> Forall is_nibble (nibbles b).
Proof.
  unfold nibbles. induction 1 as [|x b Hx Hb IH]; [constructor|].
  cbn [flat_map app]. unfold is_byte in Hx.
  constructor; [|constructor; [|exact IH]]; unfold is_nibble.
  - rewrite shiftr_div by lia. change (2 ^ 4) with 16.
    Z.to_euclidean_division_equations; lia.
  - rewrite land_15. Z.to_euclidean_division_equations; lia.
Qed.

Lemma hexval_hex_digit d : is_nibble d -> hexval (hex_digit d) = Some d.
Proof.
  unfold is_nibble, hexval, hex_digit. intros Hd.
  destruct (d <? 10) eqn:E.
  - apply Z.ltb_lt in E.
    replace ((48 <=? 48 + d) && (48 + d <=? 57)) with true by lia.
    f_equal. lia.
  - apply Z.ltb_ge in E.
    replace ((48 <=? 87 + d) && (87 + d <=? 57)) with false by lia.
    replace ((97 <=? 87 + d) && (87 + d <=? 102)) with true by lia.
    f_equal. lia.
Qed.


Lemma nibble_value x : Z.shiftr x 4 * 16 + Z.land x 15 = x.
Proof.
  rewrite shiftr_div by lia. change (2 ^ 4) with 16. rewrite land_15.
  Z.to_euclidean_division_equations; lia.
Qed.





Lemma hex_digit_ranges d :
  is_nibble d -> 48 <= hex_digit d <= 57 \/ 97 <= hex_digit d <= 102.
Proof.
  unfold is_nibble, hex_digit. intros Hd. destruct (d <? 10) eqn:E; lia.
Qed.

Lemma hex_digit_not_underscore d : is_nibble d -> (hex_digit d =? 95) = false.
Proof. intros Hd. pose proof (hex_digit_ranges d Hd) as R. lia. Qed.

Lemma scan_hex_digits ds :
  Forall is_nibble ds ->
  forall acc,
    scan_hex (map hex_digit ds) acc = Some (fold_left (fun a d => a * 16 + d) ds acc).
Proof.
  induction 1 as [|d ds Hd Hds IH]; intros acc; [reflexivity|].
  cbn [map scan_hex fold_left].
  rewrite (hex_digit_not_underscore d Hd), (hexval_hex_digit d Hd). apply IH.
Qed.

Lemma nibbles_value b acc :
  fold_left (fun a d => a * 16 + d) (nibbles b) acc =
  fold_left (fun a x => a * 256 + x) b acc.
Proof.
  unfold nibbles. revert acc. induction b as [|x b IH]; intros acc; [reflexivity|].
  cbn [flat_map app fold_left]. rewrite IH. f_equal.
  pose proof (nibble_value x). lia.
Qed.

Lemma nibble_cases d :
  is_nibble d ->
  d = 0 \/ d = 1 \/ d = 2 \/ d = 3 \/ d = 4 \/ d = 5 \/ d = 6 \/ d = 7 \/
  d = 8 \/ d = 9 \/ d = 10 \/ d = 11 \/ d = 12 \/ d = 13 \/ d = 14 \/ d = 15.
Proof. unfold is_nibble. lia. Qed.

Ltac each_nibble H :=
  apply nibble_cases in H;
  repeat (destruct H as [H | H]; [subst|]); [..|subst].

Ltac compute_hex_digit :=
  repeat match goal with
         | |- context [hex_digit ?n] =>
             let v := eval vm_compute in (hex_digit n) in
             change (hex_digit n) with v
         end.

(** [int(text, 16)] at its edges: the separators U+001C to U+001F are not
    stripped, white space and decimal digits above ASCII are read, a digit of
    another script is a decimal digit only. *)
Example int_base16_edges :
  int_base16 ([0x1C] ++ lit "ff") = None /\
  int_base16 (lit "ff" ++ [0x1F]) = None /\
  int_base16 ([0xA0] ++ lit "ff" ++ [0x2003]) = Some 255 /\
  int_base16 [0x661; 0xFF10] = Some 16 /\
  int_base16 (lit "0x_f_f") = Some 255 /\
  int_base16 (lit "_ff") = None /\
  int_base16 (lit "f__f") = None /\
  int_base16 (lit "- ff") = None /\
  int_base16 (lit "-ff") = Some (-255).
Proof. vm_compute. repeat split; reflexivity. Qed.

Lemma int_text_ascii s : forallb (fun c => c <? 128) s = true -> int_text s = s.
Proof. intros H. unfold int_text. rewrite H. reflexivity. Qed.

Lemma hex_digits_ascii ds :
  Forall is_nibble ds -> forallb (fun c => c <? 128) (map hex_digit ds) = true.
Proof.
  induction 1 as [|d ds Hd Hds IH]; [reflexivity|].
  cbn [map forallb]. rewrite IH.
  pose proof (hex_digit_ranges d Hd). apply andb_true_iff. split; [lia|reflexivity].
Qed.

(** [int(text, 16)] on one or more hexadecimal digits as [hex()] writes
    them, with or without the prefix. *)
Lemma int_base16_digits d ds :
  is_nibble d -> Forall is_nibble ds ->
  int_base16 (map hex_digit (d :: ds)) =
  Some (fold_left (fun a x => a * 16 + x) (d :: ds) 0) /\
  int_base16 (lit "0x" ++ map hex_digit (d :: ds)) =
  Some (fold_left (fun a x => a * 16 + x) (d :: ds) 0).
Proof.
  intros Hd Hds.
  pose proof (scan_hex_digits ds Hds) as Hscan.
  assert (Ha : forallb (fun c => c <? 128) (map hex_digit (d :: ds)) = true)
    by (apply hex_digits_ascii; constructor; assumption).
  unfold int_base16. rewrite int_text_ascii by exact Ha.
  rewrite int_text_ascii
    by (change (lit "0x" ++ map hex_digit (d :: ds))
          with (48 :: 120 :: map hex_digit (d :: ds));
        cbn [forallb]; rewrite Ha; reflexivity).
  clear Ha.
  split.
  - destruct ds as [|d2 ds].
    + each_nibble Hd; reflexivity.
    + inversion Hds as [|? ? Hd2 Hds']; subst.
      cbn [map] in *.
      pose proof (hex_digit_ranges d2 Hd2) as R2.
      assert (X1 : (hex_digit d2 =? 120) = false) by lia.
      assert (X2 : (hex_digit d2 =? 88) = false) by lia.
      set (c2 := hex_digit d2) in *. set (rest := map hex_digit ds) in *.
      each_nibble Hd; compute_hex_digit; unfold parse_int16;
        cbn - [scan_hex Z.mul Z.add c2 rest fold_left];
        rewrite ?X1, ?X2; cbn - [scan_hex Z.mul Z.add c2 rest fold_left];
        rewrite Hscan; reflexivity.
  - change (lit "0x" ++ map hex_digit (d :: ds))
      with (48 :: 120 :: hex_digit d :: map hex_digit ds).
    set (rest := map hex_digit ds) in *.
    each_nibble Hd; compute_hex_digit; unfold parse_int16;
      cbn - [scan_hex Z.mul Z.add rest fold_left];
      rewrite Hscan; reflexivity.
Qed.

Lemma of_be_bytes_range b :
  octets b -> 0 <= of_be_bytes b < 256 ^ Z.of_nat (length b).
Proof.
  induction b as [|x b IH] using rev_ind; intros Hb.
  - cbn. lia.
  - apply Forall_app in Hb as [Hb Hx]. inversion Hx as [|? ? Hx' _]; subst.
    specialize (IH Hb). unfold is_byte in Hx'.
    rewrite of_be_bytes_snoc, length_app. cbn [length].
    rewrite Nat.add_1_r, Nat2Z.inj_succ, Z.pow_succ_r by lia. nia.
Qed.

Lemma be_bytes_snoc n v : be_bytes (S n) v = be_bytes n (v / 256) ++ [v mod 256].
Proof.
  unfold be_bytes. cbn [le_bytes rev]. rewrite land_255, shiftr_8. reflexivity.
Qed.

Lemma be_bytes_of_be_bytes b :
  octets b -> be_bytes (length b) (of_be_bytes b) = b.
Proof.
  induction b as [|x b IH] using rev_ind; intros Hb; [reflexivity|].
  apply Forall_app in Hb as [Hb Hx]. inversion Hx as [|? ? Hx' _]; subst.
  unfold is_byte in Hx'.
  rewrite length_app. cbn [length]. rewrite Nat.add_1_r, be_bytes_snoc.
  rewrite of_be_bytes_snoc.
  replace ((of_be_bytes b * 256 + x) / 256) with (of_be_bytes b)
    by (Z.to_euclidean_division_equations; lia).
  replace ((of_be_bytes b * 256 + x) mod 256) with x
    by (Z.to_euclidean_division_equations; lia).
  rewrite (IH Hb). reflexivity.
Qed.

(** X18.  The scalars of a signature are read back from their hexadecimal
    text without loss: for 32 octets written as 64 hexadecimal digits, with
    or without the 0x prefix, int(text, 16) followed by to_bytes(32, 'big')
    returns the same 32 octets, which is what serialize_signed_tx places in
    the signed transaction. *)
Theorem signature_scalar_round_trip (b : bytes) :
  octets b ->
  length b = 32%nat ->
  int_base16 (hex_of_bytes b) = Some (of_be_bytes b) /\
  int_base16 (lit "0x" ++ hex_of_bytes b) = Some (of_be_bytes b) /\
  to_bytes32 (of_be_bytes b) = Some b.
Proof.
  intros Hb Hl.
  pose proof (nibbles_are_nibbles b Hb) as Hn.
  pose proof (nibbles_value b 0) as Hv. fold (of_be_bytes b) in Hv.
  rewrite hex_of_bytes_nibbles.
  destruct (nibbles b) as [|d ds] eqn:En.
  - exfalso. destruct b; [discriminate Hl|discriminate En].
  - inversion Hn as [|? ? Hd Hds]; subst.
    destruct (int_base16_digits d ds Hd Hds) as [H1 H2].
    rewrite H1, H2, Hv. split; [reflexivity|]. split; [reflexivity|].
    pose proof (of_be_bytes_range b Hb) as R. rewrite Hl in R.
    change (256 ^ Z.of_nat 32) with (2 ^ 256) in R.
    rewrite to_bytes32_some by exact R.
    rewrite <- Hl at 1. rewrite be_bytes_of_be_bytes by exact Hb. reflexivity.
Qed.

Lemma signature_scalar_round_trip_witness :
  let b := keccak256 (lit "r") in
  int_base16 (hex_of_bytes b) = Some (of_be_bytes b) /\
  int_base16 (lit "0x" ++ hex_of_bytes b) = Some (of_be_bytes b) /\
  to_bytes32 (of_be_bytes b) = Some b.
Proof.
  intros b. apply (signature_scalar_round_trip b).
  - apply keccak256_octets.
  - apply keccak256_length.
Defined.

Lemma be_min_fuel_bound fuel : forall k n acc,
  0 <= n < 256 ^ Z.of_nat k ->
  (length (be_min_fuel fuel n acc) <= k + length acc)%nat.
Proof.
  induction fuel as [|f IH]; intros k n acc Hn; [cbn; lia|].
  cbn [be_min_fuel]. destruct (n <=? 0) eqn:E; [lia|].
  apply Z.leb_gt in E.
  destruct k as [|k]; [cbn in Hn; lia|].
  rewrite Nat2Z.inj_succ, Z.pow_succ_r in Hn by lia.
  specialize (IH k (n / 256) (n mod 256 :: acc)).
  cbn [length] in IH.
  assert (0 <= n / 256 < 256 ^ Z.of_nat k)
    by (Z.to_euclidean_division_equations; nia).
  specialize (IH H). lia.
Qed.

(** X19.  serialize_signed_tx encodes r and s as octet strings of fixed
    width and not, like the integer fields before them, in their shortest
    form: a scalar below 2^248 is written as the length prefix 0xa0 followed
    by 32 octets of which the first is zero, which is longer than, and so
    different from, the encoding that the same number has as an integer. *)
Theorem small_signature_scalar_keeps_leading_zero (r : Z) :
  0 <= r < 2 ^ 248 ->
  to_bytes32 r = Some (0 :: be_bytes 31 r) /\
  rlp_encode (RBytes (0 :: be_bytes 31 r)) = Some (160 :: 0 :: be_bytes 31 r) /\
  exists e, rlp_encode (RInt r) = Some e /\ (length e <= 32)%nat /\
            e <> 160 :: 0 :: be_bytes 31 r.
Proof.
  intros Hr.
  assert (H32 : be_bytes 32 r = 0 :: be_bytes 31 r).
  { unfold be_bytes.
    assert (G : forall n x, le_bytes (S n) x =
                            le_bytes n x ++ [Z.land (Z.shiftr x (8 * Z.of_nat n)) 255]).
    { induction n as [|n IH]; intros x.
      - cbn [le_bytes app]. rewrite Z.shiftr_0_r. reflexivity.
      - change (le_bytes (S (S n)) x)
          with (Z.land x 255 :: le_bytes (S n) (Z.shiftr x 8)).
        rewrite IH. cbn [le_bytes app]. rewrite Z.shiftr_shiftr by lia.
        replace (8 * Z.of_nat (S n)) with (8 + 8 * Z.of_nat n) by lia.
        reflexivity. }
    rewrite G, rev_app_distr. cbn [rev app].
    change (8 * Z.of_nat 31) with 248.
    rewrite Z.shiftr_div_pow2 by lia. rewrite Z.div_small by lia. reflexivity. }
  split; [rewrite to_bytes32_some by lia; rewrite H32; reflexivity|].
  split.
  { cbn [rlp_encode]. rewrite <- H32. apply encode_bytes_32. apply be_bytes_length. }
  rewrite rlp_encode_int by lia.
  assert (Hlen : (length (rlp_int_bytes r) <= 31)%nat).
  { unfold rlp_int_bytes. destruct (r =? 0); [cbn; lia|].
    unfold int_to_big_endian.
    pose proof (be_min_fuel_bound (S (Z.to_nat (Z.log2 r))) 31 r []) as B.
    change (256 ^ Z.of_nat 31) with (2 ^ 248) in B. specialize (B Hr).
    cbn [length] in B. lia. }
  destruct (encode_bytes (rlp_int_bytes r)) as [e|] eqn:Ee.
  - exists e. split; [reflexivity|].
    destruct (encode_bytes_cases _ _ Ee) as [(x & Hx & _ & ->) | (h & Hh & ->)].
    + split; [cbn; lia|]. discriminate.
    + unfold length_prefix in Hh.
      destruct (Z.of_nat (length (rlp_int_bytes r)) <? 56) eqn:E56; [|lia].
      apply some_inj in Hh. subst h.
      assert (L : (length ([(128 + Z.of_nat (length (rlp_int_bytes r)))%Z] ++
                           rlp_int_bytes r) <= 32)%nat)
        by (rewrite length_app; cbn [length]; lia).
      split; [exact L|].
      intros C. rewrite C in L. cbn [length] in L.
      rewrite be_bytes_length in L. lia.
  - exfalso.
    destruct (encode_bytes_some (rlp_int_bytes r)) as (e & He & _); [|congruence].
    lia.
Qed.

Lemma small_signature_scalar_keeps_leading_zero_witness :
  to_bytes32 1 = Some (0 :: be_bytes 31 1) /\
  rlp_encode (RBytes (0 :: be_bytes 31 1)) = Some (160 :: 0 :: be_bytes 31 1) /\
  exists e, rlp_encode (RInt 1) = Some e /\ (length e <= 32)%nat /\
            e <> 160 :: 0 :: be_bytes 31 1.
Proof.
  apply (small_signature_scalar_keeps_leading_zero 1). lia.
Defined.

(* ================================================================== *)
(** ** The read-only tool *)

(** X20.  verify_state_anchor asks for no key and never raises: whatever
    the environment - the server key may even be missing - one call makes
    exactly one request, the read of the anchor, leaves the signer's state
    alone and returns a report or a captured error. *)
Theorem verify_state_anchor_is_open_and_total (W : World) (tok : Z) (rt : Runtime) :
  exists report,
    verify_state_anchor W tok rt =
    (Ok report, mkRuntime (service rt) (trace rt ++ [EvGetStateAnchor tok])) /\
    verify_state_anchor (with_server_key W None) tok rt =
    (Ok report, mkRuntime (service rt) (trace rt ++ [EvGetStateAnchor tok])).
Proof.
  unfold verify_state_anchor, try_except, bind, request, lift, ret.
  change (getStateAnchor (with_server_key W None) tok) with (getStateAnchor W tok).
  destruct (getStateAnchor W tok) as [[[h uri] ts]|e]; cbn [fst snd service trace].
  - destruct (0 <? ts).
    + destruct (utc_isoformat ts) as [iso|]; cbn [of_option];
        eexists; split; reflexivity.
    + eexists; split; reflexivity.
  - eexists; split; reflexivity.
Qed.

(** X21.  What verify_state_anchor reports for an anchor (hash, uri,
    timestamp): the hash as 0x and 64 hexadecimal digits - the same text that
    step 2 of anchor_action_via_pkp records as the creator's state - and the
    time in ISO form with a final Z; a timestamp of zero, which is what a
    token without anchor has, is reported without a time instead of as 1970,
    and one beyond the year 9999 makes the whole report an error. *)
Theorem verify_state_anchor_report (W : World) (tok : Z) (rt : Runtime)
    (h : bytes) (uri : pystr) (ts : Z) :
  getStateAnchor W tok = Ok (h, uri, ts) ->
  0 <= ts ->
  fst (lookup_creator_state_hash W tok rt) = Ok (lit "0x" ++ hex_of_bytes h) /\
  (ts = 0 ->
   fst (verify_state_anchor W tok rt) =
   Ok (AnchorReport tok (lit "0x" ++ hex_of_bytes h) uri 0 None)) /\
  (0 < ts <= MAX_TIMESTAMP ->
   exists iso,
     utc_isoformat ts = Some iso /\
     fst (verify_state_anchor W tok rt) =
     Ok (AnchorReport tok (lit "0x" ++ hex_of_bytes h) uri ts
                      (Some (iso ++ lit "Z")))) /\
  (MAX_TIMESTAMP < ts ->
   fst (verify_state_anchor W tok rt) = Ok (AnchorError OutOfRangeTime)).
Proof.
  intros Hres Hts.
  split; [rewrite (lookup_creator_state_hash_ok W tok rt h uri ts Hres); reflexivity|].
  unfold verify_state_anchor, try_except, bind, request, lift, ret.
  rewrite Hres. cbn [fst snd service trace].
  split; [|split].
  - intros ->. reflexivity.
  - intros Hr. destruct (0 <? ts) eqn:E; [|apply Z.ltb_ge in E; lia].
    destruct (utc_isoformat_some ts) as (iso & Hiso).
    { unfold valid_timestamp. apply andb_true_iff.
      split; [apply Z.leb_le; unfold MIN_TIMESTAMP; lia|apply Z.leb_le; lia]. }
    exists iso. rewrite Hiso. split; reflexivity.
  - intros Hr. destruct (0 <? ts) eqn:E; [|apply Z.ltb_ge in E; unfold MAX_TIMESTAMP in Hr; lia].
    unfold utc_isoformat.
    replace ((ts <? MIN_TIMESTAMP) || (MAX_TIMESTAMP <? ts)) with true
      by (symmetry; apply orb_true_iff; right; apply Z.ltb_lt; exact Hr).
    reflexivity.
Qed.

Lemma verify_state_anchor_report_witness :
  let h := keccak256 (lit "state") in
  let W ts := with_getStateAnchor sample_world (fun _ => Ok (h, lit "ipfs://s", ts)) in
  fst (verify_state_anchor (W 0) 2 initial_runtime) =
  Ok (AnchorReport 2 (lit "0x" ++ hex_of_bytes h) (lit "ipfs://s") 0 None) /\
  fst (verify_state_anchor (W 1700000000) 2 initial_runtime) =
  Ok (AnchorReport 2 (lit "0x" ++ hex_of_bytes h) (lit "ipfs://s") 1700000000
                   (Some (lit "2023-11-14T22:13:20Z"))) /\
  fst (verify_state_anchor (W (MAX_TIMESTAMP + 1)) 2 initial_runtime) =
  Ok (AnchorError OutOfRangeTime).
Proof.
  intros h W.
  destruct (verify_state_anchor_report (W 0) 2 initial_runtime h (lit "ipfs://s") 0
              eq_refl ltac:(lia)) as (_ & H0 & _ & _).
  destruct (verify_state_anchor_report (W 1700000000) 2 initial_runtime h
              (lit "ipfs://s") 1700000000 eq_refl ltac:(lia)) as (_ & _ & H1 & _).
  destruct (verify_state_anchor_report (W (MAX_TIMESTAMP + 1)) 2 initial_runtime h
              (lit "ipfs://s") (MAX_TIMESTAMP + 1) eq_refl ltac:(vm_compute; discriminate))
    as (_ & _ & _ & H2).
  split; [apply H0; reflexivity|]. split.
  - destruct H1 as (iso & Hiso & Hr); [vm_compute; split; [reflexivity|discriminate]|].
    vm_compute in Hiso. apply some_inj in Hiso. subst iso. exact Hr.
  - apply H2. vm_compute. reflexivity.
Defined.

(* ================================================================== *)
(** ** Further properties of the agent-side tool *)

(** X22.  Without its contract address or its executor key (unset or
    empty) anchor_my_state returns the configuration error at once: the
    agent's state is not even exported, and nothing is requested. *)
Theorem anchor_my_state_needs_configuration (W : World) (agent_id : pystr)
    (tok : Z) (include_archival : bool) (rt : Runtime) :
  unset (CONTRACT_ADDRESS W) \/ unset (AGENT_EXECUTOR_PRIVATE_KEY W) ->
  anchor_my_state W agent_id tok include_archival rt = (Ok ErrorNotConfigured, rt).
Proof.
  unfold unset, anchor_my_state. intros [[-> | ->] | [-> | ->]];
    try reflexivity;
    destruct (CONTRACT_ADDRESS W) as [[|c cs]|]; reflexivity.
Qed.

Lemma anchor_my_state_needs_configuration_witness :
  anchor_my_state (without_contract_address sample_world) (lit "agent-1") 1 true
    initial_runtime = (Ok ErrorNotConfigured, initial_runtime).
Proof.
  apply (anchor_my_state_needs_configuration (without_contract_address sample_world)).
  left. left. reflexivity.
Defined.

Ltac trace_counts :=
  unfold signing_requests, broadcasts, local_signings, simulations;
  rewrite ?flat_map_app; cbn [flat_map app]; rewrite ?app_nil_r.

(** X23.  An error text of anchor_my_state does not mean that nothing was
    anchored: when the transaction has been mined with status 1 and the
    lookup of the token-bound account that follows raises, the tool returns
    that error although the anchor is on the chain. *)
Theorem anchor_my_state_error_after_anchoring (W : World) (agent_id : pystr)
    (tok : Z) (include_archival : bool) (rt : Runtime) (c k : Z) (cs ks : pystr)
    (state : json) (executor : pystr) (nonce gas base_fee : Z) (tx : Tx)
    (signed tx_hash : bytes) (receipt : Receipt) (e : exn) :
  CONTRACT_ADDRESS W = Some (c :: cs) ->
  AGENT_EXECUTOR_PRIVATE_KEY W = Some (k :: ks) ->
  export_state W agent_id include_archival = Ok state ->
  account_from_key W (k :: ks) = Ok executor ->
  get_transaction_count W executor = Ok nonce ->
  build_transaction W tok (keccak256 (dumps_compact state))
    (agent_state_uri agent_id (keccak256 (dumps_compact state))) nonce = Ok tx ->
  estimate_gas W tx = Ok gas ->
  get_block_baseFeePerGas W = Ok base_fee ->
  sign_transaction W
    (mkTx (tx_to tx) (tx_value tx) (tx_data tx) gas (base_fee * 2 + 1000000)
          1000000 (tx_nonce tx) (tx_chainId tx) (tx_type tx)) = Ok signed ->
  send_raw_transaction W signed = Ok tx_hash ->
  wait_for_transaction_receipt W tx_hash = Ok receipt ->
  status receipt = 1 ->
  getAgentTBA W tok = Raise e ->
  let r := anchor_my_state W agent_id tok include_archival rt in
  fst r = Ok (ErrorText e) /\
  broadcasts (trace (snd r)) = broadcasts (trace rt) ++ [signed].
Proof.
  intros Hc Hk Hexp Hacc Hn Hbuild Hgas Hfee Hsign Hsend Hwait Hst Htba r. subst r.
  pose proof (anchor_my_state_hash_eq state) as Hhash.
  unfold anchor_my_state. rewrite Hc, Hk.
  unfold try_except, bind, request, lift, ret.
  cbn [service trace]. rewrite Hexp, Hhash. cbn [of_option].
  rewrite Hacc. cbn [service trace]. rewrite Hn. cbn [service trace].
  fold (agent_state_uri agent_id (keccak256 (dumps_compact state))).
  rewrite Hbuild. cbn [service trace].
  rewrite Hgas. cbn [service trace]. rewrite Hfee. cbn [service trace].
  rewrite Hsign. cbn [service trace]. rewrite Hsend. cbn [service trace].
  rewrite Hwait, Hst. cbn [service trace negb Z.eqb Pos.eqb].
  rewrite Htba. cbn [fst snd trace]. split; [reflexivity|].
  trace_counts. reflexivity.
Qed.

Lemma anchor_my_state_error_after_anchoring_witness :
  let W :=
    with_receipt_and_tba sample_world
      (fun _ => Ok (mkReceipt 1 1234567 81234 (lit "AttributeDict({...})")))
      (fun _ => Raise (External (lit "execution reverted"))) in
  let r := anchor_my_state W (lit "agent-1") 1 true initial_runtime in
  fst r = Ok (ErrorText (External (lit "execution reverted"))) /\
  broadcasts (trace (snd r)) = broadcasts (trace initial_runtime) ++ [[1; 2; 3]].
Proof.
  intros W.
  eapply (anchor_my_state_error_after_anchoring W (lit "agent-1") 1 true
            initial_runtime); try reflexivity.
Defined.

Lemma app_one_neq {A : Type} (l : list A) (x : A) : l ++ [x] <> l.
Proof.
  intros H. apply (f_equal (@length A)) in H.
  rewrite length_app in H. cbn [length] in H. lia.
Qed.

(** X24.  anchor_my_state always returns a text - every exception is
    captured - and never touches the signing service of the server or asks it
    for a signature.  One call broadcasts at most once, and only what the
    local signer returned for the one transaction it was given, which carries
    the tool's priority fee of 0.001 gwei; and the success text is returned
    only after such a broadcast. *)
Theorem anchor_my_state_is_total_and_signs_once (W : World) (agent_id : pystr)
    (tok : Z) (include_archival : bool) (rt : Runtime) :
  let r := anchor_my_state W agent_id tok include_archival rt in
  (exists text, fst r = Ok text) /\
  service (snd r) = service rt /\
  signing_requests (trace (snd r)) = signing_requests (trace rt) /\
  signs_locally_then_broadcasts W rt (snd r) /\
  (forall h uri tx_hash gas_used,
      fst r = Ok (Anchored h uri tx_hash gas_used) ->
      broadcasts (trace (snd r)) <> broadcasts (trace rt)).
Proof.
  intros r. subst r. unfold signs_locally_then_broadcasts, anchor_my_state.
  destruct (CONTRACT_ADDRESS W) as [[|c cs]|];
    try (repeat split; try (eexists; reflexivity); try (left; reflexivity);
         intros; discriminate).
  destruct (AGENT_EXECUTOR_PRIVATE_KEY W) as [[|k ks]|];
    try (repeat split; try (eexists; reflexivity); try (left; reflexivity);
         intros; discriminate).
  unfold try_except, bind, request, lift, ret. cbn [service trace].
  destruct (export_state W agent_id include_archival) as [state|e0];
    cbn [service trace fst snd];
    [|split; [eexists; reflexivity|]; split; [reflexivity|];
      split; [trace_counts; reflexivity|];
      split; [left; trace_counts; reflexivity|intros; discriminate]].
  destruct (anchor_my_state_hash state) as [h|]; cbn [of_option service trace fst snd];
    [|split; [eexists; reflexivity|]; split; [reflexivity|];
      split; [trace_counts; reflexivity|];
      split; [left; trace_counts; reflexivity|intros; discriminate]].
  destruct (account_from_key W (k :: ks)) as [executor|e1];
    cbn [service trace fst snd];
    [|split; [eexists; reflexivity|]; split; [reflexivity|];
      split; [trace_counts; reflexivity|];
      split; [left; trace_counts; reflexivity|intros; discriminate]].
  destruct (get_transaction_count W executor) as [nonce|e2];
    cbn [service trace fst snd];
    [|split; [eexists; reflexivity|]; split; [reflexivity|];
      split; [trace_counts; reflexivity|];
      split; [left; trace_counts; reflexivity|intros; discriminate]].
  destruct (build_transaction W tok h _ nonce) as [tx|e3];
    cbn [service trace fst snd];
    [|split; [eexists; reflexivity|]; split; [reflexivity|];
      split; [trace_counts; reflexivity|];
      split; [left; trace_counts; reflexivity|intros; discriminate]].
  destruct (estimate_gas W tx) as [gas|e4];
    cbn [service trace fst snd];
    [|split; [eexists; reflexivity|]; split; [reflexivity|];
      split; [trace_counts; reflexivity|];
      split; [left; trace_counts; reflexivity|intros; discriminate]].
  destruct (get_block_baseFeePerGas W) as [base_fee|e5];
    cbn [service trace fst snd];
    [|split; [eexists; reflexivity|]; split; [reflexivity|];
      split; [trace_counts; reflexivity|];
      split; [left; trace_counts; reflexivity|intros; discriminate]].
  destruct (sign_transaction W _) as [signed|e6] eqn:Hsign;
    cbn [service trace fst snd];
    [|split; [eexists; reflexivity|]; split; [reflexivity|];
      split; [trace_counts; reflexivity|];
      split; [left; trace_counts; reflexivity|intros; discriminate]].
  assert (Hright : forall tr',
    local_signings tr' = local_signings (trace rt) ++
      [mkTx (tx_to tx) (tx_value tx) (tx_data tx) gas (base_fee * 2 + 1000000)
            1000000 (tx_nonce tx) (tx_chainId tx) (tx_type tx)] ->
    broadcasts tr' = broadcasts (trace rt) ++ [signed] ->
    broadcasts tr' = broadcasts (trace rt) \/
    exists tx0 signed0,
      sign_transaction W tx0 = Ok signed0 /\
      tx_maxPriorityFeePerGas tx0 = 1000000 /\
      local_signings tr' = local_signings (trace rt) ++ [tx0] /\
      broadcasts tr' = broadcasts (trace rt) ++ [signed0]).
  { intros tr' H1 H2. right. eexists. eexists.
    split; [exact Hsign|]. split; [reflexivity|]. split; assumption. }
  destruct (send_raw_transaction W signed) as [sent|e7];
    cbn [service trace fst snd];
    [|split; [eexists; reflexivity|]; split; [reflexivity|];
      split; [trace_counts; reflexivity|];
      split; [apply Hright; trace_counts; reflexivity|intros; discriminate]].
  destruct (wait_for_transaction_receipt W sent) as [receipt|e8];
    cbn [service trace fst snd];
    [|split; [eexists; reflexivity|]; split; [reflexivity|];
      split; [trace_counts; reflexivity|];
      split; [apply Hright; trace_counts; reflexivity|intros; discriminate]].
  destruct (negb (status receipt =? 1)); cbn [service trace fst snd];
    [split; [eexists; reflexivity|]; split; [reflexivity|];
     split; [trace_counts; reflexivity|];
     split; [apply Hright; trace_counts; reflexivity|intros; discriminate]|].
  destruct (getAgentTBA W tok) as [tba|e9]; cbn [service trace fst snd];
    (split; [eexists; reflexivity|]); (split; [reflexivity|]);
    (split; [trace_counts; reflexivity|]);
    (split; [apply Hright; trace_counts; reflexivity|]);
    intros; try discriminate.
  trace_counts. apply app_one_neq.
Qed.

(* ================================================================== *)
(** ** The agent's wallet *)

Lemma wallet_anchor_state_hash_eq state_data :
  wallet_anchor_state_hash state_data = Some (sha256 (dumps_default state_data)).
Proof.
  unfold wallet_anchor_state_hash.
  rewrite (utf8_encode_ascii _ (dumps_default_ascii state_data)). reflexivity.
Qed.



Ltac wallet_counts :=
  unfold Wallet.signings, Wallet.broadcasts, Wallet.simulations;
  rewrite ?flat_map_app; cbn [flat_map app]; rewrite ?app_nil_r.

(** X26.  The gas limit of the wallet's sign_transaction.  A limit given
    by the caller - zero included - goes into the transaction as it is, and
    the chain is not asked to simulate; without one the wallet simulates the
    call {to, from, value, data} and uses the estimate, and when that
    simulation raises, the exception leaves sign_transaction with nothing
    signed. *)
Theorem wallet_gas_limit (C : Wallet.Chain) (w : Wallet.SelfSovereignWallet)
    (executor : pystr) (to : option pystr) (value : Z) (data : bytes)
    (nonce price : Z) (tr : list Wallet.event) :
  Wallet.account w = Some executor ->
  Wallet.eth_get_transaction_count C executor = Ok nonce ->
  Wallet.eth_gas_price C = Ok price ->
  let call := Wallet.mkCallRequest to executor value data in
  (forall g,
      let r := Wallet.sign_transaction C w to value data (Some g) tr in
      Wallet.simulations (snd r) = Wallet.simulations tr /\
      Wallet.signings (snd r) =
      Wallet.signings tr ++
      [Wallet.mkLegacyTx nonce to value g price (Wallet.chain_id w) data]) /\
  (forall g,
      Wallet.eth_estimate_gas C call = Ok g ->
      let r := Wallet.sign_transaction C w to value data None tr in
      Wallet.simulations (snd r) = Wallet.simulations tr ++ [call] /\
      Wallet.signings (snd r) =
      Wallet.signings tr ++
      [Wallet.mkLegacyTx nonce to value g price (Wallet.chain_id w) data]) /\
  (forall e,
      Wallet.eth_estimate_gas C call = Raise e ->
      Wallet.sign_transaction C w to value data None tr =
      (Raise e, tr ++ [Wallet.GetTransactionCount executor; Wallet.EstimateGas call])).
Proof.
  intros Hacc Hnonce Hprice call. subst call.
  split; [|split].
  - intros g r. subst r.
    unfold Wallet.sign_transaction, Wallet.bind, Wallet.request, Wallet.ret.
    rewrite Hacc, Hnonce, Hprice.
    destruct (Wallet.account_sign_transaction C executor _) as [signed|e];
      [destruct (Wallet.eth_send_raw_transaction C signed) as [sent|e];
       [destruct (Wallet.eth_wait_for_transaction_receipt C sent) as [rc|e]|]|];
      cbn [snd]; wallet_counts; split; reflexivity.
  - intros g Hest r. subst r.
    unfold Wallet.sign_transaction, Wallet.bind, Wallet.request, Wallet.ret.
    rewrite Hacc, Hnonce, Hest, Hprice.
    destruct (Wallet.account_sign_transaction C executor _) as [signed|e];
      [destruct (Wallet.eth_send_raw_transaction C signed) as [sent|e];
       [destruct (Wallet.eth_wait_for_transaction_receipt C sent) as [rc|e]|]|];
      cbn [snd]; wallet_counts; split; reflexivity.
  - intros e Hest.
    unfold Wallet.sign_transaction, Wallet.bind, Wallet.request, Wallet.ret.
    rewrite Hacc, Hnonce, Hest. rewrite <- app_assoc. reflexivity.
Qed.

Lemma wallet_gas_limit_witness :
  let C := Wallet.sample_chain in
  let w := Wallet.sample_wallet in
  let executor := lit "0x3C44CdDdB6a900fa2b585dd299e03d12FA4293BC" in
  let to := Some (lit "0x90F79bf6EB2c4f870365E785982E1f101E93b906") in
  let call := Wallet.mkCallRequest to executor 10 [] in
  (let r := Wallet.sign_transaction C w to 10 [] (Some 0) [] in
   Wallet.simulations (snd r) = Wallet.simulations [] /\
   Wallet.signings (snd r) =
   Wallet.signings [] ++
   [Wallet.mkLegacyTx 5 to 10 0 1000000000 (Wallet.chain_id w) []]) /\
  (let r := Wallet.sign_transaction C w to 10 [] None [] in
   Wallet.simulations (snd r) = Wallet.simulations [] ++ [call] /\
   Wallet.signings (snd r) =
   Wallet.signings [] ++
   [Wallet.mkLegacyTx 5 to 10 60000 1000000000 (Wallet.chain_id w) []]).
Proof.
  intros C w executor to call.
  destruct (wallet_gas_limit C w executor to 10 [] 5 1000000000 [])
    as (H1 & H2 & _); try reflexivity.
  split; [apply (H1 0)|apply (H2 60000); reflexivity].
Defined.

(** X27.  A reverted transaction is no failure for the wallet.  When the
    receipt has a status other than 1, sign_transaction returns normally with
    the status "failed", and heartbeat, which does not look at the status,
    answers "Liveness proof submitted" with the hash of the reverted
    transaction. *)
Theorem reverted_heartbeat_is_reported_as_submitted (C : Wallet.Chain)
    (w : Wallet.SelfSovereignWallet) (executor : pystr) (block nonce gas price : Z)
    (signature signed sent : bytes) (d : Wallet.abi_data) (octets : bytes)
    (receipt : Wallet.TxReceipt) (tr : list Wallet.event) :
  Wallet.account w = Some executor ->
  Wallet.eth_block_number C = Ok block ->
  Wallet.account_sign_message C executor
    (lit "liveness:" ++ Wallet.token_text (Wallet.token_id w) ++ lit ":" ++
     int_repr block) = Ok signature ->
  Wallet.encodeABI_submitLivenessProof C (Wallet.contract_address w)
    (Wallet.token_id w) (firstn 32 signature) = Ok d ->
  Wallet.call_data_octets d = Ok octets ->
  Wallet.eth_get_transaction_count C executor = Ok nonce ->
  Wallet.eth_estimate_gas C
    (Wallet.mkCallRequest (Wallet.contract_address w) executor 0 octets) = Ok gas ->
  Wallet.eth_gas_price C = Ok price ->
  Wallet.account_sign_transaction C executor
    (Wallet.mkLegacyTx nonce (Wallet.contract_address w) 0 gas price
                       (Wallet.chain_id w) octets) = Ok signed ->
  Wallet.eth_send_raw_transaction C signed = Ok sent ->
  Wallet.eth_wait_for_transaction_receipt C sent = Ok receipt ->
  Wallet.receipt_status receipt <> 1 ->
  fst (Wallet.submit_liveness_proof C w None tr) =
  Ok (Wallet.mkTxResult (Wallet.transactionHash receipt)
        (Wallet.receipt_blockNumber receipt) (Wallet.receipt_gasUsed receipt)
        Wallet.failed) /\
  fst (Wallet.heartbeat C w tr) =
  Ok (Wallet.LivenessProofSubmitted (Wallet.transactionHash receipt)).
Proof.
  intros Hacc Hblock Hmsg Henc Hoct Hnonce Hgas Hprice Hsign Hsend Hwait Hst.
  apply Z.eqb_neq in Hst.
  unfold Wallet.heartbeat, Wallet.try_except, Wallet.submit_liveness_proof,
    Wallet.sign_transaction, Wallet.bind, Wallet.request, Wallet.ret, Wallet.lift.
  rewrite Hacc, Hblock, Hmsg, Henc, Hoct, Hnonce, Hgas, Hprice, Hsign, Hsend,
    Hwait, Hst.
  split; reflexivity.
Qed.

Lemma reverted_heartbeat_is_reported_as_submitted_witness :
  fst (Wallet.submit_liveness_proof Wallet.sample_chain Wallet.sample_wallet None []) =
  Ok (Wallet.mkTxResult (repeat 171 32%nat) 1234567 60000 Wallet.failed) /\
  fst (Wallet.heartbeat Wallet.sample_chain Wallet.sample_wallet []) =
  Ok (Wallet.LivenessProofSubmitted (repeat 171 32%nat)).
Proof.
  eapply (reverted_heartbeat_is_reported_as_submitted Wallet.sample_chain
            Wallet.sample_wallet _ _ _ _ _ _ _ _ _ _
            (Wallet.mkTxReceipt (repeat 171 32%nat) 1234567 60000 0) []);
    try reflexivity.
  discriminate.
Defined.

(** X28.  When encodeABI returns the call data as text, anchor_state does
    not decode it: the transaction it simulates and signs carries the
    characters of the text - "0x" included - as its data, an octet string
    more than twice as long as, and so different from, the call data that the
    text denotes. *)
Theorem anchor_state_sends_the_text_of_the_call_data (C : Wallet.Chain)
    (w : Wallet.SelfSovereignWallet) (executor : pystr) (state_data : json)
    (state_uri s : pystr) (nonce gas price : Z) (tr : list Wallet.event) :
  Wallet.account w = Some executor ->
  Wallet.encodeABI_anchorState C (Wallet.contract_address w) (Wallet.token_id w)
    (sha256 (dumps_default state_data)) state_uri = Ok (Wallet.AbiText s) ->
  ascii_text s ->
  Wallet.eth_get_transaction_count C executor = Ok nonce ->
  Wallet.eth_estimate_gas C
    (Wallet.mkCallRequest (Wallet.contract_address w) executor 0 s) = Ok gas ->
  Wallet.eth_gas_price C = Ok price ->
  let r := Wallet.anchor_state C w state_data state_uri tr in
  Wallet.signings (snd r) =
  Wallet.signings tr ++
  [Wallet.mkLegacyTx nonce (Wallet.contract_address w) 0 gas price
                     (Wallet.chain_id w) s] /\
  (forall d, bytes_fromhex (skipn 2 s) = Some d ->
             (2 <= length s)%nat ->
             (2 * length d + 2 <= length s)%nat /\ s <> d).
Proof.
  intros Hacc Henc Hs Hnonce Hgas Hprice r. subst r. split.
  - unfold Wallet.anchor_state, Wallet.sign_transaction, Wallet.bind, Wallet.request,
      Wallet.ret, Wallet.lift.
    rewrite wallet_anchor_state_hash_eq. cbn [of_option].
    rewrite Henc. cbn [Wallet.call_data_octets].
    rewrite (utf8_encode_ascii s Hs). cbn [of_option].
    rewrite Hacc, Hnonce, Hgas, Hprice.
    destruct (Wallet.account_sign_transaction C executor _) as [signed|e];
      [destruct (Wallet.eth_send_raw_transaction C signed) as [sent|e];
       [destruct (Wallet.eth_wait_for_transaction_receipt C sent) as [rc|e]|]|];
      cbn [snd]; wallet_counts; reflexivity.
  - intros d Hd Hlen.
    pose proof (bytes_fromhex_count_aux _ _ _ (Nat.le_refl _) Hd) as Hc.
    rewrite length_skipn in Hc.
    split; [lia|]. intros E. subst d. lia.
Qed.

Lemma anchor_state_sends_the_text_of_the_call_data_witness :
  let w := Wallet.sample_wallet in
  let s := lit "0x2f2ff15d00ab" in
  let d := [47; 47; 241; 93; 0; 171] in
  let r :=
    Wallet.anchor_state Wallet.sample_chain w
      (JDict [(lit "agent_id", JStr (lit "kieran"))]) (lit "ipfs://s") [] in
  Wallet.signings (snd r) =
  Wallet.signings [] ++
  [Wallet.mkLegacyTx 5 (Wallet.contract_address w) 0 60000 1000000000
                     (Wallet.chain_id w) s] /\
  (2 * length d + 2 <= length s)%nat /\ s <> d.
Proof.
  intros w s d.
  destruct (anchor_state_sends_the_text_of_the_call_data Wallet.sample_chain w
              (lit "0x3C44CdDdB6a900fa2b585dd299e03d12FA4293BC")
              (JDict [(lit "agent_id", JStr (lit "kieran"))]) (lit "ipfs://s") s
              5 60000 1000000000 []) as [H1 H2]; try reflexivity.
  - repeat constructor; lia.
  - split; [exact H1|]. apply H2; [reflexivity|]. cbn. lia.
Defined.

(** X29.  The wallet's two contract queries need the contract address and
    the token id: if one of them is None they raise "Contract address and
    token ID must be set" without any request, and check_self_ownership turns
    that into its error text.  The token id 0 is a token id: with an address
    the query is made for it. *)
Theorem wallet_queries_need_configuration (C : Wallet.Chain)
    (w : Wallet.SelfSovereignWallet) (tr : list Wallet.event) :
  (Wallet.contract_address w = None \/ Wallet.token_id w = None ->
   Wallet._get_tba_address C w tr = (Raise Wallet.NotConfigured, tr) /\
   Wallet.is_self_owning C w tr = (Raise Wallet.NotConfigured, tr) /\
   Wallet.check_self_ownership C w tr =
   (Ok (Wallet.OwnershipError Wallet.NotConfigured), tr)) /\
  (forall contract,
      Wallet.contract_address w = Some contract -> Wallet.token_id w = Some 0 ->
      Wallet.is_self_owning C w tr =
      (Wallet.isSelfOwning C contract 0, tr ++ [Wallet.IsSelfOwning contract 0])).
Proof.
  split.
  - intros H.
    unfold Wallet.check_self_ownership, Wallet.try_except, Wallet.bind,
      Wallet._get_tba_address, Wallet.is_self_owning.
    destruct H as [-> | ->].
    + repeat split; reflexivity.
    + destruct (Wallet.contract_address w); repeat split; reflexivity.
  - intros contract Hc Ht. unfold Wallet.is_self_owning. rewrite Hc, Ht. reflexivity.
Qed.

Lemma wallet_queries_need_configuration_witness :
  let w := Wallet.mkWallet None 84532 None (Some 0) in
  (Wallet._get_tba_address Wallet.sample_chain w [] = (Raise Wallet.NotConfigured, []) /\
   Wallet.is_self_owning Wallet.sample_chain w [] = (Raise Wallet.NotConfigured, []) /\
   Wallet.check_self_ownership Wallet.sample_chain w [] =
   (Ok (Wallet.OwnershipError Wallet.NotConfigured), [])) /\
  Wallet.is_self_owning Wallet.sample_chain Wallet.sample_wallet [] =
  (Ok false,
   [Wallet.IsSelfOwning (lit "0x5FbDB2315678afecb367f032d93F642f64180aa3") 0]).
Proof.
  intros w. split.
  - apply (proj1 (wallet_queries_need_configuration Wallet.sample_chain w [])).
    left. reflexivity.
  - apply (proj2 (wallet_queries_need_configuration Wallet.sample_chain
                    Wallet.sample_wallet [])
             (lit "0x5FbDB2315678afecb367f032d93F642f64180aa3"));
      reflexivity.
Defined.

(* ================================================================== *)
(** ** The end-to-end script *)

Ltac ouroboros_counts :=
  unfold Ouroboros.connections, Ouroboros.disconnections,
    Ouroboros.signing_requests, Ouroboros.broadcasts;
  rewrite ?flat_map_app; cbn [flat_map app]; rewrite ?app_nil_r.

(** X30.  How the script leaves the signing network.  When the
    authorization is refused, main returns with the client still connected:
    it has connected once, it has neither asked for a signature nor
    disconnected.  Once it has broadcast, it disconnects whatever follows -
    a raised broadcast, a timeout, a revert, a mismatch of the anchored hash -
    and that disconnection is the last thing it does. *)
Theorem ouroboros_main_disconnects_after_broadcast (W : World)
    (get_balance : pystr -> outcome Z) (tr : list Ouroboros.step) :
  let r := Ouroboros.main W get_balance tr in
  (fst r = Ok Ouroboros.SessionSigsRefused ->
   Ouroboros.connections (snd r) = Ouroboros.connections tr ++ [tt] /\
   Ouroboros.disconnections (snd r) = Ouroboros.disconnections tr /\
   Ouroboros.signing_requests (snd r) = Ouroboros.signing_requests tr) /\
  (Ouroboros.broadcasts (snd r) <> Ouroboros.broadcasts tr ->
   exists tr0, snd r = tr0 ++ [Ouroboros.Logged EvLitDisconnect]).
Proof.
  intros r. subst r. unfold Ouroboros.main.
  destruct (PKP_ETH_ADDRESS W) as [pkp|] eqn:Hpkp;
    [|split; [discriminate|intros H; exfalso; apply H; reflexivity]].
  unfold Ouroboros.build_anchor_transaction. rewrite Hpkp.
  unfold Ouroboros.bind, Ouroboros.request, Ouroboros.lift, Ouroboros.ret,
    Ouroboros.raise, Ouroboros.try_finally, Ouroboros.try_except.
  assert (Hno : forall (o : outcome Ouroboros.report) t,
    Ouroboros.broadcasts t = Ouroboros.broadcasts tr ->
    (forall x, o <> Ok x) ->
    (fst (o, t) = Ok Ouroboros.SessionSigsRefused ->
     Ouroboros.connections (snd (o, t)) = Ouroboros.connections tr ++ [tt] /\
     Ouroboros.disconnections (snd (o, t)) = Ouroboros.disconnections tr /\
     Ouroboros.signing_requests (snd (o, t)) = Ouroboros.signing_requests tr) /\
    (Ouroboros.broadcasts (snd (o, t)) <> Ouroboros.broadcasts tr ->
     exists tr0, snd (o, t) = tr0 ++ [Ouroboros.Logged EvLitDisconnect])).
  { intros o t Hb Ho. cbn [fst snd]. split.
    - intros E. exfalso. exact (Ho _ E).
    - intros H. contradiction. }
  destruct (get_balance pkp) as [bal|e];
    [|apply Hno; [ouroboros_counts; reflexivity|intros ? ?; discriminate]].
  destruct (ouroboros_state_hash _) as [state_hash|]; cbn [of_option];
    [|apply Hno; [ouroboros_counts; reflexivity|intros ? ?; discriminate]].
  destruct (get_transaction_count W pkp) as [nonce|e];
    [|apply Hno; [ouroboros_counts; reflexivity|intros ? ?; discriminate]].
  destruct (get_block_baseFeePerGas W) as [base_fee|e];
    [|apply Hno; [ouroboros_counts; reflexivity|intros ? ?; discriminate]].
  destruct (encode_abi W _ _ _) as [tx_data|e];
    [|apply Hno; [ouroboros_counts; reflexivity|intros ? ?; discriminate]].
  destruct (CONTRACT_ADDRESS W) as [contract|];
    [|apply Hno; [ouroboros_counts; reflexivity|intros ? ?; discriminate]].
  destruct (compute_tx_hash _) as [tx_hash|]; cbn [of_option];
    [|apply Hno; [ouroboros_counts; reflexivity|intros ? ?; discriminate]].
  destruct (lit_connect W) as [u|e];
    [|apply Hno; [ouroboros_counts; reflexivity|intros ? ?; discriminate]].
  destruct (DEPLOYER_PRIVATE_KEY W) as [pk|];
    [|apply Hno; [ouroboros_counts; reflexivity|intros ? ?; discriminate]].
  destruct (requested_expiration (utcnow W)) as [expiration|e];
    [|apply Hno; [ouroboros_counts; reflexivity|intros ? ?; discriminate]].
  destruct (get_session_sigs W expiration) as [result|e];
    [|apply Hno; [ouroboros_counts; reflexivity|intros ? ?; discriminate]].
  destruct (negb (success result)).
  { cbn [fst snd]. split.
    - intros _. ouroboros_counts. repeat split; reflexivity.
    - intros H. exfalso. apply H. ouroboros_counts. reflexivity. }
  destruct (execute_js W tx_hash (sessionSigs result)) as [sign_result|e];
    [|apply Hno; [ouroboros_counts; reflexivity|intros ? ?; discriminate]].
  destruct (anchorStateSig sign_result) as [signature|].
  2:{ destruct (lit_disconnect W) as [u'|e]; cbn [fst snd];
        (split; [discriminate|]); intros H; exfalso; apply H;
        ouroboros_counts; reflexivity. }
  destruct (serialize_signed_tx _ signature) as [signed|]; cbn [of_option];
    [|apply Hno; [ouroboros_counts; reflexivity|intros ? ?; discriminate]].
  assert (Hlast : forall (o : outcome Ouroboros.report) t,
    o <> Ok Ouroboros.SessionSigsRefused ->
    (fst (o, t ++ [Ouroboros.Logged EvLitDisconnect]) =
     Ok Ouroboros.SessionSigsRefused ->
     Ouroboros.connections (snd (o, t ++ [Ouroboros.Logged EvLitDisconnect])) =
     Ouroboros.connections tr ++ [tt] /\
     Ouroboros.disconnections (snd (o, t ++ [Ouroboros.Logged EvLitDisconnect])) =
     Ouroboros.disconnections tr /\
     Ouroboros.signing_requests (snd (o, t ++ [Ouroboros.Logged EvLitDisconnect])) =
     Ouroboros.signing_requests tr) /\
    (Ouroboros.broadcasts (snd (o, t ++ [Ouroboros.Logged EvLitDisconnect])) <>
     Ouroboros.broadcasts tr ->
     exists tr0,
       snd (o, t ++ [Ouroboros.Logged EvLitDisconnect]) =
       tr0 ++ [Ouroboros.Logged EvLitDisconnect])).
  { intros o t Ho. cbn [fst snd].
    split; [intros E; contradiction|intros _; eexists; reflexivity]. }
  destruct (send_raw_transaction W signed) as [sent|e];
    [destruct (wait_for_transaction_receipt W sent) as [receipt|e];
     [destruct (status receipt =? 1);
      [destruct (getStateAnchor W Ouroboros.TOKEN_ID) as [anchor|e];
       [destruct (str_eqb _ _)|]|]|]|];
    destruct (lit_disconnect W) as [u'|e'];
    cbv beta iota zeta; apply Hlast; discriminate.
Qed.

Lemma ouroboros_main_disconnects_after_broadcast_witness :
  let refusing :=
    with_get_session_sigs sample_world
      (fun _ => Ok (mkSessionSigsResult false None)) in
  let balance := fun _ : pystr => Ok 1000000000000000 in
  let r := Ouroboros.main refusing balance [] in
  let r' := Ouroboros.main sample_world balance [] in
  (Ouroboros.connections (snd r) = Ouroboros.connections [] ++ [tt] /\
   Ouroboros.disconnections (snd r) = Ouroboros.disconnections [] /\
   Ouroboros.signing_requests (snd r) = Ouroboros.signing_requests []) /\
  exists tr0, snd r' = tr0 ++ [Ouroboros.Logged EvLitDisconnect].
Proof.
  intros refusing balance r r'. split.
  - apply (proj1 (ouroboros_main_disconnects_after_broadcast refusing balance [])).
    vm_compute. reflexivity.
  - apply (proj2 (ouroboros_main_disconnects_after_broadcast sample_world balance [])).
    vm_compute. discriminate.
Defined.
